(** * rhv-upload-plugin: the oVirt/RHV upload nbdkit plugin

    A shallow embedding of [v2v/rhv-upload-plugin.py].  The plugin talks to
    three collaborators: the oVirt engine (through the SDK), the imageio
    server (through [http.client] connections kept in a [queue.Queue]) and
    the local machine (clock, files, sockets).  Their answers are not
    decided by the plugin, so the embedding keeps them as oracles inside an
    explicit [World]; every Python function becomes a computation in a
    state-and-exception monad over that world, and every call that is
    visible from the outside is appended to a trace. *)

From Stdlib Require Import ZArith List String Bool Lia Arith DecimalString.
From Stdlib Require Import Permutation.
From Stdlib.Strings Require Import Byte.
From Equations Require Import Equations.
Import ListNotations.

Local Open Scope string_scope.
Local Open Scope list_scope.
Local Open Scope Z_scope.

(** ** Module constants *)

(** [MAX_CONNECTIONS = 4] *)
Definition MAX_CONNECTIONS : Z := 4.

(** [timeout = 5 * 60], the module-level constant (seconds). *)
Definition timeout : Z := 5 * 60.

Arguments timeout : simpl never.

(** ** SDK types

    [ovirtsdk4.types] is not part of the plugin.  The enumerations keep the
    members the plugin names, and one constructor for every other member. *)

Inductive ImageTransferPhase :=
| INITIALIZING
| TRANSFERRING
| PAUSED_SYSTEM
| FINISHED_FAILURE
| FINISHED_SUCCESS
| OtherPhase (name : string).

Module DiskStatus.
Inductive t :=
| OK
| LOCKED
| ILLEGAL
| Other (name : string).
End DiskStatus.

Module DiskFormat.
Inductive t := RAW | COW.
End DiskFormat.

(** The result of [urlparse]. *)
Record Url := {
  scheme : string;
  hostname : string;
  port : option Z;
  url_path : string
}.

Record Disk := {
  disk_id : string;
  disk_status : DiskStatus.t
}.

Record Host := { host_id : string }.

Record Transfer := {
  transfer_id : string;
  phase : ImageTransferPhase;
  transfer_url : option Url;
  proxy_url : Url
}.

(** ** Exceptions

    Every [RuntimeError] of the plugin is built from a format string; the
    message keeps the format (one constructor each) and its arguments. *)

Inductive io_message :=
| CouldNotRead (offset count : Z)              (* "could not read sector offset %d size %d" *)
| UnexpectedContentLength (offset count got : Z)
| ShortRead (offset count got : Z)             (* "short read offset %d size %d got %d" *)
| CouldNotWrite (offset count : Z)
| CouldNotZero (offset count : Z)
| CouldNotWriteZeroes (offset count : Z)
| CouldNotFlush.

Inductive message :=
| DiskTimedOut (disk : string)                 (* "timed out waiting for disk %s to become unlocked" *)
| TransferRemoved (transfer : string)          (* "transfer %s was removed" *)
| TransferFailed (transfer : string)           (* "transfer %s has failed" *)
| TransferPaused (transfer : string)           (* "transfer %s was paused by system" *)
| UnexpectedPhase (transfer : string) (p : ImageTransferPhase)
| TransferTimedOut (transfer : string)         (* "timed out waiting for transfer %s" *)
| DiskRemoved (transfer disk : string)         (* "transfer %s failed: disk %s was removed" *)
| DiskIs (transfer : string) (s : DiskStatus.t) (* "transfer %s failed: disk is %s" *)
| FinalizeTimedOut (transfer : string) (p : ImageTransferPhase)
| DirectNotSupported
| UnknownScheme (scheme : string)
| OptionsFailed (status : Z) (reason : string)
| RequestFailed (msg : io_message) (status : Z) (reason : string)
    (body : list byte + string)               (* "%s: %d %s: %r" *).

Inductive exn :=
| RuntimeError (m : message)
| NotFoundError                                (* sdk.NotFoundError *)
| SdkError (what : string)                     (* any other SDK error *)
| BrokenPipeError
| OSError (what : string)                      (* any other EnvironmentError *)
| TypeError
| ValueError
| KeyError
| HTTPException (what : string).

(** [except EnvironmentError]: [OSError] and its subclasses. *)
Definition is_EnvironmentError (e : exn) : bool :=
  match e with
  | BrokenPipeError | OSError _ => true
  | _ => false
  end.

Definition is_BrokenPipeError (e : exn) : bool :=
  match e with
  | BrokenPipeError => true
  | _ => false
  end.

Definition is_NotFoundError (e : exn) : bool :=
  match e with
  | NotFoundError => true
  | _ => false
  end.

(** [except Exception] and the bare [except:] catch all of the above. *)
Definition is_Exception (e : exn) : bool := true.

(** ** HTTP objects *)

(** The [timeout] argument of [HTTPConnection.__init__]: either the
    sentinel object [socket._GLOBAL_DEFAULT_TIMEOUT] or a value
    ([None] or a number of seconds). *)
Inductive timeout_arg :=
| GLOBAL_DEFAULT_TIMEOUT
| TimeoutValue (t : option Z).

Record SSLContext := {
  cafile : string;
  check_hostname : bool;
  verify_cert : bool
}.

Inductive Transport :=
| UnixHTTPConnection (path : string) (tmo : timeout_arg)
| HTTPSConnection (host : string) (port : option Z) (context : SSLContext)
| HTTPConnection (host : string) (port : option Z).

(** A socket, as far as the plugin touches it: the value last given to
    [settimeout], if any. *)
Record Socket := { sock_timeout : option Z }.

(** The state of a connection object: its class and arguments, and
    [self.sock]. *)
Record Conn := {
  transport : Transport;
  sock : option Socket
}.

(** What the imageio server reports in the body of an OPTIONS answer. *)
Record OptionsDoc := {
  features : list string;
  doc_unix_socket : option string;
  doc_max_readers : option Z;
  doc_max_writers : option Z
}.

Inductive header_value :=
| HeaderMissing                 (* [getheader] returns [None] *)
| HeaderText (junk : string)    (* a value [int] rejects *)
| HeaderInt (n : Z).

(** An HTTP response as delivered by [getresponse].  The body arrives in
    segments: one [readinto] call gets bytes from the first segment only,
    and gets nothing once the segments are used up (or the first one is
    empty: the peer closed the stream). *)
Record Response := {
  status : Z;
  reason : string;
  content_length : header_value;
  segments : list (list byte);
  read_error : option exn;        (* what [r.read()] raises, if it does *)
  json_doc : option OptionsDoc    (* [json.loads] of the body, when it parses *)
}.

(** ** The world *)

Definition stream (A : Type) := nat -> A.
Definition shd {A} (s : stream A) : A := s 0%nat.
Definition stl {A} (s : stream A) : stream A := fun n => s (S n).

Definition result (A : Type) := (A + exn)%type.

(** Configuration, the global [params]. *)
Record Params := {
  verbose : bool;
  output_storage : string;
  rhv_cafile : string;
  insecure : bool;
  rhv_direct : bool;
  disk_format : string;
  disk_name : string;
  disk_size : Z;
  rhv_disk_uuid : option string;
  diskid_file : string
}.

(** The answers of the oVirt engine. *)
Record Engine := {
  vdsm_id : option string;                  (* /etc/vdsm/vdsm.id, when readable *)
  data_centers : result (list string);
  hosts : result (list Host);
  supports_format : bool;                   (* [transfer_supports_format()] *)
  disk_add : result Disk;
  disk_get : stream (result Disk);
  transfer_add : result Transfer;
  transfer_get : stream (result Transfer);
  transfer_finalize : option exn;
  transfer_cancel : stream (option exn)
}.

(** The answers of the sockets and of the imageio server. *)
Record Network := {
  unix_init : stream (option exn);          (* [UnixHTTPConnection.__init__] *)
  sock_connect : stream (option exn);       (* [connect] on a socket *)
  wire : stream (option exn);               (* writing on a connected socket *)
  responses : stream (result Response)      (* [getresponse] *)
}.

Inductive event :=
| EvSleep (seconds : Z)
| EvDiskAdd (d : string)
| EvDiskGet (d : string)
| EvTransferAdd (d : string) (h : option Host) (fmt : option DiskFormat.t)
| EvTransferGet (t : string)
| EvTransferCancel (t : string)
| EvTransferFinalize (t : string)
| EvConnectionClose
| EvSocket (c : nat)
| EvSetTimeout (c : nat) (t : Z)
| EvSockConnect (c : nat)
| EvPoolGet (c : nat)
| EvPoolPut (c : nat)
| EvRequest (c : nat) (method path : string)
    (headers : list (string * string)) (body : list byte)
| EvPutRequest (c : nat) (method path : string)
| EvPutHeader (c : nat) (name value : string)
| EvEndHeaders (c : nat)
| EvSend (c : nat) (data : list byte)
| EvGetResponse (c : nat)
| EvReadInto (c : nat) (n : nat)
| EvRead (c : nat)
| EvHttpClose (c : nat)
| EvFailedRead (b : bool)
| EvFailedWrite (b : bool)
| EvFileWrite (path content : string).

Record World := {
  params : Params;
  FLAG_FUA : Z;                             (* [nbdkit.FLAG_FUA] *)
  clock : stream Z;                         (* [time.time()] *)
  engine : Engine;
  network : Network;
  heap : nat -> Conn;                       (* the connection objects *)
  next_conn : nat;
  pool : list nat;                          (* [h['pool']], oldest first *)
  failed : bool;                            (* [h['failed']] *)
  files : string -> option string;
  trace : list event
}.

(** The handle [h], apart from the two entries that change after [open]:
    the queue behind [h['pool']] and [h['failed']] live in the world. *)
Record Handle := {
  h_can_flush : bool;
  h_can_zero : bool;
  h_disk_id : string;
  h_transfer : Transfer;
  h_connections : nat;
  h_path : string
}.

(** Field updates. *)

Definition set_disk_get (e : Engine) (s : stream (result Disk)) : Engine :=
  {| vdsm_id := vdsm_id e; data_centers := data_centers e; hosts := hosts e;
     supports_format := supports_format e; disk_add := disk_add e;
     disk_get := s;
     transfer_add := transfer_add e; transfer_get := transfer_get e;
     transfer_finalize := transfer_finalize e;
     transfer_cancel := transfer_cancel e |}.

Definition set_transfer_get (e : Engine) (s : stream (result Transfer)) : Engine :=
  {| vdsm_id := vdsm_id e; data_centers := data_centers e; hosts := hosts e;
     supports_format := supports_format e; disk_add := disk_add e;
     disk_get := disk_get e;
     transfer_add := transfer_add e; transfer_get := s;
     transfer_finalize := transfer_finalize e;
     transfer_cancel := transfer_cancel e |}.

Definition set_transfer_cancel (e : Engine) (s : stream (option exn)) : Engine :=
  {| vdsm_id := vdsm_id e; data_centers := data_centers e; hosts := hosts e;
     supports_format := supports_format e; disk_add := disk_add e;
     disk_get := disk_get e;
     transfer_add := transfer_add e; transfer_get := transfer_get e;
     transfer_finalize := transfer_finalize e;
     transfer_cancel := s |}.

Definition set_unix_init (n : Network) (s : stream (option exn)) : Network :=
  {| unix_init := s; sock_connect := sock_connect n; wire := wire n;
     responses := responses n |}.

Definition set_sock_connect (n : Network) (s : stream (option exn)) : Network :=
  {| unix_init := unix_init n; sock_connect := s; wire := wire n;
     responses := responses n |}.

Definition set_wire (n : Network) (s : stream (option exn)) : Network :=
  {| unix_init := unix_init n; sock_connect := sock_connect n; wire := s;
     responses := responses n |}.

Definition set_responses (n : Network) (s : stream (result Response)) : Network :=
  {| unix_init := unix_init n; sock_connect := sock_connect n; wire := wire n;
     responses := s |}.

Definition set_clock (w : World) (s : stream Z) : World :=
  {| params := params w; FLAG_FUA := FLAG_FUA w; clock := s;
     engine := engine w; network := network w; heap := heap w;
     next_conn := next_conn w; pool := pool w; failed := failed w;
     files := files w; trace := trace w |}.

Definition set_engine (w : World) (e : Engine) : World :=
  {| params := params w; FLAG_FUA := FLAG_FUA w; clock := clock w;
     engine := e; network := network w; heap := heap w;
     next_conn := next_conn w; pool := pool w; failed := failed w;
     files := files w; trace := trace w |}.

Definition set_network (w : World) (n : Network) : World :=
  {| params := params w; FLAG_FUA := FLAG_FUA w; clock := clock w;
     engine := engine w; network := n; heap := heap w;
     next_conn := next_conn w; pool := pool w; failed := failed w;
     files := files w; trace := trace w |}.

Definition set_heap (w : World) (hp : nat -> Conn) (n : nat) : World :=
  {| params := params w; FLAG_FUA := FLAG_FUA w; clock := clock w;
     engine := engine w; network := network w; heap := hp;
     next_conn := n; pool := pool w; failed := failed w;
     files := files w; trace := trace w |}.

Definition set_pool (w : World) (p : list nat) : World :=
  {| params := params w; FLAG_FUA := FLAG_FUA w; clock := clock w;
     engine := engine w; network := network w; heap := heap w;
     next_conn := next_conn w; pool := p; failed := failed w;
     files := files w; trace := trace w |}.

Definition set_failed (w : World) (b : bool) : World :=
  {| params := params w; FLAG_FUA := FLAG_FUA w; clock := clock w;
     engine := engine w; network := network w; heap := heap w;
     next_conn := next_conn w; pool := pool w; failed := b;
     files := files w; trace := trace w |}.

Definition set_files (w : World) (f : string -> option string) : World :=
  {| params := params w; FLAG_FUA := FLAG_FUA w; clock := clock w;
     engine := engine w; network := network w; heap := heap w;
     next_conn := next_conn w; pool := pool w; failed := failed w;
     files := f; trace := trace w |}.

Definition set_trace (w : World) (t : list event) : World :=
  {| params := params w; FLAG_FUA := FLAG_FUA w; clock := clock w;
     engine := engine w; network := network w; heap := heap w;
     next_conn := next_conn w; pool := pool w; failed := failed w;
     files := files w; trace := t |}.

(** ** The monad

    A Python call either returns, or raises, or never comes back: it waits
    on an empty queue ([Blocks]), or it loops for longer than the fuel the
    embedding gave it ([OutOfFuel]). *)

Inductive outcome (A : Type) :=
| Returns (a : A)
| Raises (e : exn)
| Blocks
| OutOfFuel.

Arguments Returns {A} a.
Arguments Raises {A} e.
Arguments Blocks {A}.
Arguments OutOfFuel {A}.

Definition M (A : Type) := World -> outcome A * World.

Definition ret {A} (a : A) : M A := fun w => (Returns a, w).

Definition raise {A} (e : exn) : M A := fun w => (Raises e, w).

Definition bind {A B} (m : M A) (k : A -> M B) : M B :=
  fun w =>
    match m w with
    | (Returns a, w') => k a w'
    | (Raises e, w') => (Raises e, w')
    | (Blocks, w') => (Blocks, w')
    | (OutOfFuel, w') => (OutOfFuel, w')
    end.

Declare Scope py_scope.
Delimit Scope py_scope with py.
Notation "x <- m ;; k" := (bind m (fun x => k))
  (at level 100, m at next level, right associativity) : py_scope.
Notation "m ;; k" := (bind m (fun _ => k))
  (at level 100, right associativity) : py_scope.
Local Open Scope py_scope.

(** [try: m except <handles>: handler] *)
Definition try_except {A} (m : M A) (handles : exn -> bool)
    (handler : exn -> M A) : M A :=
  fun w =>
    match m w with
    | (Raises e, w') => if handles e then handler e w' else (Raises e, w')
    | r => r
    end.

(** [try: m except <handles>: handler else: orelse] *)
Definition try_except_else {A B} (m : M A) (handles : exn -> bool)
    (handler : exn -> M B) (orelse : A -> M B) : M B :=
  fun w =>
    match m w with
    | (Returns a, w') => orelse a w'
    | (Raises e, w') => if handles e then handler e w' else (Raises e, w')
    | (Blocks, w') => (Blocks, w')
    | (OutOfFuel, w') => (OutOfFuel, w')
    end.

(** [try: m finally: cleanup].  The cleanup runs when [m] returns and when
    it raises; an exception of the cleanup replaces the one of [m]. *)
Definition try_finally {A} (m : M A) (cleanup : M unit) : M A :=
  fun w =>
    match m w with
    | (Returns a, w') =>
        match cleanup w' with
        | (Returns _, w'') => (Returns a, w'')
        | (Raises e, w'') => (Raises e, w'')
        | (Blocks, w'') => (Blocks, w'')
        | (OutOfFuel, w'') => (OutOfFuel, w'')
        end
    | (Raises e, w') =>
        match cleanup w' with
        | (Returns _, w'') => (Raises e, w'')
        | (Raises e', w'') => (Raises e', w'')
        | (Blocks, w'') => (Blocks, w'')
        | (OutOfFuel, w'') => (OutOfFuel, w'')
        end
    | (Blocks, w') => (Blocks, w')
    | (OutOfFuel, w') => (OutOfFuel, w')
    end.

Definition out_of_fuel {A} : M A := fun w => (OutOfFuel, w).

Definition blocks {A} : M A := fun w => (Blocks, w).

Definition of_result {A} (r : result A) : M A :=
  match r with
  | inl a => ret a
  | inr e => raise e
  end.

Definition of_error (r : option exn) : M unit :=
  match r with
  | None => ret tt
  | Some e => raise e
  end.

Definition log (e : event) : M unit :=
  fun w => (Returns tt, set_trace w (trace w ++ [e])).

Definition get_params : M Params := fun w => (Returns (params w), w).

(** ** The clock *)

Definition time_time : M Z :=
  fun w => (Returns (shd (clock w)), set_clock w (stl (clock w))).

Definition time_sleep (seconds : Z) : M unit := log (EvSleep seconds).

(** ** SDK calls *)

Definition disks_service_add : M Disk :=
  fun w =>
    match disk_add (engine w) with
    | inl d => (log (EvDiskAdd (disk_id d)) ;; ret d) w
    | inr e => (Raises e, w)
    end.

Definition disk_service_get (id : string) : M Disk :=
  log (EvDiskGet id) ;;
  fun w =>
    of_result (shd (disk_get (engine w)))
      (set_engine w (set_disk_get (engine w) (stl (disk_get (engine w))))).

Definition transfers_service_add (d : string) (h : option Host)
    (fmt : option DiskFormat.t) : M Transfer :=
  log (EvTransferAdd d h fmt) ;;
  fun w => of_result (transfer_add (engine w)) w.

Definition transfer_service_get (id : string) : M Transfer :=
  log (EvTransferGet id) ;;
  fun w =>
    of_result (shd (transfer_get (engine w)))
      (set_engine w
         (set_transfer_get (engine w) (stl (transfer_get (engine w))))).

Definition transfer_service_cancel (id : string) : M unit :=
  log (EvTransferCancel id) ;;
  fun w =>
    of_error (shd (transfer_cancel (engine w)))
      (set_engine w
         (set_transfer_cancel (engine w) (stl (transfer_cancel (engine w))))).

Definition transfer_service_finalize (id : string) : M unit :=
  log (EvTransferFinalize id) ;;
  fun w => of_error (transfer_finalize (engine w)) w.

Definition connection_close : M unit := log EvConnectionClose.

Definition transfer_supports_format : M bool :=
  fun w => (Returns (supports_format (engine w)), w).

(** Equality on the enumerations, for [==] and [!=]. *)

Definition phase_eqb (p q : ImageTransferPhase) : bool :=
  match p, q with
  | INITIALIZING, INITIALIZING => true
  | TRANSFERRING, TRANSFERRING => true
  | PAUSED_SYSTEM, PAUSED_SYSTEM => true
  | FINISHED_FAILURE, FINISHED_FAILURE => true
  | FINISHED_SUCCESS, FINISHED_SUCCESS => true
  | OtherPhase a, OtherPhase b => String.eqb a b
  | _, _ => false
  end.

Definition status_eqb (p q : DiskStatus.t) : bool :=
  match p, q with
  | DiskStatus.OK, DiskStatus.OK => true
  | DiskStatus.LOCKED, DiskStatus.LOCKED => true
  | DiskStatus.ILLEGAL, DiskStatus.ILLEGAL => true
  | DiskStatus.Other a, DiskStatus.Other b => String.eqb a b
  | _, _ => false
  end.

(** ** Lifecycle: disk and transfer *)

(** The polling loop of [create_disk]. *)
Fixpoint create_disk_wait (fuel : nat) (id : string) (endt : Z) : M Disk :=
  match fuel with
  | O => out_of_fuel
  | S fuel' =>
      time_sleep 1 ;;
      disk <- disk_service_get id ;;
      if status_eqb (disk_status disk) DiskStatus.OK then ret disk
      else
        now <- time_time ;;
        if now >? endt then
          raise (RuntimeError (DiskTimedOut (disk_id disk)))
        else create_disk_wait fuel' id endt
  end.

Definition create_disk (fuel : nat) : M Disk :=
  disk <- disks_service_add ;;
  now <- time_time ;;
  let endt := now + timeout in
  create_disk_wait fuel (disk_id disk) endt.

(** The polling loop of [create_transfer]; [id] is the identifier behind
    [transfer_service], [transfer] the local variable of that name. *)
Fixpoint create_transfer_wait (fuel : nat) (id : string) (endt : Z)
    (transfer : Transfer) : M Transfer :=
  match fuel with
  | O => out_of_fuel
  | S fuel' =>
      time_sleep 1 ;;
      transfer <- try_except (transfer_service_get id) is_NotFoundError
                    (fun _ => raise (RuntimeError
                                       (TransferRemoved (transfer_id transfer)))) ;;
      if phase_eqb (phase transfer) FINISHED_FAILURE then
        raise (RuntimeError (TransferFailed (transfer_id transfer)))
      else if phase_eqb (phase transfer) PAUSED_SYSTEM then
        transfer_service_cancel id ;;
        raise (RuntimeError (TransferPaused (transfer_id transfer)))
      else if phase_eqb (phase transfer) TRANSFERRING then
        ret transfer
      else if negb (phase_eqb (phase transfer) INITIALIZING) then
        transfer_service_cancel id ;;
        raise (RuntimeError
                 (UnexpectedPhase (transfer_id transfer) (phase transfer)))
      else
        now <- time_time ;;
        if now >? endt then
          transfer_service_cancel id ;;
          raise (RuntimeError (TransferTimedOut (transfer_id transfer)))
        else create_transfer_wait fuel' id endt transfer
  end.

Definition create_transfer (fuel : nat) (disk : Disk) (host : option Host)
    : M Transfer :=
  has_format <- transfer_supports_format ;;
  let extra := if has_format then Some DiskFormat.RAW else None in
  transfer <- transfers_service_add (disk_id disk) host extra ;;
  let id := transfer_id transfer in
  now <- time_time ;;
  let endt := now + timeout in
  create_transfer_wait fuel id endt transfer.

Definition cancel_transfer (transfer : Transfer) : M unit :=
  transfer_service_cancel (transfer_id transfer).

(** The polling loop of [finalize_transfer]. *)
Fixpoint finalize_transfer_wait (fuel : nat) (id : string) (start : Z)
    (transfer : Transfer) (disk_id : string) : M unit :=
  match fuel with
  | O => out_of_fuel
  | S fuel' =>
      time_sleep 1 ;;
      try_except_else (transfer_service_get id) is_NotFoundError
        (fun _ =>
           disk <- try_except (disk_service_get disk_id) is_NotFoundError
                     (fun _ => raise (RuntimeError
                                        (DiskRemoved (transfer_id transfer)
                                           disk_id))) ;;
           if status_eqb (disk_status disk) DiskStatus.OK then ret tt
           else raise (RuntimeError
                         (DiskIs (transfer_id transfer) (disk_status disk))))
        (fun transfer =>
           if phase_eqb (phase transfer) FINISHED_SUCCESS then ret tt
           else if phase_eqb (phase transfer) FINISHED_FAILURE then
             raise (RuntimeError (TransferFailed (transfer_id transfer)))
           else if phase_eqb (phase transfer) PAUSED_SYSTEM then
             raise (RuntimeError (TransferPaused (transfer_id transfer)))
           else
             now <- time_time ;;
             if now >? start + timeout then
               raise (RuntimeError
                        (FinalizeTimedOut (transfer_id transfer)
                           (phase transfer)))
             else finalize_transfer_wait fuel' id start transfer disk_id)
  end.

Definition finalize_transfer (fuel : nat) (transfer : Transfer)
    (disk_id : string) : M unit :=
  let id := transfer_id transfer in
  start <- time_time ;;
  transfer_service_finalize id ;;
  finalize_transfer_wait fuel id start transfer disk_id ;;
  (* the argument of the last [debug] reads the clock once more *)
  now <- time_time ;;
  ret tt.

(** [for x in l: body x] *)
Fixpoint for_each {A} (l : list A) (body : A -> M unit) : M unit :=
  match l with
  | [] => ret tt
  | x :: rest => body x ;; for_each rest body
  end.

(** ** Connection objects *)

Definition new_conn (t : Transport) : M nat :=
  fun w =>
    let c := next_conn w in
    (Returns c,
     set_heap w
       (fun i => if Nat.eqb i c then {| transport := t; sock := None |}
                 else heap w i)
       (S c)).

Definition set_sock (c : nat) (s : option Socket) : M unit :=
  fun w =>
    (Returns tt,
     set_heap w
       (fun i => if Nat.eqb i c
                 then {| transport := transport (heap w c); sock := s |}
                 else heap w i)
       (next_conn w)).

Definition socket_connect (c : nat) : M unit :=
  log (EvSockConnect c) ;;
  fun w =>
    of_error (shd (sock_connect (network w)))
      (set_network w
         (set_sock_connect (network w) (stl (sock_connect (network w))))).

(** [UnixHTTPConnection.__init__]: it stores the path and runs the
    constructor of [HTTPConnection], which keeps [timeout] as
    [self.timeout] and opens nothing. *)
Definition UnixHTTPConnection_init (path : string) (tmo : timeout_arg)
    : M nat :=
  fun w =>
    let w' := set_network w
                (set_unix_init (network w) (stl (unix_init (network w)))) in
    match shd (unix_init (network w)) with
    | Some e => (Raises e, w')
    | None => new_conn (UnixHTTPConnection path tmo) w'
    end.

(** [UnixHTTPConnection.connect] *)
Definition UnixHTTPConnection_connect (c : nat) (tmo : timeout_arg)
    : M unit :=
  log (EvSocket c) ;;
  set_sock c (Some {| sock_timeout := None |}) ;;
  (match tmo with
   | GLOBAL_DEFAULT_TIMEOUT => ret tt
   | TimeoutValue _ =>
       log (EvSetTimeout c timeout) ;;
       set_sock c (Some {| sock_timeout := Some timeout |})
   end) ;;
  socket_connect c.

(** [connect()] on a connection object, by its class.  The network classes
    are those of [http.client]: they keep the socket only when the
    connection is made. *)
Definition connect (c : nat) : M unit :=
  fun w =>
    match transport (heap w c) with
    | UnixHTTPConnection _ tmo => UnixHTTPConnection_connect c tmo w
    | _ => (socket_connect c ;;
            set_sock c (Some {| sock_timeout := None |})) w
    end.

(** Writing to the server, as [http.client] does it: connect first when
    [self.sock is None]. *)
Definition sock_send (c : nat) : M unit :=
  (fun w =>
     match sock (heap w c) with
     | None => connect c w
     | Some _ => (Returns tt, w)
     end) ;;
  fun w =>
    of_error (shd (wire (network w)))
      (set_network w (set_wire (network w) (stl (wire (network w))))).

Definition http_request (c : nat) (method path : string)
    (headers : list (string * string)) (body : list byte) : M unit :=
  log (EvRequest c method path headers body) ;;
  sock_send c.

Definition http_putrequest (c : nat) (method path : string) : M unit :=
  log (EvPutRequest c method path).

Definition http_putheader (c : nat) (name value : string) : M unit :=
  log (EvPutHeader c name value).

Definition http_endheaders (c : nat) : M unit :=
  log (EvEndHeaders c) ;;
  sock_send c.

Definition http_send (c : nat) (data : list byte) : M unit :=
  log (EvSend c data) ;;
  sock_send c.

Definition http_getresponse (c : nat) : M Response :=
  log (EvGetResponse c) ;;
  fun w =>
    of_result (shd (responses (network w)))
      (set_network w (set_responses (network w) (stl (responses (network w))))).

Definition http_close (c : nat) : M unit :=
  log (EvHttpClose c) ;;
  set_sock c None.

(** [r.read()] *)
Definition response_read (c : nat) (r : Response) : M (list byte) :=
  log (EvRead c) ;;
  match read_error r with
  | Some e => raise e
  | None => ret (List.concat (segments r))
  end.

(** [r.readinto(view)] for a view of [k] bytes: the bytes received and
    the response with these bytes consumed. *)
Definition response_readinto (r : Response) (k : nat)
    : list byte * Response :=
  match segments r with
  | [] => ([], r)
  | seg :: rest =>
      (firstn k seg,
       {| status := status r; reason := reason r;
          content_length := content_length r;
          segments := match skipn k seg with
                      | [] => rest
                      | more => more :: rest
                      end;
          read_error := read_error r; json_doc := json_doc r |})
  end.

(** ** The transport factory *)

(** Truth value of [unix_socket]: neither [None] nor the empty string. *)
Definition truthy (s : option string) : option string :=
  match s with
  | Some EmptyString => None
  | other => other
  end.

Definition create_http (url : Url) (unix_socket : option string) : M nat :=
  (* [Some c]: the [return] inside the [try] was reached *)
  made <- match truthy unix_socket with
          | Some path =>
              try_except
                (c <- UnixHTTPConnection_init path GLOBAL_DEFAULT_TIMEOUT ;;
                 ret (Some c))
                is_Exception
                (fun _ => ret None)
          | None => ret None
          end ;;
  match made with
  | Some c => ret c
  | None =>
      p <- get_params ;;
      if String.eqb (scheme url) "https" then
        let context :=
          if insecure p
          then {| cafile := rhv_cafile p; check_hostname := false;
                  verify_cert := false |}
          else {| cafile := rhv_cafile p; check_hostname := true;
                  verify_cert := true |} in
        new_conn (HTTPSConnection (hostname url) (port url) context)
      else if String.eqb (scheme url) "http" then
        new_conn (HTTPConnection (hostname url) (port url))
      else raise (RuntimeError (UnknownScheme (scheme url)))
  end.

(** ** The connection pool: [queue.Queue] *)

(** [pool.get()]: the oldest connection; waits when there is none. *)
Definition pool_get : M nat :=
  fun w =>
    match pool w with
    | [] => (Blocks, w)
    | c :: rest => (Returns c, set_trace (set_pool w rest) (trace w ++ [EvPoolGet c]))
    end.

(** [pool.put(http)] *)
Definition pool_put (c : nat) : M unit :=
  fun w => (Returns tt, set_trace (set_pool w (pool w ++ [c])) (trace w ++ [EvPoolPut c])).

(** [http_context]: [with http_context(h) as http: body http] *)
Definition http_context {A} (body : nat -> M A) : M A :=
  http <- pool_get ;;
  try_finally (body http) (pool_put http).

(** [while len(locked) < h["connections"]: locked.append(pool.get())],
    with [todo] the number of connections still to take. *)
Fixpoint lock_pool (todo : nat) (locked : list nat) : M (list nat) :=
  match todo with
  | O => ret locked
  | S todo' =>
      c <- pool_get ;;
      lock_pool todo' (locked ++ [c])
  end.

(** [iter_http_pool]: [for http in iter_http_pool(h): body http].  When the
    body raises, the generator is left suspended at its [yield] and is
    finalized as the loop is unwound; its [finally] block runs then. *)
Definition iter_http_pool (h : Handle) (body : nat -> M unit) : M unit :=
  locked <- lock_pool (h_connections h) [] ;;
  try_finally (for_each locked body) (for_each locked pool_put).

Definition close_http_pool (h : Handle) : M unit :=
  locked <- lock_pool (h_connections h) [] ;;
  for_each locked http_close.

(** ** The handle's [failed] entry *)

Definition write_failed (b : bool) : M unit :=
  log (EvFailedWrite b) ;;
  fun w => (Returns tt, set_failed w b).

Definition read_failed : M bool :=
  fun w => (log (EvFailedRead (failed w)) ;; ret (failed w)) w.

(** The decorator [failing]. *)
Definition failing {A} (func : M A) : M A :=
  try_except func (fun _ => true)
    (fun e => write_failed true ;; raise e).

(** ** Block operations *)

(** ["%d" % z] *)
Definition str (z : Z) : string := NilZero.string_of_int (Z.to_int z).

Definition len (b : list byte) : Z := Z.of_nat (List.length b).

Definition exn_text (e : exn) : string :=
  match e with
  | OSError what => what
  | BrokenPipeError => "[Errno 32] Broken pipe"
  | _ => EmptyString
  end.

(** [body[:200]] *)
Definition truncated (body : list byte + string) : list byte + string :=
  match body with
  | inl b => inl (firstn 200 b)
  | inr s => inr (String.substring 0 200 s)
  end.

Definition request_failed {A} (c : nat) (r : Response) (msg : io_message)
    : M A :=
  let status := status r in
  let reason := reason r in
  body <- try_except
            (b <- response_read c r ;; ret (inl b))
            is_EnvironmentError
            (fun e => ret (inr (("(Unable to read response body: "
                                   ++ exn_text e) ++ ")")%string)) ;;
  raise (RuntimeError (RequestFailed msg status reason (truncated body))).

(** [int(r.getheader(...))] *)
Definition int (v : header_value) : M Z :=
  match v with
  | HeaderMissing => raise TypeError
  | HeaderText _ => raise ValueError
  | HeaderInt n => ret n
  end.

(** [view[got:got+n] = data], the effect of [readinto] on the buffer. *)
Definition fill (buf : list byte) (got : nat) (data : list byte)
    : list byte :=
  firstn got buf ++ data ++ skipn (got + List.length data) buf.

(** The loop of [pread] that fills the buffer. *)
Equations? pread_loop (c : nat) (offset : Z) (count : nat) (r : Response)
    (buf : list byte) (got : nat) : M (list byte)
    by wf (count - got)%nat lt :=
  pread_loop c offset count r buf got with lt_dec got count := {
    | left _ with response_readinto r (count - got) := {
        | (data, r') with List.length data := {
            | O =>
                log (EvReadInto c 0) ;;
                request_failed c r'
                  (ShortRead offset (Z.of_nat count) (Z.of_nat got))
            | S n =>
                log (EvReadInto c (S n)) ;;
                pread_loop c offset count r' (fill buf got data)
                  (got + S n)%nat } }
    | right _ => ret buf }.
Proof. lia. Qed.

Definition pread (h : Handle) (buf : list byte) (offset flags : Z)
    : M (list byte) :=
  failing
    (let count := len buf in
     let headers :=
       [("Range",
         ((("bytes=" ++ str offset) ++ "-") ++ str (offset + count - 1))%string)] in
     http_context (fun http =>
       http_request http "GET" (h_path h) headers [] ;;
       r <- http_getresponse http ;;
       (if negb (status r =? 206)
        then request_failed http r (CouldNotRead offset count)
        else ret tt) ;;
       content_length <- int (content_length r) ;;
       (if negb (content_length =? count)
        then request_failed http r
               (UnexpectedContentLength offset count content_length)
        else ret tt) ;;
       pread_loop http offset (List.length buf) r buf 0)).

(** [bool(flags & nbdkit.FLAG_FUA)] *)
Definition flag_fua (flags : Z) : M bool :=
  fun w => (Returns (negb (Z.land flags (FLAG_FUA w) =? 0)), w).

Definition content_range (offset count : Z) : string :=
  (((("bytes " ++ str offset) ++ "-") ++ str (offset + count - 1)) ++ "/*")%string.

Definition pwrite (h : Handle) (buf : list byte) (offset flags : Z)
    : M unit :=
  failing
    (let count := len buf in
     fua <- flag_fua flags ;;
     let flush := if h_can_flush h && fua then "y" else "n" in
     http_context (fun http =>
       http_putrequest http "PUT" ((h_path h ++ "?flush=") ++ flush)%string ;;
       http_putheader http "Content-Range" (content_range offset count) ;;
       http_putheader http "Content-Length" (str count) ;;
       http_endheaders http ;;
       try_except (http_send http buf) is_BrokenPipeError
         (fun _ => ret tt) ;;
       r <- http_getresponse http ;;
       (if negb (status r =? 200)
        then request_failed http r (CouldNotWrite offset count)
        else ret tt) ;;
       response_read http r ;;
       ret tt)).

(** [bytearray(n)]: [n] zero bytes. *)
Definition bytearray (n : Z) : list byte := repeat x00 (Z.to_nat n).

(** [buf = bytearray(128 * 1024)] *)
Definition zero_buf : list byte := bytearray (128 * 1024).

Arguments bytearray : simpl never.
Arguments zero_buf : simpl never.

(** [memoryview(buf)[:count]] *)
Definition prefix (buf : list byte) (count : Z) : list byte :=
  if count <? 0 then firstn (Z.to_nat (len buf + count)) buf
  else firstn (Z.to_nat count) buf.

(** The [try] block of [emulate_zero] with its [except BrokenPipeError:
    pass].  The result is the value of [count] when the block is left,
    which the error message below reads. *)
Equations? send_zeroes (http : nat) (count : Z) : M Z
    by wf (Z.to_nat count) lt :=
  send_zeroes http count with Z_gt_dec count (len zero_buf) := {
    | left _ =>
        try_except_else (http_send http zero_buf) is_BrokenPipeError
          (fun _ => ret count)
          (fun _ => send_zeroes http (count - len zero_buf))
    | right _ =>
        try_except
          (http_send http (prefix zero_buf count) ;; ret count)
          is_BrokenPipeError
          (fun _ => ret count) }.
Proof.
  assert (E : len zero_buf = 128 * 1024).
  { unfold len, zero_buf, bytearray. rewrite repeat_length.
    apply Z2Nat.id. discriminate. }
  rewrite E in *. lia.
Qed.

Definition emulate_zero (h : Handle) (count offset flags : Z) : M unit :=
  fua <- flag_fua flags ;;
  let flush := if h_can_flush h && fua then "y" else "n" in
  http_context (fun http =>
    http_putrequest http "PUT" ((h_path h ++ "?flush=") ++ flush)%string ;;
    http_putheader http "Content-Range" (content_range offset count) ;;
    http_putheader http "Content-Length" (str count) ;;
    http_endheaders http ;;
    count <- send_zeroes http count ;;
    r <- http_getresponse http ;;
    (if negb (status r =? 200)
     then request_failed http r (CouldNotWriteZeroes offset count)
     else ret tt) ;;
    response_read http r ;;
    ret tt).

Definition quote : string := String (Ascii.ascii_of_nat 34) EmptyString.

(** [json.dumps({'op': "zero", 'offset': ..., 'size': ..., 'flush': ...})] *)
Definition json_zero (offset size : Z) (flush : bool) : string :=
  String.concat EmptyString
    ["{"; quote; "op"; quote; ": "; quote; "zero"; quote; ", ";
     quote; "offset"; quote; ": "; str offset; ", ";
     quote; "size"; quote; ": "; str size; ", ";
     quote; "flush"; quote; ": "; if flush then "true" else "false"; "}"].

(** [json.dumps({'op': "flush"})] *)
Definition json_flush : string :=
  String.concat EmptyString
    ["{"; quote; "op"; quote; ": "; quote; "flush"; quote; "}"].

Definition json_headers (buf : list byte) : list (string * string) :=
  [("Content-Type", "application/json"); ("Content-Length", str (len buf))].

Definition zero (h : Handle) (count offset flags : Z) : M unit :=
  failing
    (if negb (h_can_zero h) then emulate_zero h count offset flags
     else
       fua <- flag_fua flags ;;
       let flush := h_can_flush h && fua in
       let buf := list_byte_of_string (json_zero offset count flush) in
       let headers := json_headers buf in
       http_context (fun http =>
         http_request http "PATCH" (h_path h) headers buf ;;
         r <- http_getresponse http ;;
         (if negb (status r =? 200)
          then request_failed http r (CouldNotZero offset count)
          else ret tt) ;;
         response_read http r ;;
         ret tt)).

Definition flush (h : Handle) (flags : Z) : M unit :=
  failing
    (let buf := list_byte_of_string json_flush in
     let headers := json_headers buf in
     iter_http_pool h (fun http =>
       http_request http "PATCH" (h_path h) headers buf ;;
       r <- http_getresponse http ;;
       (if negb (status r =? 200)
        then request_failed http r CouldNotFlush
        else ret tt) ;;
       response_read http r ;;
       ret tt)).

Definition can_trim (h : Handle) : M bool := failing (ret false).

Definition can_flush (h : Handle) : M bool := failing (ret (h_can_flush h)).

Definition can_fua (h : Handle) : M bool := failing (ret (h_can_flush h)).

Definition get_size (h : Handle) : M Z :=
  failing (p <- get_params ;; ret (disk_size p)).

(** ** Session setup and teardown *)

Record Options := {
  o_can_flush : bool;
  o_can_zero : bool;
  o_unix_socket : option string;
  o_max_readers : Z;
  o_max_writers : Z
}.

Definition find_host : M (option Host) :=
  fun w =>
    match vdsm_id (engine w) with
    | None => (Returns None, w)
    | Some hw_id =>
        (data_centers <- of_result (data_centers (engine w)) ;;
         match data_centers with
         | [] => ret None
         | datacenter :: _ =>
             hosts <- of_result (hosts (engine w)) ;;
             match hosts with
             | [] => ret None
             | host :: _ => ret (Some {| host_id := host_id host |})
             end
         end) w
    end.

Definition parse_transfer_url (transfer : Transfer) : M Url :=
  p <- get_params ;;
  if rhv_direct p then
    match transfer_url transfer with
    | None => raise (RuntimeError DirectNotSupported)
    | Some url => ret url
    end
  else ret (proxy_url transfer).

Definition mem (s : string) (l : list string) : bool :=
  existsb (String.eqb s) l.

Definition get_options (http : nat) (url : Url) : M Options :=
  http_request http "OPTIONS" (url_path url) [] [] ;;
  r <- http_getresponse http ;;
  data <- response_read http r ;;
  if status r =? 200 then
    match json_doc r with
    | None => raise ValueError
    | Some j =>
        ret {| o_can_flush := mem "flush" (features j);
               o_can_zero := mem "zero" (features j);
               o_unix_socket := doc_unix_socket j;
               o_max_readers := match doc_max_readers j with
                                | Some n => n
                                | None => 1
                                end;
               o_max_writers := match doc_max_writers j with
                                | Some n => n
                                | None => 1
                                end |}
    end
  else if (status r =? 405) || (status r =? 204) then
    ret {| o_can_flush := false; o_can_zero := false;
           o_unix_socket := None; o_max_readers := 1; o_max_writers := 1 |}
  else raise (RuntimeError (OptionsFailed (status r) (reason r))).

(** [for i in range(count): http = create_http(...); pool.put(http)] *)
Fixpoint fill_pool (count : nat) (url : Url) (unix_socket : option string)
    : M unit :=
  match count with
  | O => ret tt
  | S count' =>
      http <- create_http url unix_socket ;;
      pool_put http ;;
      fill_pool count' url unix_socket
  end.

Definition create_http_pool (url : Url) (host : option Host)
    (options : Options) : M unit :=
  (* pool = queue.Queue() *)
  (fun w => (Returns tt, set_pool w [])) ;;
  let count := Z.min (Z.min (o_max_readers options) (o_max_writers options))
                 MAX_CONNECTIONS in
  let unix_socket := match host with
                     | Some _ => o_unix_socket options
                     | None => None
                     end in
  fill_pool (Z.to_nat count) url unix_socket.

Definition pool_qsize : M nat := fun w => (Returns (List.length (pool w)), w).

Definition open (fuel : nat) (readonly : bool) : M Handle :=
  p <- get_params ;;
  host <- (if rhv_direct p then find_host else ret None) ;;
  disk <- create_disk fuel ;;
  transfer <- create_transfer fuel disk host ;;
  made <- try_except
            (destination_url <- parse_transfer_url transfer ;;
             http <- create_http destination_url None ;;
             options <- get_options http destination_url ;;
             http_close http ;;
             create_http_pool destination_url host options ;;
             ret (destination_url, options))
            (fun _ => true)
            (fun e => cancel_transfer transfer ;; raise e) ;;
  let (destination_url, options) := made in
  (* the handle: ['failed': False] and ['connections': pool.qsize()] *)
  (fun w => (Returns tt, set_failed w false)) ;;
  connections <- pool_qsize ;;
  ret {| h_can_flush := o_can_flush options;
         h_can_zero := o_can_zero options;
         h_disk_id := disk_id disk;
         h_transfer := transfer;
         h_connections := connections;
         h_path := url_path destination_url |}.

(** [with builtins.open(path, 'w') as fp: fp.write(content)]; writing a
    local file is taken to succeed. *)
Definition write_file (path content : string) : M unit :=
  log (EvFileWrite path content) ;;
  fun w =>
    (Returns tt,
     set_files w (fun f => if String.eqb f path then Some content
                           else files w f)).

Definition close (fuel : nat) (h : Handle) : M unit :=
  let transfer := h_transfer h in
  let disk_id := h_disk_id h in
  close_http_pool h ;;
  failed <- read_failed ;;
  if failed then
    try_finally (cancel_transfer transfer) connection_close
  else
    try_finally
      (try_except_else (finalize_transfer fuel transfer disk_id)
         (fun _ => true)
         (fun e => cancel_transfer transfer ;; raise e)
         (fun _ =>
            p <- get_params ;;
            write_file (diskid_file p) disk_id))
      connection_close.

(** ** Observations on traces and worlds *)

Definition is_cancel (e : event) : bool :=
  match e with
  | EvTransferCancel _ => true
  | _ => false
  end.


Definition is_disk_get (e : event) : bool :=
  match e with
  | EvDiskGet _ => true
  | _ => false
  end.

Definition is_failed_read (e : event) : bool :=
  match e with
  | EvFailedRead _ => true
  | _ => false
  end.

Definition is_put_request (e : event) : bool :=
  match e with
  | EvPutRequest _ _ _ => true
  | _ => false
  end.

Definition is_pool_event (e : event) : bool :=
  match e with
  | EvPoolGet _ | EvPoolPut _ => true
  | _ => false
  end.


(** The calls of the polling loop of [finalize_transfer]. *)
Definition is_poll_call (e : event) : bool :=
  match e with
  | EvSleep _ | EvTransferGet _ | EvDiskGet _ => true
  | _ => false
  end.

(** The calls on a connection object and its response. *)
Definition is_http_call (e : event) : bool :=
  match e with
  | EvSocket _ | EvSetTimeout _ _ | EvSockConnect _
  | EvRequest _ _ _ _ _ | EvPutRequest _ _ _ | EvPutHeader _ _ _
  | EvEndHeaders _ | EvSend _ _ | EvGetResponse _ | EvReadInto _ _
  | EvRead _ | EvHttpClose _ => true
  | _ => false
  end.

(** The calls of [close_http_pool]. *)
Definition is_pool_close_call (e : event) : bool :=
  match e with
  | EvPoolGet _ | EvHttpClose _ => true
  | _ => false
  end.


Definition no_put_request (e : event) : bool := negb (is_put_request e).

Definition any_event (e : event) : bool := true.

(** The header of a ranged GET, ["Range: bytes=<first>-<last>"]. *)
Definition range_header (offset count : Z) : list (string * string) :=
  [("Range",
    ((("bytes=" ++ str offset) ++ "-") ++ str (offset + count - 1))%string)].






(** The number of body bytes that arrive before the stream ends. *)
Fixpoint available (segs : list (list byte)) : nat :=
  match segs with
  | [] => 0
  | [] :: _ => 0
  | seg :: rest => List.length seg + available rest
  end.

(** Number of events of a kind in a trace. *)
Definition calls (kind : event -> bool) (t : list event) : nat :=
  List.length (filter kind t).

(** The events of [n] rounds of polling the transfer. *)
Definition polled (n : nat) (id : string) : list event :=
  List.concat (repeat [EvSleep 1; EvTransferGet id] n).

(** The exception that leaves a block ending in [cancel(); raise e], given
    what the engine answers to the cancel call. *)
Definition after_cancel (answer : option exn) (e : exn) : exn :=
  match answer with
  | Some e' => e'
  | None => e
  end.

(** [create_transfer] polls [k] times a transfer that is still
    [INITIALIZING] with the deadline not yet passed. *)
Definition initializing (k : nat) (w : World) : Prop :=
  forall i, (i < k)%nat ->
    exists t, transfer_get (engine w) i = inl t /\
              phase t = INITIALIZING /\
              clock w (S i) <= clock w 0%nat + timeout.

(** [finalize_transfer] polls [k] times a transfer that exists, is in none
    of the final phases, with the deadline not yet passed. *)
Definition finalizing (k : nat) (w : World) : Prop :=
  forall i, (i < k)%nat ->
    exists t, transfer_get (engine w) i = inl t /\
              phase t <> FINISHED_SUCCESS /\
              phase t <> FINISHED_FAILURE /\
              phase t <> PAUSED_SYSTEM /\
              clock w (S i) <= clock w 0%nat + timeout.

(** A computation preserves a relation between the world it starts in and
    the world it leaves. *)
Definition preserves (R : World -> World -> Prop) {A} (m : M A) : Prop :=
  forall w, R w (snd (m w)).

(** The trace only grows, and only by events that [allowed] accepts. *)
Definition quiet (allowed : event -> bool) (w w' : World) : Prop :=
  exists new, trace w' = trace w ++ new /\ forallb allowed new = true.

(** A component of the world is left as it was. *)
Definition same {X} (f : World -> X) (w w' : World) : Prop := f w' = f w.

(** The computation made calls accepted by [allowed] and touched neither
    the configuration, nor the handle, nor the files. *)
Definition only (allowed : event -> bool) (w w' : World) : Prop :=
  quiet allowed w w' /\
  params w' = params w /\
  FLAG_FUA w' = FLAG_FUA w /\
  failed w' = failed w /\
  files w' = files w /\
  pool w' = pool w.

(** As [only], for the computations that take connections from the pool
    or put them back. *)
Definition pooled (allowed : event -> bool) (w w' : World) : Prop :=
  quiet allowed w w' /\
  params w' = params w /\
  FLAG_FUA w' = FLAG_FUA w /\
  failed w' = failed w /\
  files w' = files w.

(** The call came back: it returned or it raised. *)
Definition finishes {A} (o : outcome A) : Prop :=
  match o with
  | Returns _ | Raises _ => True
  | Blocks | OutOfFuel => False
  end.

Definition terminates {A} (m : M A) : Prop :=
  forall w, finishes (fst (m w)).

(** The diagnostic read of [request_failed] does not escape: [r.read()]
    returns, or raises an [EnvironmentError]. *)
Definition body_readable (r : Response) : Prop :=
  match read_error r with
  | Some e => is_EnvironmentError e = true
  | None => True
  end.

(** [h['failed']], once true, stays true. *)
Definition sticky (w w' : World) : Prop :=
  failed w = true -> failed w' = true.

Definition is_network_transport (t : Transport) : bool :=
  match t with
  | UnixHTTPConnection _ _ => false
  | HTTPSConnection _ _ _ | HTTPConnection _ _ => true
  end.

(** The world once the constructor of [UnixHTTPConnection] has answered. *)
Definition unix_init_done (w : World) : World :=
  set_network w (set_unix_init (network w) (stl (unix_init (network w)))).

(** The sentence of the specification about the local socket, read
    literally: whenever connecting over the supplied socket fails, the
    factory yields a network transport. *)
Definition falls_back_when_connect_fails : Prop :=
  forall (url : Url) (path : string) (w : World) (e : exn),
    truthy (Some path) = Some path ->
    (String.eqb (scheme url) "https" || String.eqb (scheme url) "http") = true ->
    sock_connect (network w) 0%nat = Some e ->
    exists c, fst (create_http url (Some path) w) = Returns c /\
              is_network_transport
                (transport (heap (snd (create_http url (Some path) w)) c)) = true.

(** What [http_context] and [iter_http_pool] do around their body, and
    what the body does. *)
Definition is_pool_or_http (e : event) : bool :=
  is_pool_event e || is_http_call e.

(** The calls of the hosting process on an open handle, before [close]:
    the functions the plugin decorates with [failing]. *)
Inductive request :=
| CanTrim
| CanFlush
| CanFua
| GetSize
| PRead (buf : list byte) (offset flags : Z)
| PWrite (buf : list byte) (offset flags : Z)
| Zero (count offset flags : Z)
| Flush (flags : Z).

(** A call whose result is dropped. *)
Definition void {A} (m : M A) : M unit := _ <- m ;; ret tt.

Definition perform (h : Handle) (q : request) : M unit :=
  match q with
  | CanTrim => void (can_trim h)
  | CanFlush => void (can_flush h)
  | CanFua => void (can_fua h)
  | GetSize => void (get_size h)
  | PRead buf offset flags => void (pread h buf offset flags)
  | PWrite buf offset flags => pwrite h buf offset flags
  | Zero count offset flags => zero h count offset flags
  | Flush flags => flush h flags
  end.

(** The world after a sequence of calls, however each of them ended. *)
Fixpoint perform_all (h : Handle) (qs : list request) (w : World) : World :=
  match qs with
  | [] => w
  | q :: rest => perform_all h rest (snd (perform h q w))
  end.

(** Events on [h['failed']] that the calls before [close] may cause:
    writes of [True], and no read. *)
Definition sets_flag_only (e : event) : bool :=
  match e with
  | EvFailedRead _ => false
  | EvFailedWrite b => b
  | _ => true
  end.

Definition is_flag_event (e : event) : bool :=
  match e with
  | EvFailedRead _ | EvFailedWrite _ => true
  | _ => false
  end.

Definition no_flag_event (e : event) : bool := negb (is_flag_event e).

Definition is_failed_write (e : event) : bool :=
  match e with
  | EvFailedWrite _ => true
  | _ => false
  end.

Definition is_finalize (e : event) : bool :=
  match e with
  | EvTransferFinalize _ => true
  | _ => false
  end.

Definition no_finalize (e : event) : bool := negb (is_finalize e).

(** The calls that borrow one connection through [http_context]. *)
Definition borrows (q : request) : bool :=
  match q with
  | PRead _ _ _ | PWrite _ _ _ | Zero _ _ _ => true
  | _ => false
  end.

Definition no_pool_event (e : event) : bool := negb (is_pool_event e).

(** ** The pool under parallel calls

    nbdkit runs the plugin with [THREAD_MODEL_PARALLEL]: several calls are
    in progress at once, and [queue.Queue] makes each [get] and each [put]
    atomic.  As far as the pool is concerned a thread is at one of the
    places below, and its steps are the queue operations of
    [http_context], [iter_http_pool] and [close_http_pool], in the order
    in which these functions make them. *)
Module Pool.

Inductive activity :=
| Outside                        (* not using the pool *)
| Borrowing (http : nat)         (* in the body of [with http_context(h) as http] *)
| Locking (locked : list nat)    (* in the [while] loop that takes the connections *)
| Iterating (locked : list nat)  (* at the [yield] of [iter_http_pool] *)
| Unlocking (todo : list nat)    (* in the [finally] of [iter_http_pool] *)
| Closing (locked : list nat).   (* in [close_http_pool], past its [while] loop *)

(** The connections a thread has taken and not put back. *)
Definition held (a : activity) : list nat :=
  match a with
  | Outside => []
  | Borrowing http => [http]
  | Locking l | Iterating l | Unlocking l | Closing l => l
  end.

Record state := {
  idle : list nat;               (* the queue *)
  threads : list activity
}.

Definition checked_out (s : state) : list nat := flat_map held (threads s).

(** One step of one thread on the queue; [n] is [h["connections"]]. *)
Inductive thread_step (n : nat)
  : list nat -> activity -> list nat -> activity -> Prop :=
| get_borrow c q :               (* http = pool.get() *)
    thread_step n (c :: q) Outside q (Borrowing c)
| put_borrow c q :               (* finally: pool.put(http) *)
    thread_step n q (Borrowing c) (q ++ [c]) Outside
| start_lock q :                 (* locked = [] *)
    thread_step n q Outside q (Locking [])
| get_lock c q l :               (* locked.append(pool.get()) *)
    (List.length l < n)%nat ->
    thread_step n (c :: q) (Locking l) q (Locking (l ++ [c]))
| yield_all q l :                (* iter_http_pool: the loop is over, yield *)
    ~ (List.length l < n)%nat ->
    thread_step n q (Locking l) q (Iterating l)
| close_all q l :                (* close_http_pool: the loop is over, close *)
    ~ (List.length l < n)%nat ->
    thread_step n q (Locking l) q (Closing l)
| leave_loop q l :               (* the caller's loop ends, or raises *)
    thread_step n q (Iterating l) q (Unlocking l)
| put_lock c q l :               (* for http in locked: pool.put(http) *)
    thread_step n q (Unlocking (c :: l)) (q ++ [c]) (Unlocking l)
| end_unlock q :
    thread_step n q (Unlocking []) q Outside.

(** Any thread may take the next step. *)
Inductive step (n : nat) : state -> state -> Prop :=
| step_of before a after q q' a' :
    thread_step n q a q' a' ->
    step n {| idle := q; threads := before ++ a :: after |}
           {| idle := q'; threads := before ++ a' :: after |}.

Inductive reachable (n : nat) (s0 : state) : state -> Prop :=
| reach_start : reachable n s0 s0
| reach_step s s' : reachable n s0 s -> step n s s' -> reachable n s0 s'.

(** After [open]: [n] connections in the queue, no call in progress. *)
Definition initial (n : nat) (s : state) : Prop :=
  List.length (idle s) = n /\ NoDup (idle s) /\
  Forall (fun a => a = Outside) (threads s).

End Pool.

(** Streams for examples. *)
Definition const {A} (a : A) : stream A := fun _ => a.

Definition scons {A} (a : A) (s : stream A) : stream A :=
  fun n => match n with
           | O => a
           | S n' => s n'
           end.

Module Example.

Definition config : Params :=
  {| verbose := false; output_storage := "data"; rhv_cafile := "/ca.pem";
     insecure := false; rhv_direct := false; disk_format := "raw";
     disk_name := "disk0"; disk_size := 1048576; rhv_disk_uuid := None;
     diskid_file := "/tmp/diskid" |}.

Definition url : Url :=
  {| scheme := "https"; hostname := "engine"; port := Some 54322;
     url_path := "/images/ticket" |}.

Definition transfer (p : ImageTransferPhase) : Transfer :=
  {| transfer_id := "t-1"; phase := p; transfer_url := Some url;
     proxy_url := url |}.

Definition disk (s : DiskStatus.t) : Disk :=
  {| disk_id := "d-1"; disk_status := s |}.

Definition response (code : Z) (body : list (list byte)) : Response :=
  {| status := code; reason := "reason";
     content_length := HeaderInt (len (List.concat body));
     segments := body; read_error := None; json_doc := None |}.

Definition an_engine (gets : stream (result Transfer)) : Engine :=
  {| vdsm_id := None; data_centers := inl []; hosts := inl [];
     supports_format := true;
     disk_add := inl (disk DiskStatus.LOCKED);
     disk_get := const (inl (disk DiskStatus.OK));
     transfer_add := inl (transfer INITIALIZING);
     transfer_get := gets;
     transfer_finalize := None;
     transfer_cancel := const None |}.

Definition a_network (answers : stream (result Response)) : Network :=
  {| unix_init := const None; sock_connect := const None;
     wire := const None; responses := answers |}.

Definition connected : Conn :=
  {| transport := HTTPConnection "engine" (Some 54322);
     sock := Some {| sock_timeout := None |} |}.

(** A world with [n] connected connections in the pool and a clock that
    advances by one second per reading. *)
Definition world (gets : stream (result Transfer))
    (answers : stream (result Response)) (n : nat) : World :=
  {| params := config; FLAG_FUA := 2; clock := fun i => Z.of_nat i;
     engine := an_engine gets; network := a_network answers;
     heap := fun _ => connected; next_conn := n; pool := seq 0 n;
     failed := false; files := fun _ => None; trace := [] |}.

Definition handle (flush zero : bool) (n : nat) : Handle :=
  {| h_can_flush := flush; h_can_zero := zero; h_disk_id := "d-1";
     h_transfer := transfer TRANSFERRING; h_connections := n;
     h_path := "/images/ticket" |}.

(** The engine pauses the transfer at the third poll. *)
Definition paused : World :=
  world (scons (inl (transfer INITIALIZING))
           (scons (inl (transfer INITIALIZING))
              (const (inl (transfer PAUSED_SYSTEM)))))
    (const (inr (OSError "unused"))) 0.

(** The engine removes the transfer at the second poll of the
    finalization; the disk is unlocked. *)
Definition removed : World :=
  world (scons (inl (transfer (OtherPhase "FINALIZING_SUCCESS")))
           (const (inr NotFoundError)))
    (const (inr (OSError "unused"))) 0.

(** An open session with two idle connections; the engine reports the
    transfer finished at the first poll. *)
Definition finished : World :=
  world (const (inl (transfer FINISHED_SUCCESS)))
    (const (inl (response 200 []))) 2.

(** A host where nothing listens on the local socket of imageio. *)
Definition no_socket : World :=
  {| params := config; FLAG_FUA := 2; clock := fun i => Z.of_nat i;
     engine := an_engine (const (inl (transfer TRANSFERRING)));
     network :=
       {| unix_init := const None;
          sock_connect := const (Some (OSError "[Errno 2] No such file or directory"));
          wire := const None;
          responses := const (inl (response 206 [])) |};
     heap := fun _ => connected; next_conn := 0; pool := [];
     failed := false; files := fun _ => None; trace := [] |}.

Definition options : Options :=
  {| o_can_flush := true; o_can_zero := true;
     o_unix_socket := Some "/run/ovirt-imageio/sock";
     o_max_readers := 8; o_max_writers := 8 |}.

(** An open session with two idle connections; the server refuses the
    next request. *)
Definition refusing : World :=
  world (const (inl (transfer TRANSFERRING)))
    (const (inl (response 403 []))) 2.


(** An open session with one idle connection; the server answers the
    next request with four bytes, in two segments. *)
Definition serving : World :=
  world (const (inl (transfer TRANSFERRING)))
    (const (inl (response 206 [[x01; x02; x03]; [x04]]))) 1.

Definition options_doc : OptionsDoc :=
  {| features := ["flush"; "zero"]; doc_unix_socket := None;
     doc_max_readers := Some 8; doc_max_writers := Some 8 |}.

(** A world in which [open] succeeds: the disk is unlocked and the
    transfer is ready at the first poll, and the server answers OPTIONS. *)
Definition fresh : World :=
  {| params := config; FLAG_FUA := 2; clock := fun i => Z.of_nat i;
     engine := an_engine (const (inl (transfer TRANSFERRING)));
     network :=
       a_network
         (const (inl {| status := 200; reason := "OK";
                        content_length := HeaderMissing; segments := [];
                        read_error := None; json_doc := Some options_doc |}));
     heap := fun _ => connected; next_conn := 0; pool := [];
     failed := true; files := fun _ => None; trace := [] |}.

End Example.

(** ** Observations on the session setup *)

(** The events of [n] rounds of polling the disk. *)
Definition polled_disk (n : nat) (id : string) : list event :=
  List.concat (repeat [EvSleep 1; EvDiskGet id] n).

(** [create_disk] polls [k] times a disk that is not [OK] yet, with the
    deadline not yet passed. *)
Definition disk_not_ready (k : nat) (w : World) : Prop :=
  forall i, (i < k)%nat ->
    exists d, disk_get (engine w) i = inl d /\
              disk_status d <> DiskStatus.OK /\
              clock w (S i) <= clock w 0%nat + timeout.

(** The value of the local variable [transfer] of [create_transfer] after
    [k] polls that were answered: the last answer, or the transfer as it was
    added when nothing was polled yet. *)
Definition last_seen (k : nat) (added : Transfer) (w : World) : Transfer :=
  match k with
  | O => added
  | S j => match transfer_get (engine w) j with
           | inl t => t
           | inr _ => added
           end
  end.

(** What leaves [create_transfer] when a poll raises [e]. *)
Definition poll_error (e : exn) (seen : Transfer) : exn :=
  if is_NotFoundError e then RuntimeError (TransferRemoved (transfer_id seen))
  else e.


(** A connection object as its constructor leaves it: no socket yet. *)
Definition unconnected (t : Transport) : Conn :=
  {| transport := t; sock := None |}.

(** [count] in [create_http_pool]. *)
Definition pool_count (options : Options) : nat :=
  Z.to_nat (Z.min (Z.min (o_max_readers options) (o_max_writers options))
              MAX_CONNECTIONS).




Definition not_cancel (e : event) : bool := negb (is_cancel e).

(** What the engine calls leave alone: the connection objects, the pool,
    the handle's flag, the configuration and the files. *)
Definition local_state (w : World) :=
  (heap w, next_conn w, pool w, failed w, params w, files w).

(** The [try] block of [open]: what is done between the creation of the
    transfer and the construction of the handle. *)
Definition open_setup (transfer : Transfer) (host : option Host)
    : M (Url * Options) :=
  destination_url <- parse_transfer_url transfer ;;
  http <- create_http destination_url None ;;
  options <- get_options http destination_url ;;
  http_close http ;;
  create_http_pool destination_url host options ;;
  ret (destination_url, options).

(** [len(body)] for the body kept in an error of [request_failed]: bytes
    when the body was read, text when it was not. *)
Definition body_length (body : list byte + string) : nat :=
  match body with
  | inl b => List.length b
  | inr s => String.length s
  end.

(** The text that stands for a body that could not be read. *)
Definition unreadable_body (e : exn) : string :=
  (("(Unable to read response body: " ++ exn_text e) ++ ")")%string.



(** * Properties *)

(** ** Relations preserved by the monad's combinators *)

Section Frames.

Variable R : World -> World -> Prop.
Hypothesis R_refl : forall w, R w w.
Hypothesis R_trans : forall a b c, R a b -> R b c -> R a c.

Lemma preserves_ret A (a : A) : preserves R (ret a).
Proof. intros w. apply R_refl. Qed.

Lemma preserves_raise A (e : exn) : preserves R (@raise A e).
Proof. intros w. apply R_refl. Qed.

Lemma preserves_out_of_fuel A : preserves R (@out_of_fuel A).
Proof. intros w. apply R_refl. Qed.

Lemma preserves_of_result A (r : result A) : preserves R (of_result r).
Proof. intros w. destruct r; apply R_refl. Qed.

Lemma preserves_of_error (r : option exn) : preserves R (of_error r).
Proof. intros w. destruct r; apply R_refl. Qed.

Lemma preserves_bind A B (m : M A) (k : A -> M B) :
  preserves R m -> (forall a, preserves R (k a)) -> preserves R (bind m k).
Proof.
  intros Hm Hk w. unfold bind. specialize (Hm w).
  destruct (m w) as [[a|e| |] w1]; cbn in *; try assumption.
  eapply R_trans; [exact Hm | apply Hk].
Qed.

Lemma preserves_try_except A (m : M A) handles handler :
  preserves R m -> (forall e, preserves R (handler e)) ->
  preserves R (try_except m handles handler).
Proof.
  intros Hm Hh w. unfold try_except. specialize (Hm w).
  destruct (m w) as [[a|e| |] w1]; cbn in *; try assumption.
  destruct (handles e); cbn; [|assumption].
  eapply R_trans; [exact Hm | apply Hh].
Qed.

Lemma preserves_try_except_else A B (m : M A) handles (handler : exn -> M B)
    orelse :
  preserves R m -> (forall e, preserves R (handler e)) ->
  (forall a, preserves R (orelse a)) ->
  preserves R (try_except_else m handles handler orelse).
Proof.
  intros Hm Hh Ho w. unfold try_except_else. specialize (Hm w).
  destruct (m w) as [[a|e| |] w1]; cbn in *; try assumption.
  - eapply R_trans; [exact Hm | apply Ho].
  - destruct (handles e); cbn; [|assumption].
    eapply R_trans; [exact Hm | apply Hh].
Qed.

Lemma preserves_try_finally A (m : M A) cleanup :
  preserves R m -> preserves R cleanup -> preserves R (try_finally m cleanup).
Proof.
  intros Hm Hc w. unfold try_finally. specialize (Hm w).
  destruct (m w) as [[a|e| |] w1]; cbn in *; try assumption.
  - specialize (Hc w1).
    destruct (cleanup w1) as [[u|e| |] w2]; cbn in *; eapply R_trans; eauto.
  - specialize (Hc w1).
    destruct (cleanup w1) as [[u|e'| |] w2]; cbn in *; eapply R_trans; eauto.
Qed.

Lemma preserves_for_each A (l : list A) body :
  (forall a, preserves R (body a)) -> preserves R (for_each l body).
Proof.
  intros Hb. induction l as [|a l IH]; cbn.
  - apply preserves_ret.
  - apply preserves_bind; [apply Hb | intros _; exact IH].
Qed.

End Frames.

Lemma quiet_refl allowed w : quiet allowed w w.
Proof. exists []. now rewrite app_nil_r. Qed.

Lemma quiet_trans allowed a b c :
  quiet allowed a b -> quiet allowed b c -> quiet allowed a c.
Proof.
  intros (n1 & E1 & F1) (n2 & E2 & F2). exists (n1 ++ n2). split.
  - now rewrite E2, E1, app_assoc.
  - now rewrite forallb_app, F1, F2.
Qed.

Lemma quiet_calls allowed kind w w' :
  (forall e, allowed e = true -> kind e = false) ->
  quiet allowed w w' -> calls kind (trace w') = calls kind (trace w).
Proof.
  intros H (new & E & F). rewrite E. unfold calls.
  rewrite filter_app, length_app.
  assert (Z0 : filter kind new = []).
  { clear E. induction new as [|e new IH]; [reflexivity|].
    cbn in F. apply andb_prop in F as (Fe & Fn). cbn.
    rewrite (H e Fe). auto. }
  rewrite Z0. cbn. lia.
Qed.

Lemma quiet_weaken (a b : event -> bool) w w' :
  (forall e, a e = true -> b e = true) -> quiet a w w' -> quiet b w w'.
Proof.
  intros H (new & E & F). exists new. split; [exact E|].
  rewrite forallb_forall in *. auto.
Qed.

Lemma same_refl X (f : World -> X) w : same f w w.
Proof. reflexivity. Qed.

Lemma same_trans X (f : World -> X) a b c : same f a b -> same f b c -> same f a c.
Proof. unfold same. congruence. Qed.

Lemma sticky_refl w : sticky w w.
Proof. intros H. exact H. Qed.

Lemma sticky_trans a b c : sticky a b -> sticky b c -> sticky a c.
Proof. unfold sticky. auto. Qed.

Lemma only_refl allowed w : only allowed w w.
Proof. split; [apply quiet_refl | repeat split]. Qed.

Lemma only_trans allowed a b c :
  only allowed a b -> only allowed b c -> only allowed a c.
Proof.
  intros (Q1 & A1 & B1 & C1 & D1 & E1) (Q2 & A2 & B2 & C2 & D2 & E2).
  split; [eapply quiet_trans; eauto | repeat split; congruence].
Qed.

Lemma pooled_refl allowed w : pooled allowed w w.
Proof. split; [apply quiet_refl | repeat split]. Qed.

Lemma pooled_trans allowed a b c :
  pooled allowed a b -> pooled allowed b c -> pooled allowed a c.
Proof.
  intros (Q1 & A1 & B1 & C1 & D1) (Q2 & A2 & B2 & C2 & D2).
  split; [eapply quiet_trans; eauto | repeat split; congruence].
Qed.

(** The relations are preorders. *)
Ltac preorder :=
  first [ exact (quiet_refl _) | exact (quiet_trans _)
        | exact (only_refl _) | exact (only_trans _)
        | exact (pooled_refl _) | exact (pooled_trans _)
        | exact (@same_refl _ _) | exact (@same_trans _ _)
        | exact sticky_refl | exact sticky_trans ].

(** A primitive step: unfold it, follow the oracle's answers, and compare
    the two worlds. *)
Ltac primitive :=
  let w := fresh "w" in
  intros w;
  unfold cancel_transfer, http_request, http_putrequest, http_putheader,
    http_endheaders, http_send, http_getresponse, http_close, response_read,
    sock_send, connect, UnixHTTPConnection_init, UnixHTTPConnection_connect,
    socket_connect, new_conn, set_sock,
    time_sleep, time_time, disks_service_add, disk_service_get,
    transfers_service_add, transfer_service_get, transfer_service_cancel,
    transfer_service_finalize, connection_close, transfer_supports_format,
    get_params, pool_get, pool_put,
    write_failed, read_failed, write_file, flag_fua, int, pool_qsize,
    find_host, bind, log, of_result, of_error, ret, raise, blocks, shd;
  cbn;
  repeat (match goal with
          | |- context [match ?x with _ => _ end] =>
              lazymatch x with
              | context [match _ with _ => _ end] => fail
              | _ => destruct x eqn:?; cbn
              end
          end);
  unfold only, pooled, quiet, same, sticky; cbn;
  rewrite <- ?app_assoc; cbn;
  repeat match goal with
         | |- _ /\ _ => split
         end;
  first [ reflexivity
        | assumption
        | intros; assumption
        | intros; reflexivity
        | eexists; split; [reflexivity | reflexivity]
        | exists []; split; [now rewrite app_nil_r | reflexivity] ].

(** Structural steps through the combinators. *)
Ltac frame_step :=
  first
    [ apply preserves_ret; preorder
    | apply preserves_raise; preorder
    | apply preserves_out_of_fuel; preorder
    | apply preserves_of_result; preorder
    | apply preserves_of_error; preorder
    | apply preserves_bind; [ preorder .. | | intros ]
    | apply preserves_try_except; [ preorder .. | | intros ]
    | apply preserves_try_except_else; [ preorder .. | | intros | intros ]
    | apply preserves_try_finally; [ preorder .. | | ]
    | apply preserves_for_each; [ preorder .. | intros ]
    | match goal with
      | |- preserves _ (if ?b then _ else _) => destruct b
      | |- preserves _ (match ?x with _ => _ end) => destruct x
      | |- preserves _ (let _ := _ in _) => cbv zeta
      end ].

Ltac frames := repeat frame_step; try solve [primitive].

(** ** Calls that come back *)

Lemma terminates_ret A (a : A) : terminates (ret a).
Proof. intros w. exact I. Qed.

Lemma terminates_raise A (e : exn) : terminates (@raise A e).
Proof. intros w. exact I. Qed.

Lemma terminates_of_result A (r : result A) : terminates (of_result r).
Proof. intros w. destruct r; exact I. Qed.

Lemma terminates_of_error (r : option exn) : terminates (of_error r).
Proof. intros w. destruct r; exact I. Qed.

Lemma terminates_bind A B (m : M A) (k : A -> M B) :
  terminates m -> (forall a, terminates (k a)) -> terminates (bind m k).
Proof.
  intros Hm Hk w. unfold bind. specialize (Hm w).
  destruct (m w) as [[a|e| |] w1]; cbn in *; try assumption. apply Hk.
Qed.

Lemma terminates_try_except A (m : M A) handles handler :
  terminates m -> (forall e, terminates (handler e)) ->
  terminates (try_except m handles handler).
Proof.
  intros Hm Hh w. unfold try_except. specialize (Hm w).
  destruct (m w) as [[a|e| |] w1]; cbn in *; try assumption.
  destruct (handles e); [apply Hh | exact I].
Qed.

Lemma terminates_try_except_else A B (m : M A) handles (handler : exn -> M B)
    orelse :
  terminates m -> (forall e, terminates (handler e)) ->
  (forall a, terminates (orelse a)) ->
  terminates (try_except_else m handles handler orelse).
Proof.
  intros Hm Hh Ho w. unfold try_except_else. specialize (Hm w).
  destruct (m w) as [[a|e| |] w1]; cbn in *; try assumption.
  - apply Ho.
  - destruct (handles e); [apply Hh | exact I].
Qed.

Lemma terminates_try_finally A (m : M A) cleanup :
  terminates m -> terminates cleanup -> terminates (try_finally m cleanup).
Proof.
  intros Hm Hc w. unfold try_finally. specialize (Hm w).
  destruct (m w) as [[a|e| |] w1]; cbn in *; try contradiction.
  - specialize (Hc w1). destruct (cleanup w1) as [[u|e| |] w2]; cbn in *; auto.
  - specialize (Hc w1). destruct (cleanup w1) as [[u|e'| |] w2]; cbn in *; auto.
Qed.

Lemma terminates_for_each A (l : list A) body :
  (forall a, terminates (body a)) -> terminates (for_each l body).
Proof.
  intros Hb. induction l as [|a l IH]; cbn.
  - apply terminates_ret.
  - apply terminates_bind; [apply Hb | intros _; exact IH].
Qed.

(** A primitive that neither waits nor loops. *)
Ltac comes_back :=
  let w := fresh "w" in
  intros w;
  unfold cancel_transfer, http_request, http_putrequest, http_putheader,
    http_endheaders, http_send, http_getresponse, http_close, response_read,
    sock_send, connect, UnixHTTPConnection_init, UnixHTTPConnection_connect,
    socket_connect, new_conn, set_sock,
    time_sleep, time_time, disks_service_add, disk_service_get,
    transfers_service_add, transfer_service_get, transfer_service_cancel,
    transfer_service_finalize, connection_close, transfer_supports_format,
    get_params, pool_put,
    write_failed, read_failed, write_file, flag_fua, int, pool_qsize,
    find_host, bind, log, of_result, of_error, ret, raise, shd;
  cbn;
  repeat (match goal with
          | |- context [match ?x with _ => _ end] =>
              lazymatch x with
              | context [match _ with _ => _ end] => fail
              | _ => destruct x eqn:?; cbn
              end
          end);
  exact I.

Ltac terminate_step :=
  first
    [ apply terminates_ret
    | apply terminates_raise
    | apply terminates_of_result
    | apply terminates_of_error
    | apply terminates_bind; [ | intros ]
    | apply terminates_try_except; [ | intros ]
    | apply terminates_try_except_else; [ | intros | intros ]
    | apply terminates_try_finally
    | apply terminates_for_each; intros
    | match goal with
      | |- terminates (if ?b then _ else _) => destruct b
      | |- terminates (match ?x with _ => _ end) => destruct x
      | |- terminates (let _ := _ in _) => cbv zeta
      end ].

Ltac terminating := repeat terminate_step; try solve [comes_back].

(** ** Reading a returned call backwards *)

Lemma bind_returns A B (m : M A) (k : A -> M B) w b w' :
  bind m k w = (Returns b, w') ->
  exists a w1, m w = (Returns a, w1) /\ k a w1 = (Returns b, w').
Proof.
  unfold bind. destruct (m w) as [[a|e| |] w1]; try discriminate. eauto.
Qed.

Lemma try_finally_returns A (m : M A) cleanup w a w' :
  try_finally m cleanup w = (Returns a, w') ->
  exists w1, m w = (Returns a, w1) /\ cleanup w1 = (Returns tt, w').
Proof.
  unfold try_finally. destruct (m w) as [[a1|e| |] w1]; try discriminate.
  - destruct (cleanup w1) as [[[]|e| |] w2] eqn:Hc; try discriminate.
    intros H. injection H as <- <-. eauto.
  - destruct (cleanup w1) as [[u|e'| |] w2]; discriminate.
Qed.

Lemma try_except_returns A (m : M A) handles handler w a w' :
  try_except m handles handler w = (Returns a, w') ->
  m w = (Returns a, w') \/
  exists e w1, m w = (Raises e, w1) /\ handles e = true /\
               handler e w1 = (Returns a, w').
Proof.
  unfold try_except. destruct (m w) as [[a1|e| |] w1]; try discriminate.
  - auto.
  - destruct (handles e) eqn:He; [|discriminate]. right. eauto.
Qed.

Lemma failing_unfold A (m : M A) w :
  failing m w
  = match m w with
    | (Raises e, w') =>
        (Raises e, set_failed (set_trace w' (trace w' ++ [EvFailedWrite true])) true)
    | r => r
    end.
Proof.
  unfold failing, try_except, write_failed, bind, log, raise.
  destruct (m w) as [[a|e| |] w1]; reflexivity.
Qed.

Lemma failing_returns A (m : M A) w a w' :
  failing m w = (Returns a, w') -> m w = (Returns a, w').
Proof.
  rewrite failing_unfold. destruct (m w) as [[a1|e| |] w1]; try discriminate.
  auto.
Qed.

(** The decorator: an exception sets [h['failed']]. *)
Lemma failing_raises A (m : M A) w e :
  fst (failing m w) = Raises e -> failed (snd (failing m w)) = true.
Proof.
  rewrite failing_unfold. destruct (m w) as [[a1|e1| |] w1]; try discriminate.
  reflexivity.
Qed.

Lemma http_context_unfold A (body : nat -> M A) w c rest :
  pool w = c :: rest ->
  http_context body w
  = try_finally (body c) (pool_put c)
      (set_trace (set_pool w rest) (trace w ++ [EvPoolGet c])).
Proof.
  intros Hp. unfold http_context, bind, pool_get. now rewrite Hp.
Qed.

Lemma request_failed_raises A c r msg w :
  exists e, fst (@request_failed A c r msg w) = Raises e /\
    (body_readable r ->
     exists body,
       e = RuntimeError (RequestFailed msg (status r) (reason r) body)).
Proof.
  unfold request_failed, body_readable, try_except, response_read, bind, log,
    raise, ret. cbn.
  destruct (read_error r) as [e|]; cbn.
  - destruct (is_EnvironmentError e) eqn:He; cbn.
    + eexists. split; [reflexivity|]. eauto.
    + eexists. split; [reflexivity|]. discriminate.
  - eexists. split; [reflexivity|]. eauto.
Qed.

Lemma request_failed_never_returns A c r msg w a w' :
  @request_failed A c r msg w <> (Returns a, w').
Proof.
  intros H. destruct (request_failed_raises A c r msg w) as (e & He & _).
  rewrite H in He. discriminate.
Qed.



(** ** Transfer initialization *)

Lemma polled_S n id :
  polled (S n) id = [EvSleep 1; EvTransferGet id] ++ polled n id.
Proof. reflexivity. Qed.

Lemma calls_app kind t u : calls kind (t ++ u) = (calls kind t + calls kind u)%nat.
Proof. unfold calls. now rewrite filter_app, length_app. Qed.

Lemma calls_polled kind n id :
  kind (EvSleep 1) = false -> kind (EvTransferGet id) = false ->
  calls kind (polled n id) = 0%nat.
Proof.
  intros Hs Hg. induction n as [|n IH]; [reflexivity|].
  rewrite polled_S, calls_app, IH. unfold calls. cbn. now rewrite Hs, Hg.
Qed.

(** One round of the loop of [create_transfer] that sees [INITIALIZING]
    before the deadline. *)
Lemma create_transfer_wait_again fuel id endt tr t w :
  transfer_get (engine w) 0%nat = inl t ->
  phase t = INITIALIZING ->
  clock w 0%nat <= endt ->
  exists w',
    create_transfer_wait (S fuel) id endt tr w
    = create_transfer_wait fuel id endt t w' /\
    trace w' = trace w ++ [EvSleep 1; EvTransferGet id] /\
    (forall n, transfer_get (engine w') n = transfer_get (engine w) (S n)) /\
    (forall n, clock w' n = clock w (S n)) /\
    transfer_cancel (engine w') = transfer_cancel (engine w).
Proof.
  intros Hg Hp Hc.
  eexists. split.
  - cbn [create_transfer_wait].
    unfold bind at 1. unfold time_sleep, log.
    unfold bind at 1.
    unfold try_except, transfer_service_get, bind, log, of_result, shd.
    cbn. rewrite Hg. cbn. rewrite Hp. cbn.
    unfold time_time, shd. cbn.
    destruct (Z.gtb_spec (clock w 0%nat) endt); [lia|].
    reflexivity.
  - cbn. rewrite <- app_assoc. repeat split; reflexivity.
Qed.

Lemma create_transfer_wait_skip k : forall fuel id endt tr w,
  (forall i, (i < k)%nat ->
     exists t, transfer_get (engine w) i = inl t /\
               phase t = INITIALIZING /\ clock w i <= endt) ->
  exists tr' w',
    create_transfer_wait (k + fuel) id endt tr w
    = create_transfer_wait fuel id endt tr' w' /\
    trace w' = trace w ++ polled k id /\
    (forall n, transfer_get (engine w') n = transfer_get (engine w) (n + k)%nat) /\
    (forall n, clock w' n = clock w (n + k)%nat) /\
    transfer_cancel (engine w') = transfer_cancel (engine w).
Proof.
  induction k as [|k IH]; intros fuel id endt tr w H.
  - exists tr, w. cbn. rewrite app_nil_r.
    repeat split; intros; now rewrite ?Nat.add_0_r.
  - destruct (H 0%nat ltac:(lia)) as (t & Hg & Hp & Hc).
    destruct (create_transfer_wait_again (k + fuel) id endt tr t w Hg Hp Hc)
      as (w1 & E1 & T1 & G1 & C1 & X1).
    destruct (IH fuel id endt t w1) as (tr' & w' & E & T & G & C & X).
    { intros i Hi. destruct (H (S i) ltac:(lia)) as (ti & ? & ? & ?).
      exists ti. rewrite G1, C1. auto. }
    exists tr', w'. split; [|split; [|split; [|split]]].
    + cbn [Nat.add]. now rewrite E1.
    + rewrite T, T1, polled_S, <- app_assoc. reflexivity.
    + intros n. now rewrite G, G1, Nat.add_succ_r.
    + intros n. now rewrite C, C1, Nat.add_succ_r.
    + now rewrite X, X1.
Qed.

(** Closes a goal about a block that ends in [cancel(); raise]. *)
Ltac cancel_and_raise w :=
  unfold transfer_service_cancel, bind, log, of_error, raise, shd; cbn;
  destruct (transfer_cancel (engine w) 0%nat); cbn;
  rewrite <- ?app_assoc; split; reflexivity.

(** The round of the loop of [create_transfer] that decides. *)
Lemma create_transfer_wait_decides fuel id endt tr t w :
  transfer_get (engine w) 0%nat = inl t ->
  let r := create_transfer_wait (S fuel) id endt tr w in
  let seen := trace w ++ [EvSleep 1; EvTransferGet id] in
  let answer := transfer_cancel (engine w) 0%nat in
  (phase t = TRANSFERRING ->
     fst r = Returns t /\ trace (snd r) = seen) /\
  (phase t = FINISHED_FAILURE ->
     fst r = Raises (RuntimeError (TransferFailed (transfer_id t))) /\
     trace (snd r) = seen) /\
  (phase t = PAUSED_SYSTEM ->
     fst r = Raises (after_cancel answer
                       (RuntimeError (TransferPaused (transfer_id t)))) /\
     trace (snd r) = seen ++ [EvTransferCancel id]) /\
  (phase t <> INITIALIZING -> phase t <> TRANSFERRING ->
   phase t <> FINISHED_FAILURE -> phase t <> PAUSED_SYSTEM ->
     fst r = Raises (after_cancel answer
                       (RuntimeError (UnexpectedPhase (transfer_id t) (phase t)))) /\
     trace (snd r) = seen ++ [EvTransferCancel id]) /\
  (phase t = INITIALIZING -> clock w 0%nat > endt ->
     fst r = Raises (after_cancel answer
                       (RuntimeError (TransferTimedOut (transfer_id t)))) /\
     trace (snd r) = seen ++ [EvTransferCancel id]).
Proof.
  intros Hg r seen answer. subst r seen answer.
  cbn [create_transfer_wait].
  unfold bind at 1. unfold time_sleep, log.
  unfold bind at 1.
  unfold try_except, transfer_service_get, bind, log, of_result, shd.
  cbn. rewrite Hg. cbn.
  split; [|split; [|split; [|split]]].
  - intros Hp. rewrite Hp. cbn. rewrite <- app_assoc. split; reflexivity.
  - intros Hp. rewrite Hp. cbn. rewrite <- app_assoc. split; reflexivity.
  - intros Hp. rewrite Hp. cbn [phase_eqb negb]. cancel_and_raise w.
  - intros H1 H2 H3 H4.
    assert (Hb : phase_eqb (phase t) FINISHED_FAILURE = false /\
                 phase_eqb (phase t) PAUSED_SYSTEM = false /\
                 phase_eqb (phase t) TRANSFERRING = false /\
                 phase_eqb (phase t) INITIALIZING = false)
      by (destruct (phase t); try congruence; repeat split; reflexivity).
    destruct Hb as (B1 & B2 & B3 & B4). rewrite B1, B2, B3, B4.
    cbn [negb]. cancel_and_raise w.
  - intros Hp Hc. rewrite Hp. cbn [phase_eqb negb].
    unfold time_time, shd. cbn.
    destruct (Z.gtb_spec (clock w 0%nat) endt); [|lia].
    cancel_and_raise w.
Qed.

(** C1. While [create_transfer] waits for the transfer, whatever the number
    [k] of earlier polls that saw [INITIALIZING] in time, the phase [phase t]
    seen next decides: [TRANSFERRING] ends the wait and returns that
    transfer; [FINISHED_FAILURE] raises with no cancel call;
    [PAUSED_SYSTEM], and every phase other than [INITIALIZING],
    [TRANSFERRING] and [FINISHED_FAILURE], is answered by one cancel call,
    the last call made, and then an error is raised; [INITIALIZING] after
    the deadline is answered by one cancel call and then the time-out error
    is raised.  The polls themselves contain no cancel call. *)
Theorem create_transfer_phase_rules :
  forall (fuel k : nat) (disk : Disk) (host : option Host) (w : World)
         (t0 t : Transfer),
    (k < fuel)%nat ->
    transfer_add (engine w) = inl t0 ->
    initializing k w ->
    transfer_get (engine w) k = inl t ->
    let id := transfer_id t0 in
    let r := create_transfer fuel disk host w in
    let fmt := if supports_format (engine w) then Some DiskFormat.RAW else None in
    let seen := trace w ++ [EvTransferAdd (disk_id disk) host fmt]
                  ++ polled (S k) id in
    let answer := transfer_cancel (engine w) 0%nat in
    calls is_cancel seen = calls is_cancel (trace w) /\
    (phase t = TRANSFERRING ->
       fst r = Returns t /\ trace (snd r) = seen) /\
    (phase t = FINISHED_FAILURE ->
       fst r = Raises (RuntimeError (TransferFailed (transfer_id t))) /\
       trace (snd r) = seen) /\
    (phase t = PAUSED_SYSTEM \/
     (phase t <> INITIALIZING /\ phase t <> TRANSFERRING /\
      phase t <> FINISHED_FAILURE) ->
       (exists m, fst r = Raises (after_cancel answer (RuntimeError m))) /\
       trace (snd r) = seen ++ [EvTransferCancel id] /\
       calls is_cancel (trace (snd r)) = S (calls is_cancel (trace w))) /\
    (phase t = INITIALIZING ->
     clock w (S k) > clock w 0%nat + timeout ->
       fst r = Raises (after_cancel answer
                         (RuntimeError (TransferTimedOut (transfer_id t)))) /\
       trace (snd r) = seen ++ [EvTransferCancel id] /\
       calls is_cancel (trace (snd r)) = S (calls is_cancel (trace w))).
Proof.
  intros fuel k disk host w t0 t Hk Ha Hi Hg id r fmt seen answer.
  assert (Hseen : calls is_cancel seen = calls is_cancel (trace w)).
  { subst seen. rewrite !calls_app, calls_polled by reflexivity.
    unfold calls. cbn. lia. }
  assert (Hone : calls is_cancel (seen ++ [EvTransferCancel id])
                 = S (calls is_cancel (trace w))).
  { rewrite calls_app, Hseen. unfold calls. cbn. lia. }
  (* the calls before the loop *)
  set (w0 := set_clock (set_trace w (trace w ++ [EvTransferAdd (disk_id disk) host fmt]))
               (stl (clock w))).
  assert (E0 : r = create_transfer_wait fuel id (clock w 0%nat + timeout) t0 w0).
  { subst r. unfold create_transfer, bind, transfer_supports_format,
      transfers_service_add, bind, log, of_result, time_time, shd. cbn.
    rewrite Ha. reflexivity. }
  (* the [k] polls that see INITIALIZING *)
  destruct (create_transfer_wait_skip k (fuel - k) id (clock w 0%nat + timeout) t0 w0)
    as (tr' & w' & E & T & G & C & X).
  { intros i Hlt. destruct (Hi i Hlt) as (ti & ? & ? & ?). exists ti. auto. }
  replace (k + (fuel - k))%nat with fuel in E by lia.
  destruct (fuel - k)%nat as [|fuel'] eqn:Hf; [lia|].
  assert (Hg' : transfer_get (engine w') 0%nat = inl t) by (rewrite G; exact Hg).
  destruct (create_transfer_wait_decides fuel' id (clock w 0%nat + timeout) tr' t w' Hg')
    as (D1 & D2 & D3 & D4 & D5).
  assert (Ts : trace w' ++ [EvSleep 1; EvTransferGet id] = seen).
  { subst seen. rewrite T. cbn [trace w0 set_clock set_trace].
    replace (S k) with (k + 1)%nat by lia.
    unfold polled. rewrite repeat_app, concat_app. cbn.
    now rewrite <- !app_assoc. }
  assert (Xa : transfer_cancel (engine w') 0%nat = answer) by now rewrite X.
  rewrite Ts, Xa, <- E, <- E0 in *.
  split; [exact Hseen|].
  split; [exact D1|].
  split; [exact D2|].
  split.
  - intros [Hp | (H1 & H2 & H3)].
    + destruct (D3 Hp) as (R & Tr). rewrite Tr. eauto.
    + destruct (phase_eqb (phase t) PAUSED_SYSTEM) eqn:Hps.
      * assert (Hp : phase t = PAUSED_SYSTEM)
          by (destruct (phase t); try discriminate; reflexivity).
        destruct (D3 Hp) as (R & Tr). rewrite Tr. eauto.
      * assert (Hp : phase t <> PAUSED_SYSTEM)
          by (intros Hp; rewrite Hp in Hps; discriminate).
        destruct (D4 H1 H2 H3 Hp) as (R & Tr). rewrite Tr. eauto.
  - intros Hp Hc.
    assert (Hc' : clock w' 0%nat > clock w 0%nat + timeout).
    { rewrite C. cbn. exact Hc. }
    destruct (D5 Hp Hc') as (R & Tr). rewrite Tr. auto.
Qed.

Lemma create_transfer_phase_rules_witness :
  (exists m, fst (create_transfer 5 (Example.disk DiskStatus.OK) None Example.paused)
             = Raises (RuntimeError m)) /\
  calls is_cancel
    (trace (snd (create_transfer 5 (Example.disk DiskStatus.OK) None Example.paused)))
  = 1%nat.
Proof.
  destruct (create_transfer_phase_rules 5 2 (Example.disk DiskStatus.OK) None
              Example.paused (Example.transfer INITIALIZING)
              (Example.transfer PAUSED_SYSTEM)) as (_ & _ & _ & H & _).
  - lia.
  - reflexivity.
  - intros i Hi. exists (Example.transfer INITIALIZING).
    destruct i as [|[|i]]; [| |lia]; repeat split; vm_compute; discriminate.
  - reflexivity.
  - destruct H as (Hm & _ & Hc).
    + left. reflexivity.
    + split; [exact Hm | exact Hc].
Defined.

(** ** Finalization *)

(** One round of the loop of [finalize_transfer] that sees the transfer in
    no final phase, before the deadline. *)
Lemma finalize_transfer_wait_again fuel id start tr disk t w :
  transfer_get (engine w) 0%nat = inl t ->
  phase t <> FINISHED_SUCCESS ->
  phase t <> FINISHED_FAILURE ->
  phase t <> PAUSED_SYSTEM ->
  clock w 0%nat <= start + timeout ->
  exists w',
    finalize_transfer_wait (S fuel) id start tr disk w
    = finalize_transfer_wait fuel id start t disk w' /\
    trace w' = trace w ++ [EvSleep 1; EvTransferGet id] /\
    (forall n, transfer_get (engine w') n = transfer_get (engine w) (S n)) /\
    (forall n, clock w' n = clock w (S n)) /\
    disk_get (engine w') = disk_get (engine w).
Proof.
  intros Hg H1 H2 H3 Hc.
  eexists. split.
  - cbn [finalize_transfer_wait].
    unfold bind at 1. unfold time_sleep, log.
    unfold try_except_else, transfer_service_get, bind, log, of_result, shd.
    cbn. rewrite Hg. cbn.
    assert (Hb : phase_eqb (phase t) FINISHED_SUCCESS = false /\
                 phase_eqb (phase t) FINISHED_FAILURE = false /\
                 phase_eqb (phase t) PAUSED_SYSTEM = false)
      by (destruct (phase t); try congruence; repeat split; reflexivity).
    destruct Hb as (B1 & B2 & B3). rewrite B1, B2, B3.
    unfold time_time, shd. cbn.
    destruct (Z.gtb_spec (clock w 0%nat) (start + timeout)); [lia|].
    reflexivity.
  - cbn. rewrite <- app_assoc. repeat split; reflexivity.
Qed.

Lemma finalize_transfer_wait_skip k : forall fuel id start tr disk w,
  (forall i, (i < k)%nat ->
     exists t, transfer_get (engine w) i = inl t /\
               phase t <> FINISHED_SUCCESS /\ phase t <> FINISHED_FAILURE /\
               phase t <> PAUSED_SYSTEM /\ clock w i <= start + timeout) ->
  exists tr' w',
    finalize_transfer_wait (k + fuel) id start tr disk w
    = finalize_transfer_wait fuel id start tr' disk w' /\
    trace w' = trace w ++ polled k id /\
    (forall n, transfer_get (engine w') n = transfer_get (engine w) (n + k)%nat) /\
    (forall n, clock w' n = clock w (n + k)%nat) /\
    disk_get (engine w') = disk_get (engine w).
Proof.
  induction k as [|k IH]; intros fuel id start tr disk w H.
  - exists tr, w. cbn. rewrite app_nil_r.
    repeat split; intros; now rewrite ?Nat.add_0_r.
  - destruct (H 0%nat ltac:(lia)) as (t & Hg & H1 & H2 & H3 & Hc).
    destruct (finalize_transfer_wait_again (k + fuel) id start tr disk t w
                Hg H1 H2 H3 Hc) as (w1 & E1 & T1 & G1 & C1 & X1).
    destruct (IH fuel id start t disk w1) as (tr' & w' & E & T & G & C & X).
    { intros i Hi. destruct (H (S i) ltac:(lia)) as (ti & ? & ? & ? & ? & ?).
      exists ti. rewrite G1, C1. auto. }
    exists tr', w'. split; [|split; [|split; [|split]]].
    + cbn [Nat.add]. now rewrite E1.
    + rewrite T, T1, polled_S, <- app_assoc. reflexivity.
    + intros n. now rewrite G, G1, Nat.add_succ_r.
    + intros n. now rewrite C, C1, Nat.add_succ_r.
    + now rewrite X, X1.
Qed.

(** The round of the loop of [finalize_transfer] that finds the transfer
    removed: the answer to one [disk_service.get()] decides. *)
Lemma finalize_transfer_wait_removed fuel id start tr disk w :
  transfer_get (engine w) 0%nat = inr NotFoundError ->
  let r := finalize_transfer_wait (S fuel) id start tr disk w in
  trace (snd r) = trace w ++ [EvSleep 1; EvTransferGet id; EvDiskGet disk] /\
  clock (snd r) = clock w /\
  fst r = match disk_get (engine w) 0%nat with
          | inl d =>
              if status_eqb (disk_status d) DiskStatus.OK then Returns tt
              else Raises (RuntimeError (DiskIs (transfer_id tr) (disk_status d)))
          | inr NotFoundError =>
              Raises (RuntimeError (DiskRemoved (transfer_id tr) disk))
          | inr e => Raises e
          end.
Proof.
  intros Hg r. subst r.
  cbn [finalize_transfer_wait].
  unfold bind at 1. unfold time_sleep, log.
  unfold try_except_else, transfer_service_get, bind, log, of_result, shd.
  cbn. rewrite Hg. cbn.
  unfold try_except, disk_service_get, bind, log, of_result, shd. cbn.
  destruct (disk_get (engine w) 0%nat) as [d|e]; cbn.
  - destruct (status_eqb (disk_status d) DiskStatus.OK); cbn;
      rewrite <- !app_assoc; repeat split; reflexivity.
  - destruct e; cbn; rewrite <- !app_assoc; repeat split; reflexivity.
Qed.

Lemma status_eqb_OK s : status_eqb s DiskStatus.OK = true <-> s = DiskStatus.OK.
Proof. destruct s; cbn; split; congruence. Qed.

(** C2. When the poll of [finalize_transfer] finds the transfer removed,
    after any number [k] of polls that found it unfinished, the disk is
    fetched by its identifier once, as the last call made: nothing is
    polled again.  A disk that is not found raises an error, a disk whose
    status is [OK] makes the function return, and any other status raises
    an error that carries this status. *)
Theorem finalize_transfer_removed :
  forall (fuel k : nat) (transfer : Transfer) (disk : string) (w : World),
    (k < fuel)%nat ->
    transfer_finalize (engine w) = None ->
    finalizing k w ->
    transfer_get (engine w) k = inr NotFoundError ->
    let id := transfer_id transfer in
    let r := finalize_transfer fuel transfer disk w in
    trace (snd r)
    = trace w ++ [EvTransferFinalize id] ++ polled (S k) id ++ [EvDiskGet disk] /\
    calls is_disk_get (trace (snd r)) = S (calls is_disk_get (trace w)) /\
    (disk_get (engine w) 0%nat = inr NotFoundError ->
       exists tid, fst r = Raises (RuntimeError (DiskRemoved tid disk))) /\
    (forall d, disk_get (engine w) 0%nat = inl d ->
       disk_status d = DiskStatus.OK -> fst r = Returns tt) /\
    (forall d, disk_get (engine w) 0%nat = inl d ->
       disk_status d <> DiskStatus.OK ->
       exists tid, fst r = Raises (RuntimeError (DiskIs tid (disk_status d)))).
Proof.
  intros fuel k transfer disk w Hk Hf Hi Hg id r.
  set (w0 := set_trace (set_clock w (stl (clock w)))
               (trace w ++ [EvTransferFinalize id])).
  set (start := clock w 0%nat).
  assert (E0 : r = (finalize_transfer_wait fuel id start transfer disk ;;
                    now <- time_time ;; ret tt) w0).
  { subst r. unfold finalize_transfer. unfold bind at 1.
    unfold time_time at 1. cbn [shd]. unfold bind at 1.
    unfold transfer_service_finalize, bind, log, of_error. cbn.
    rewrite Hf. reflexivity. }
  destruct (finalize_transfer_wait_skip k (fuel - k) id start transfer disk w0)
    as (tr' & w' & E & T & G & C & X).
  { intros i Hlt. destruct (Hi i Hlt) as (ti & ? & ? & ? & ? & ?).
    exists ti. auto. }
  replace (k + (fuel - k))%nat with fuel in E by lia.
  destruct (fuel - k)%nat as [|fuel'] eqn:Hfuel; [lia|].
  assert (Hg' : transfer_get (engine w') 0%nat = inr NotFoundError)
    by (rewrite G; exact Hg).
  destruct (finalize_transfer_wait_removed fuel' id start tr' disk w' Hg')
    as (Tr & _ & R).
  rewrite X in R. change (disk_get (engine w0)) with (disk_get (engine w)) in R.
  rewrite <- E in Tr, R.
  assert (Ts : trace (snd r)
               = trace w ++ [EvTransferFinalize id] ++ polled (S k) id
                   ++ [EvDiskGet disk]).
  { assert (Tq : trace (snd r)
                 = trace (snd (finalize_transfer_wait fuel id start transfer disk w0))).
    { rewrite E0. unfold bind, time_time, ret.
      destruct (finalize_transfer_wait fuel id start transfer disk w0) as [[u| | |] w1];
        reflexivity. }
    rewrite Tq, Tr, T. cbn [trace w0 set_clock set_trace].
    replace (S k) with (k + 1)%nat by lia.
    unfold polled. rewrite repeat_app, concat_app. cbn.
    now rewrite <- !app_assoc. }
  assert (Fr : fst r = fst (finalize_transfer_wait fuel id start transfer disk w0)).
  { rewrite E0. unfold bind, time_time, ret.
    destruct (finalize_transfer_wait fuel id start transfer disk w0) as [[u| | |] w1];
      try reflexivity. destruct u. reflexivity. }
  split; [exact Ts|]. split.
  { rewrite Ts, !calls_app, calls_polled by reflexivity. unfold calls. cbn. lia. }
  rewrite Fr, R.
  split; [|split].
  - intros Hd. rewrite Hd. eauto.
  - intros d Hd Hs. rewrite Hd.
    apply status_eqb_OK in Hs. now rewrite Hs.
  - intros d Hd Hs. rewrite Hd.
    destruct (status_eqb (disk_status d) DiskStatus.OK) eqn:Hb.
    + apply status_eqb_OK in Hb. contradiction.
    + eauto.
Qed.

Lemma finalize_transfer_removed_witness :
  fst (finalize_transfer 5 (Example.transfer TRANSFERRING) "d-1" Example.removed)
  = Returns tt /\
  calls is_disk_get
    (trace (snd (finalize_transfer 5 (Example.transfer TRANSFERRING) "d-1"
                   Example.removed)))
  = 1%nat.
Proof.
  destruct (finalize_transfer_removed 5 1 (Example.transfer TRANSFERRING) "d-1"
              Example.removed) as (_ & Hc & _ & Hok & _).
  - lia.
  - reflexivity.
  - intros i Hi. exists (Example.transfer (OtherPhase "FINALIZING_SUCCESS")).
    destruct i as [|i]; [|lia]. repeat split; vm_compute; discriminate.
  - reflexivity.
  - split; [|exact Hc].
    apply (Hok (Example.disk DiskStatus.OK)); reflexivity.
Defined.

(** ** Closing the session *)


Lemma preserves_weaken (R R' : World -> World -> Prop) A (m : M A) :
  (forall w w', R w w' -> R' w w') -> preserves R m -> preserves R' m.
Proof. intros H Hm w. apply H, Hm. Qed.

Lemma finalize_transfer_wait_only fuel : forall id start tr disk,
  preserves (only is_poll_call) (finalize_transfer_wait fuel id start tr disk).
Proof.
  induction fuel as [|fuel IH]; intros id start tr disk;
    cbn [finalize_transfer_wait]; frames.
  apply IH.
Qed.


(** Taking [n] connections out of a pool that holds at least [n]. *)
Lemma lock_pool_takes n : forall locked w,
  (n <= List.length (pool w))%nat ->
  lock_pool n locked w
  = (Returns (locked ++ firstn n (pool w)),
     set_trace (set_pool w (skipn n (pool w)))
       (trace w ++ map EvPoolGet (firstn n (pool w)))).
Proof.
  induction n as [|n IH]; intros locked w Hn.
  - cbn. rewrite !app_nil_r. destruct w; reflexivity.
  - cbn [lock_pool]. unfold bind, pool_get.
    destruct (pool w) as [|c rest] eqn:Hp; [cbn in Hn; lia|].
    rewrite IH by (cbn in *; lia).
    cbn. rewrite <- !app_assoc. reflexivity.
Qed.

(** A pool that holds fewer than [n] connections cannot be drained. *)
Lemma lock_pool_blocks n : forall locked w,
  (List.length (pool w) < n)%nat ->
  fst (lock_pool n locked w) = Blocks.
Proof.
  induction n as [|n IH]; intros locked w Hn; [lia|].
  cbn [lock_pool]. unfold bind, pool_get.
  destruct (pool w) as [|c rest] eqn:Hp; [reflexivity|].
  apply IH. cbn in *. lia.
Qed.

Lemma for_each_http_close_returns l : forall w,
  fst (for_each l http_close w) = Returns tt.
Proof.
  induction l as [|c l IH]; intros w; [reflexivity|].
  cbn [for_each]. unfold bind at 1.
  unfold http_close at 1. unfold bind, log, set_sock. apply IH.
Qed.

Lemma close_http_pool_returns h w :
  (h_connections h <= List.length (pool w))%nat ->
  fst (close_http_pool h w) = Returns tt.
Proof.
  intros Hn. unfold close_http_pool, bind.
  rewrite lock_pool_takes by exact Hn.
  apply for_each_http_close_returns.
Qed.

Lemma lock_pool_preserves R n :
  (forall w, R w w) -> (forall a b c, R a b -> R b c -> R a c) ->
  preserves R pool_get ->
  forall locked, preserves R (lock_pool n locked).
Proof.
  intros Hr Ht Hg. induction n as [|n IH]; intros locked; cbn [lock_pool].
  - apply preserves_ret, Hr.
  - apply preserves_bind; [exact Ht | exact Hg | intros c; apply IH].
Qed.


Lemma close_http_pool_pooled h :
  preserves (pooled is_pool_close_call) (close_http_pool h).
Proof.
  unfold close_http_pool. frames.
  apply lock_pool_preserves; try preorder. primitive.
Qed.


(** [close], once the pool is drained and the flag is read. *)
Lemma close_after_drain fuel h w :
  (h_connections h <= List.length (pool w))%nat ->
  let transfer := h_transfer h in
  let w1 := snd ((close_http_pool h ;; read_failed) w) in
  close fuel h w
  = (if failed w then
       try_finally (cancel_transfer transfer) connection_close
     else
       try_finally
         (try_except_else
            (finalize_transfer fuel transfer (h_disk_id h))
            (fun _ => true)
            (fun e => cancel_transfer transfer ;; raise e)
            (fun _ => p <- get_params ;; write_file (diskid_file p) (h_disk_id h)))
         connection_close) w1.
Proof.
  intros Hn transfer w1. subst w1 transfer.
  pose proof (close_http_pool_returns h w Hn) as Hr.
  pose proof (close_http_pool_pooled h w) as (_ & _ & _ & Hf & _).
  unfold close, bind.
  destruct (close_http_pool h w) as [o w0]. cbn in Hr, Hf. subst o.
  unfold read_failed, bind, log, ret. cbn. rewrite Hf.
  reflexivity.
Qed.

Lemma calls_snoc kind t e :
  calls kind (t ++ [e]) = ((if kind e then 1 else 0) + calls kind t)%nat.
Proof. rewrite calls_app. unfold calls. cbn. destruct (kind e); cbn; lia. Qed.



(** ** The transport factory and the local socket *)

(** C10. A [UnixHTTPConnection] built with a [timeout] argument other than
    the sentinel [socket._GLOBAL_DEFAULT_TIMEOUT] gives, in [connect], the
    module constant [timeout] (300 seconds) to [settimeout], whatever the
    argument was; built with the sentinel, [connect] does not call
    [settimeout]. *)
Theorem unix_connect_uses_module_timeout :
  forall (path : string) (tmo : timeout_arg) (w : World),
    unix_init (network w) 0%nat = None ->
    let c := next_conn w in
    let r := (http <- UnixHTTPConnection_init path tmo ;; connect http) w in
    timeout = 300 /\
    match tmo with
    | GLOBAL_DEFAULT_TIMEOUT =>
        trace (snd r) = trace w ++ [EvSocket c; EvSockConnect c] /\
        sock (heap (snd r) c) = Some {| sock_timeout := None |}
    | TimeoutValue t =>
        trace (snd r)
        = trace w ++ [EvSocket c; EvSetTimeout c 300; EvSockConnect c] /\
        sock (heap (snd r) c) = Some {| sock_timeout := Some 300 |}
    end.
Proof.
  intros path tmo w Hi c r. subst c r.
  split; [reflexivity|].
  unfold bind, UnixHTTPConnection_init, shd. rewrite Hi.
  unfold new_conn, connect. cbn. rewrite Nat.eqb_refl. cbn.
  unfold UnixHTTPConnection_connect, socket_connect, set_sock, bind, log,
    of_error, shd.
  destruct tmo as [|t]; cbn;
    destruct (sock_connect (network w) 0%nat); cbn;
    rewrite ?Nat.eqb_refl, <- ?app_assoc; split; reflexivity.
Qed.

Lemma unix_connect_uses_module_timeout_witness :
  trace (snd ((http <- UnixHTTPConnection_init "/run/sock" (TimeoutValue (Some 5)) ;;
               connect http) Example.no_socket))
  = [EvSocket 0; EvSetTimeout 0 300; EvSockConnect 0].
Proof.
  destruct (unix_connect_uses_module_timeout "/run/sock" (TimeoutValue (Some 5))
              Example.no_socket) as (_ & H & _).
  - reflexivity.
  - exact H.
Defined.

(** The literal reading of the sentence about the local socket fails: on a
    host where the socket cannot be connected, [create_http] still returns
    the Unix transport, it has made no attempt to connect, and the first
    request on that transport raises the socket's error.  In a session
    whose pool was built for that socket, the first read fails so. *)
Lemma create_http_does_not_connect :
  fst (create_http Example.url (Some "/run/ovirt-imageio/sock") Example.no_socket)
  = Returns 0%nat /\
  transport
    (heap (snd (create_http Example.url (Some "/run/ovirt-imageio/sock")
                  Example.no_socket)) 0%nat)
  = UnixHTTPConnection "/run/ovirt-imageio/sock" GLOBAL_DEFAULT_TIMEOUT /\
  trace (snd (create_http Example.url (Some "/run/ovirt-imageio/sock")
                Example.no_socket)) = [] /\
  fst (http_request 0 "GET" "/images/ticket" [] []
         (snd (create_http Example.url (Some "/run/ovirt-imageio/sock")
                 Example.no_socket)))
  = Raises (OSError "[Errno 2] No such file or directory") /\
  fst (pread (Example.handle true true 4) [x00] 0 0
         (snd (create_http_pool Example.url (Some {| host_id := "host-1" |})
                 Example.options Example.no_socket)))
  = Raises (OSError "[Errno 2] No such file or directory") /\
  ~ falls_back_when_connect_fails.
Proof.
  repeat split; try (vm_compute; reflexivity).
  intros H.
  destruct (H Example.url "/run/ovirt-imageio/sock" Example.no_socket
              (OSError "[Errno 2] No such file or directory")
              eq_refl eq_refl eq_refl) as (c & Hc & Ht).
  vm_compute in Hc. injection Hc as <-.
  vm_compute in Ht. discriminate.
Qed.

(** C9 (amended).  With a local-socket path, [create_http] builds the
    [UnixHTTPConnection] object and returns it without connecting; it
    builds the network transport instead, silently, exactly when building
    that object raises.  The socket is connected by the first request, and
    an error of that connection is raised to the caller of the request. *)
Theorem create_http_unix_socket :
  forall (url : Url) (path : string) (w : World),
    truthy (Some path) = Some path ->
    let r := create_http url (Some path) w in
    match unix_init (network w) 0%nat with
    | None =>
        r = (Returns (next_conn w),
             snd (new_conn (UnixHTTPConnection path GLOBAL_DEFAULT_TIMEOUT)
                    (unix_init_done w))) /\
        trace (snd r) = trace w /\
        sock (heap (snd r) (next_conn w)) = None /\
        forall method target headers body e,
          sock_connect (network w) 0%nat = Some e ->
          fst (http_request (next_conn w) method target headers body (snd r))
          = Raises e
    | Some _ =>
        r = create_http url None (unix_init_done w) /\
        trace (snd r) = trace w
    end.
Proof.
  intros url path w Hp r.
  assert (E : r = match unix_init (network w) 0%nat with
                  | None =>
                      (Returns (next_conn w),
                       snd (new_conn (UnixHTTPConnection path GLOBAL_DEFAULT_TIMEOUT)
                              (unix_init_done w)))
                  | Some _ => create_http url None (unix_init_done w)
                  end).
  { subst r. unfold create_http. rewrite Hp.
    unfold bind at 1. unfold try_except, bind, UnixHTTPConnection_init, shd.
    fold (unix_init_done w).
    destruct (unix_init (network w) 0%nat); reflexivity. }
  clearbody r. subst r.
  destruct (unix_init (network w) 0%nat) as [e0|] eqn:Hi.
  - split; [reflexivity|].
    unfold create_http, get_params, bind, ret. cbn.
    destruct (String.eqb (scheme url) "https"); [reflexivity|].
    destruct (String.eqb (scheme url) "http"); reflexivity.
  - cbn. repeat split.
    + now rewrite Nat.eqb_refl.
    + intros method target headers body e He.
      unfold http_request, sock_send, bind, log. cbn.
      rewrite Nat.eqb_refl. cbn.
      unfold connect. cbn. rewrite Nat.eqb_refl. cbn.
      unfold UnixHTTPConnection_connect, socket_connect, set_sock, bind, log,
        of_error, shd. cbn. rewrite He. reflexivity.
Qed.

Lemma create_http_unix_socket_witness :
  trace (snd (create_http Example.url (Some "/run/ovirt-imageio/sock")
                Example.no_socket)) = [].
Proof.
  pose proof (create_http_unix_socket Example.url "/run/ovirt-imageio/sock"
                Example.no_socket eq_refl) as H.
  cbv zeta in H. change (unix_init (network Example.no_socket) 0%nat)
    with (@None exn) in H. cbv iota in H.
  destruct H as (_ & H & _). exact H.
Defined.

(** ** Block operations *)

(** The part of [pwrite] that follows [putrequest]. *)
Lemma pwrite_unfold h buf offset flags w c rest :
  pool w = c :: rest ->
  let fua := negb (Z.land flags (FLAG_FUA w) =? 0) in
  let flag := if h_can_flush h && fua then "y" else "n" in
  let target := ((h_path h ++ "?flush=") ++ flag)%string in
  pwrite h buf offset flags w
  = failing
      (try_finally
         (http_putheader c "Content-Range" (content_range offset (len buf)) ;;
          http_putheader c "Content-Length" (str (len buf)) ;;
          http_endheaders c ;;
          try_except (http_send c buf) is_BrokenPipeError (fun _ => ret tt) ;;
          r <- http_getresponse c ;;
          (if negb (status r =? 200)
           then request_failed c r (CouldNotWrite offset (len buf))
           else ret tt) ;;
          response_read c r ;;
          ret tt)
         (pool_put c))
      (set_trace (set_pool w rest)
         (trace w ++ [EvPoolGet c; EvPutRequest c "PUT" target])).
Proof.
  intros Hp fua flag target.
  unfold pwrite. rewrite !failing_unfold.
  unfold bind at 1. unfold flag_fua at 1. cbn [fst snd].
  rewrite (http_context_unfold _ _ w c rest Hp).
  unfold try_finally. unfold bind at 1. unfold http_putrequest, log.
  cbn [trace set_trace set_pool]. rewrite <- app_assoc. reflexivity.
Qed.

Lemma pwrite_tail_quiet A (m : M A) c :
  preserves (quiet no_put_request) m ->
  preserves (quiet no_put_request) (failing (try_finally m (pool_put c))).
Proof.
  intros Hm. unfold failing. frames. exact Hm.
Qed.

(** C5. [pwrite] sends one [putrequest], on the connection it borrowed,
    for the path of the transfer followed by [?flush=y] when the FUA flag
    is set and the handle has [can_flush], and by [?flush=n] in every other
    case.  It returns only after a response whose status is 200; when the
    response arrives with another status, it raises the error of
    [request_failed]. *)
Theorem pwrite_flush_flag :
  forall (h : Handle) (buf : list byte) (offset flags : Z) (w : World)
         (c : nat) (rest : list nat),
    pool w = c :: rest ->
    let r := pwrite h buf offset flags w in
    let fua := negb (Z.land flags (FLAG_FUA w) =? 0) in
    let flag := if h_can_flush h && fua then "y" else "n" in
    (flag = "y" <-> Z.land flags (FLAG_FUA w) <> 0 /\ h_can_flush h = true) /\
    (flag = "n" <-> ~ (Z.land flags (FLAG_FUA w) <> 0 /\ h_can_flush h = true)) /\
    (exists more,
       trace (snd r)
       = trace w
           ++ [EvPoolGet c;
               EvPutRequest c "PUT" ((h_path h ++ "?flush=") ++ flag)%string]
           ++ more /\
       calls is_put_request more = 0%nat) /\
    finishes (fst r) /\
    (fst r = Returns tt ->
       exists resp, responses (network w) 0%nat = inl resp /\ status resp = 200) /\
    (forall s resp,
       sock (heap w c) = Some s ->
       wire (network w) 0%nat = None ->
       wire (network w) 1%nat = None \/
       wire (network w) 1%nat = Some BrokenPipeError ->
       responses (network w) 0%nat = inl resp ->
       status resp <> 200 ->
       body_readable resp ->
       failed (snd r) = true /\
       exists body,
         fst r = Raises (RuntimeError
                           (RequestFailed (CouldNotWrite offset (len buf))
                              (status resp) (reason resp) body))).
Proof.
  intros h buf offset flags w c rest Hp r fua flag.
  assert (Er : r = pwrite h buf offset flags w) by reflexivity.
  rewrite (pwrite_unfold h buf offset flags w c rest Hp) in Er.
  fold fua flag in Er. clearbody r.
  split; [|split; [|split; [|split; [|split]]]].
  - subst flag fua.
    destruct (h_can_flush h);
      destruct (Z.eqb_spec (Z.land flags (FLAG_FUA w)) 0); cbn;
      (split; [intros H | intros (H1 & H2)]);
      try discriminate; try contradiction; try reflexivity;
      try (split; congruence).
  - subst flag fua.
    destruct (h_can_flush h);
      destruct (Z.eqb_spec (Z.land flags (FLAG_FUA w)) 0); cbn;
      (split; [intros H | intros H]);
      try discriminate; try reflexivity;
      try (intros (H1 & H2); try discriminate; contradiction);
      try (exfalso; apply H; split; [assumption | reflexivity]).
  - match type of Er with
    | r = failing (try_finally ?m _) ?w2 =>
        destruct (pwrite_tail_quiet unit m c ltac:(frames) w2) as (more & T & F)
    end.
    rewrite <- Er in T. exists more. split.
    + rewrite T. cbn [trace set_trace set_pool]. now rewrite <- app_assoc.
    + unfold calls. clear T.
      induction more as [|e more IH]; [reflexivity|].
      cbn in F. apply andb_prop in F as (Fe & Fm). cbn.
      unfold no_put_request in Fe. apply negb_true_iff in Fe. rewrite Fe. auto.
  - rewrite Er. unfold failing. terminating.
  - intros Hr. rewrite Er in Hr.
    match type of Hr with
    | fst (failing ?m ?w2) = _ => destruct (failing m w2) as [o w9] eqn:Hf
    end.
    cbn in Hr. subst o.
    apply failing_returns in Hf.
    apply try_finally_returns in Hf as (w8 & Hf & _).
    apply bind_returns in Hf as (u1 & w3 & H1 & Hf).
    apply bind_returns in Hf as (u2 & w4 & H2 & Hf).
    apply bind_returns in Hf as (u3 & w5 & H3 & Hf).
    apply bind_returns in Hf as (u4 & w6 & H4 & Hf).
    apply bind_returns in Hf as (resp & w7 & H5 & Hf).
    apply bind_returns in Hf as (u5 & w7' & H6 & _).
    exists resp. split.
    + assert (S1 : responses (network w6) = responses (network w)).
      { assert (P1 := (ltac:(primitive) : preserves (same (fun w => responses (network w)))
                         (http_putheader c "Content-Range" (content_range offset (len buf)))) (set_trace (set_pool w rest)
         (trace w ++ [EvPoolGet c; EvPutRequest c "PUT" ((h_path h ++ "?flush=") ++ flag)%string]))).
        rewrite H1 in P1.
        assert (P2 := (ltac:(primitive) : preserves (same (fun w => responses (network w)))
                         (http_putheader c "Content-Length" (str (len buf)))) w3).
        rewrite H2 in P2.
        assert (P3 := (ltac:(primitive) : preserves (same (fun w => responses (network w)))
                         (http_endheaders c)) w4).
        rewrite H3 in P3.
        assert (P4 : preserves (same (fun w => responses (network w)))
                       (try_except (http_send c buf) is_BrokenPipeError (fun _ => ret tt)))
          by frames.
        specialize (P4 w5). rewrite H4 in P4.
        unfold same in *. cbn in *. congruence. }
      unfold http_getresponse, bind, log, of_result, shd in H5. cbn in H5.
      rewrite S1 in H5.
      destruct (responses (network w) 0%nat); cbn in H5; [|discriminate].
      injection H5 as -> _. reflexivity.
    + destruct (Z.eqb_spec (status resp) 200) as [E|E]; [exact E|].
      cbn in H6. exfalso. eapply request_failed_never_returns. exact H6.
  - intros s resp Hs Hw0 Hw1 Hresp Hst Hbody.
    rewrite Er. rewrite failing_unfold.
    unfold try_finally, http_putheader, http_endheaders, http_send, sock_send,
      http_getresponse, try_except, pool_put, bind, log, of_error, of_result,
      ret, shd.
    clear Er. cbn.
    repeat (progress (rewrite ?Hs, ?Hw0; cbn; unfold stl; cbv beta)).
    destruct Hw1 as [Hw1|Hw1]; rewrite Hw1; cbn; rewrite Hresp; cbn.
    all: destruct (Z.eqb_spec (status resp) 200) as [E|E]; [contradiction|]; cbn.
    all: unfold request_failed, body_readable, try_except, response_read, bind,
           log, raise, ret in *; cbn.
    all: destruct (read_error resp) as [e|]; cbn;
           [rewrite Hbody; cbn|]; split; try reflexivity; eauto.
Qed.

Lemma pwrite_flush_flag_witness :
  exists more,
    trace (snd (pwrite (Example.handle true true 2) [x01] 0 2 Example.refusing))
    = [EvPoolGet 0; EvPutRequest 0 "PUT" "/images/ticket?flush=y"] ++ more /\
    calls is_put_request more = 0%nat.
Proof.
  destruct (pwrite_flush_flag (Example.handle true true 2) [x01] 0 2
              Example.refusing 0%nat [1%nat] eq_refl) as (_ & _ & H & _).
  exact H.
Defined.

(** *** Zero emulation *)

Lemma len_zero_buf : len zero_buf = 131072.
Proof.
  unfold len, zero_buf, bytearray. rewrite repeat_length.
  rewrite Z2Nat.id; [reflexivity | discriminate].
Qed.






Lemma bind_step A B (m : M A) (k : A -> M B) w a w' :
  m w = (Returns a, w') -> bind m k w = k a w'.
Proof. intros H. unfold bind. now rewrite H. Qed.

Lemma try_finally_step A (m m' : M A) cleanup w w' :
  m w = m' w' -> try_finally m cleanup w = try_finally m' cleanup w'.
Proof. intros H. unfold try_finally. now rewrite H. Qed.

(** A write on a connected socket that the peer accepts. *)
Lemma sock_send_accepted c s w :
  sock (heap w c) = Some s ->
  wire (network w) 0%nat = None ->
  sock_send c w
  = (Returns tt, set_network w (set_wire (network w) (stl (wire (network w))))).
Proof.
  intros Hs Hw. unfold sock_send, bind, of_error, shd. now rewrite Hs, Hw.
Qed.








(** The loops defined by well-founded recursion preserve what their steps
    preserve, and come back. *)
Lemma send_zeroes_preserves R c :
  (forall w, R w w) -> (forall a b d, R a b -> R b d -> R a d) ->
  (forall data, preserves R (http_send c data)) ->
  forall count, preserves R (send_zeroes c count).
Proof.
  intros Hr Ht Hs count.
  remember (Z.to_nat count) as n eqn:Hn. revert count Hn.
  induction n as [n IH] using lt_wf_ind. intros count Hn.
  rewrite send_zeroes_equation_1.
  destruct (Z_gt_dec count (len zero_buf)) as [Hgt|Hle].
  - rewrite send_zeroes_clause_1_equation_1.
    apply preserves_try_except_else;
      [exact Ht | apply Hs | intros e; apply preserves_ret, Hr | intros _ w].
    cbv beta. eapply IH; [|reflexivity].
    rewrite len_zero_buf in *. lia.
  - rewrite send_zeroes_clause_1_equation_2.
    apply preserves_try_except;
      [exact Ht | | intros e; apply preserves_ret, Hr].
    apply preserves_bind; [exact Ht | apply Hs | intros _; apply preserves_ret, Hr].
Qed.

Lemma send_zeroes_terminates c count : terminates (send_zeroes c count).
Proof.
  remember (Z.to_nat count) as n eqn:Hn. revert count Hn.
  induction n as [n IH] using lt_wf_ind. intros count Hn.
  rewrite send_zeroes_equation_1.
  destruct (Z_gt_dec count (len zero_buf)) as [Hgt|Hle].
  - rewrite send_zeroes_clause_1_equation_1.
    apply terminates_try_except_else;
      [comes_back | intros e; apply terminates_ret | intros _ w].
    cbv beta. eapply IH; [|reflexivity]. rewrite len_zero_buf in *. lia.
  - rewrite send_zeroes_clause_1_equation_2. terminating.
Qed.

Lemma pread_loop_preserves R c offset count :
  (forall w, R w w) -> (forall a b d, R a b -> R b d -> R a d) ->
  (forall n, preserves R (log (EvReadInto c n))) ->
  (forall r msg, preserves R (@request_failed (list byte) c r msg)) ->
  forall r buf got, preserves R (pread_loop c offset count r buf got).
Proof.
  intros Hr Ht Hl Hf r buf got.
  remember (count - got)%nat as n eqn:Hn. revert r buf got Hn.
  induction n as [n IH] using lt_wf_ind. intros r buf got Hn.
  rewrite pread_loop_equation_1.
  destruct (lt_dec got count) as [Hlt|Hge].
  - rewrite pread_loop_clause_1_equation_1.
    destruct (response_readinto r (count - got)) as [data r'].
    rewrite pread_loop_clause_1_clause_1_equation_1.
    destruct (List.length data) as [|k].
    + rewrite pread_loop_clause_1_clause_1_clause_1_equation_1.
      apply preserves_bind; [exact Ht | apply Hl | intros _; apply Hf].
    + rewrite pread_loop_clause_1_clause_1_clause_1_equation_2.
      apply preserves_bind; [exact Ht | apply Hl | intros _ w].
      cbv beta. eapply IH; [|reflexivity]. lia.
  - rewrite pread_loop_clause_1_equation_2. apply preserves_ret, Hr.
Qed.

Lemma request_failed_terminates A c r msg : terminates (@request_failed A c r msg).
Proof. unfold request_failed. terminating. Qed.

Lemma pread_loop_terminates c offset count r buf got :
  terminates (pread_loop c offset count r buf got).
Proof.
  remember (count - got)%nat as n eqn:Hn. revert r buf got Hn.
  induction n as [n IH] using lt_wf_ind. intros r buf got Hn.
  rewrite pread_loop_equation_1.
  destruct (lt_dec got count) as [Hlt|Hge].
  - rewrite pread_loop_clause_1_equation_1.
    destruct (response_readinto r (count - got)) as [data r'].
    rewrite pread_loop_clause_1_clause_1_equation_1.
    destruct (List.length data) as [|k].
    + rewrite pread_loop_clause_1_clause_1_clause_1_equation_1.
      apply terminates_bind; [comes_back|]. intros _.
      apply request_failed_terminates.
    + rewrite pread_loop_clause_1_clause_1_clause_1_equation_2.
      apply terminates_bind; [comes_back|]. intros _ w.
      cbv beta. eapply IH; [|reflexivity]. lia.
  - rewrite pread_loop_clause_1_equation_2. apply terminates_ret.
Qed.

Lemma bind_ret A B (a : A) (k : A -> M B) w : bind (ret a) k w = k a w.
Proof. reflexivity. Qed.

Lemma bind_raises A B (m : M A) (k : A -> M B) w e :
  fst (m w) = Raises e -> fst (bind m k w) = Raises e.
Proof.
  intros H. unfold bind.
  destruct (m w) as [[a|e'| |] w1]; cbn in *; try discriminate.
  now injection H as ->.
Qed.

(** Putting the connection back does not change how the call ends. *)
Lemma failing_finally_fst A (m : M A) c w :
  fst (failing (try_finally m (pool_put c)) w) = fst (m w).
Proof.
  rewrite failing_unfold. unfold try_finally, pool_put.
  destruct (m w) as [[a|e| |] w1]; reflexivity.
Qed.

(** *** Reading *)

Lemma pread_loop_step c offset count r buf got :
  pread_loop c offset count r buf got
  = if (got <? count)%nat then
      let (data, r') := response_readinto r (count - got) in
      match List.length data with
      | O =>
          log (EvReadInto c 0) ;;
          request_failed c r' (ShortRead offset (Z.of_nat count) (Z.of_nat got))
      | S n =>
          log (EvReadInto c (S n)) ;;
          pread_loop c offset count r' (fill buf got data) (got + S n)
      end
    else ret buf.
Proof.
  rewrite pread_loop_equation_1.
  destruct (lt_dec got count) as [Hlt|Hge]; destruct (Nat.ltb_spec got count);
    try lia.
  - rewrite pread_loop_clause_1_equation_1.
    destruct (response_readinto r (count - got)) as [data r'].
    rewrite pread_loop_clause_1_clause_1_equation_1.
    destruct (List.length data) as [|k].
    + now rewrite pread_loop_clause_1_clause_1_clause_1_equation_1.
    + now rewrite pread_loop_clause_1_clause_1_clause_1_equation_2.
  - now rewrite pread_loop_clause_1_equation_2.
Qed.

Lemma available_cons b seg rest :
  available ((b :: seg) :: rest) = (S (List.length seg) + available rest)%nat.
Proof. reflexivity. Qed.

Lemma firstn_fill buf got data :
  (got <= List.length buf)%nat ->
  firstn (got + List.length data) (fill buf got data) = firstn got buf ++ data.
Proof.
  intros H. unfold fill. rewrite app_assoc, firstn_app.
  rewrite length_app, length_firstn, Nat.min_l by lia.
  rewrite Nat.sub_diag. cbn [firstn]. rewrite app_nil_r.
  apply firstn_all2. rewrite length_app, length_firstn. lia.
Qed.

Lemma length_fill buf got data :
  (got + List.length data <= List.length buf)%nat ->
  List.length (fill buf got data) = List.length buf.
Proof.
  intros H. unfold fill. rewrite !length_app, length_firstn, length_skipn. lia.
Qed.

Lemma pread_loop_full c offset count r buf w :
  fst (pread_loop c offset count r buf count w) = Returns buf.
Proof.
  rewrite pread_loop_step. destruct (Nat.ltb_spec count count); [lia|].
  reflexivity.
Qed.

(** Enough bytes arrive: the loop of [pread] fills the rest of the buffer
    with the next bytes of the body. *)
Lemma pread_loop_reads c offset count : forall segs r buf got w,
  segments r = segs ->
  List.length buf = count ->
  (got <= count)%nat ->
  (count - got <= available segs)%nat ->
  fst (pread_loop c offset count r buf got w)
  = Returns (firstn got buf ++ firstn (count - got) (List.concat segs)).
Proof.
  assert (Hdone : forall segs r buf w,
            List.length buf = count ->
            fst (pread_loop c offset count r buf count w)
            = Returns (firstn count buf
                         ++ firstn (count - count) (List.concat segs))).
  { intros segs r buf w Hb. rewrite pread_loop_full.
    rewrite Nat.sub_diag, <- Hb, firstn_all. cbn [firstn]. now rewrite app_nil_r. }
  induction segs as [|seg rest IH]; intros r buf got w Hr Hb Hg Ha.
  - cbn in Ha. replace got with count by lia. now apply Hdone.
  - destruct (Nat.eq_dec got count) as [->|Hne]; [now apply Hdone|].
    rewrite pread_loop_step.
    destruct (Nat.ltb_spec got count) as [Hlt|Hge]; [|lia].
    unfold response_readinto. rewrite Hr.
    destruct seg as [|b seg]; [cbn in Ha; lia|].
    rewrite available_cons in Ha.
    remember (b :: seg) as full eqn:Hfull.
    assert (Lfull : List.length full = S (List.length seg)) by now subst full.
    remember (count - got)%nat as k eqn:Hk.
    change (List.concat (full :: rest)) with (full ++ List.concat rest).
    destruct (Nat.le_gt_cases k (List.length full)) as [Hfit|Hmore].
    + (* the segment fills the buffer *)
      assert (Hlen : List.length (firstn k full) = k)
        by (apply firstn_length_le; lia).
      rewrite Hlen. destruct k as [|k]; [lia|].
      unfold bind, log. cbn [fst snd].
      replace (got + S k)%nat with count by lia.
      rewrite pread_loop_full. f_equal.
      unfold fill. rewrite Hlen, skipn_all2, app_nil_r by lia.
      f_equal. rewrite firstn_app.
      replace (S k - List.length full)%nat with 0%nat by lia.
      cbn [firstn]. now rewrite app_nil_r.
    + (* the segment is used up *)
      rewrite (firstn_all2 full) by lia.
      rewrite (skipn_all2 full) by lia.
      rewrite Lfull. unfold bind, log. cbn [fst snd].
      rewrite IH.
      * f_equal. rewrite <- Lfull, firstn_fill by lia.
        rewrite <- app_assoc. f_equal.
        rewrite firstn_app, (firstn_all2 full) by lia.
        f_equal. f_equal. lia.
      * reflexivity.
      * rewrite length_fill; lia.
      * lia.
      * lia.
Qed.

(** The stream ends early: the loop of [pread] raises the short-read
    error, with the number of bytes it got. *)
Lemma pread_loop_short c offset count : forall segs r buf got w,
  segments r = segs ->
  (available segs < count - got)%nat ->
  exists e,
    fst (pread_loop c offset count r buf got w) = Raises e /\
    (body_readable r ->
     exists body,
       e = RuntimeError
             (RequestFailed
                (ShortRead offset (Z.of_nat count)
                   (Z.of_nat (got + available segs)))
                (status r) (reason r) body)).
Proof.
  induction segs as [|seg rest IH]; intros r buf got w Hr Ha;
    rewrite pread_loop_step;
    (destruct (Nat.ltb_spec got count) as [Hlt|Hge]; [|lia]);
    unfold response_readinto; rewrite Hr.
  - cbn [List.length available]. rewrite Nat.add_0_r.
    unfold bind, log. cbn [fst snd].
    apply request_failed_raises.
  - destruct seg as [|b seg].
    + rewrite firstn_nil, skipn_nil.
      cbn [List.length available]. rewrite Nat.add_0_r.
      unfold bind, log. cbn [fst snd].
      match goal with
      | |- context [request_failed c ?r' ?m ?w'] =>
          destruct (request_failed_raises (list byte) c r' m w') as (e & He & Hm)
      end.
      exists e. split; [exact He|]. exact Hm.
    + rewrite available_cons in Ha.
      remember (b :: seg) as full eqn:Hfull.
      assert (Lfull : List.length full = S (List.length seg)) by now subst full.
      rewrite (firstn_all2 full) by lia.
      rewrite (skipn_all2 full) by lia.
      rewrite Lfull. unfold bind, log. cbn [fst snd].
      match goal with
      | |- context [pread_loop c offset count ?r' ?buf' ?got' ?w'] =>
          destruct (IH r' buf' got' w' eq_refl ltac:(lia)) as (e & He & Hm)
      end.
      exists e. split; [exact He|].
      intros Hbody. destruct (Hm Hbody) as (body & ->).
      exists body. cbn [status reason]. subst full.
      rewrite available_cons. do 4 f_equal. lia.
Qed.

(** The part of [pread] that follows the call of [http.request]. *)
Lemma pread_unfold h buf offset flags w c rest :
  pool w = c :: rest ->
  pread h buf offset flags w
  = failing
      (try_finally
         (sock_send c ;;
          r <- http_getresponse c ;;
          (if negb (status r =? 206)
           then request_failed c r (CouldNotRead offset (len buf))
           else ret tt) ;;
          content_length <- int (content_length r) ;;
          (if negb (content_length =? len buf)
           then request_failed c r
                  (UnexpectedContentLength offset (len buf) content_length)
           else ret tt) ;;
          pread_loop c offset (List.length buf) r buf 0)
         (pool_put c))
      (set_trace (set_pool w rest)
         (trace w
            ++ [EvPoolGet c;
                EvRequest c "GET" (h_path h) (range_header offset (len buf)) []])).
Proof.
  intros Hp. unfold pread. rewrite !failing_unfold.
  rewrite (http_context_unfold _ _ w c rest Hp).
  unfold try_finally. unfold bind at 1. unfold http_request. unfold bind at 1.
  unfold log. cbn [fst snd trace set_trace set_pool].
  rewrite <- app_assoc. reflexivity.
Qed.

Lemma http_getresponse_answer c w resp :
  responses (network w) 0%nat = inl resp ->
  http_getresponse c w
  = (Returns resp,
     set_network (set_trace w (trace w ++ [EvGetResponse c]))
       (set_responses (network w) (stl (responses (network w))))).
Proof.
  intros H. unfold http_getresponse, bind, log, of_result, shd. cbn.
  now rewrite H.
Qed.

(** C4. [pread] sends a GET for the path of the transfer with the header
    [Range: bytes=offset-(offset+length-1)], on the connection it borrowed.
    It returns only when the response has status 206 and a Content-Length
    equal to the length of the buffer, and the buffer is then filled with
    exactly that many bytes, the first bytes of the body.  When the
    response arrives, another status, another Content-Length, and a body
    that ends before the buffer is full each raise the error of
    [request_failed] with their own message; a response without a
    Content-Length that [int] accepts raises the error of [int]. *)
Theorem pread_protocol :
  forall (h : Handle) (buf : list byte) (offset flags : Z) (w : World)
         (c : nat) (rest : list nat),
    pool w = c :: rest ->
    let count := len buf in
    let r := pread h buf offset flags w in
    (exists more,
       trace (snd r)
       = trace w
           ++ [EvPoolGet c;
               EvRequest c "GET" (h_path h) (range_header offset count) []]
           ++ more) /\
    finishes (fst r) /\
    (forall buf',
       fst r = Returns buf' ->
       exists resp,
         responses (network w) 0%nat = inl resp /\
         status resp = 206 /\
         content_length resp = HeaderInt count /\
         (List.length buf <= available (segments resp))%nat /\
         buf' = firstn (List.length buf) (List.concat (segments resp)) /\
         List.length buf' = List.length buf) /\
    (forall s resp,
       sock (heap w c) = Some s ->
       wire (network w) 0%nat = None ->
       responses (network w) 0%nat = inl resp ->
       body_readable resp ->
       (status resp <> 206 ->
          exists body,
            fst r = Raises (RuntimeError
                              (RequestFailed (CouldNotRead offset count)
                                 (status resp) (reason resp) body))) /\
       (status resp = 206 ->
        forall n, content_length resp = HeaderInt n -> n <> count ->
          exists body,
            fst r = Raises (RuntimeError
                              (RequestFailed
                                 (UnexpectedContentLength offset count n)
                                 (status resp) (reason resp) body))) /\
       (status resp = 206 -> content_length resp = HeaderMissing ->
          fst r = Raises TypeError) /\
       (status resp = 206 ->
        forall junk, content_length resp = HeaderText junk ->
          fst r = Raises ValueError) /\
       (status resp = 206 -> content_length resp = HeaderInt count ->
        (available (segments resp) < List.length buf)%nat ->
          exists body,
            fst r = Raises (RuntimeError
                              (RequestFailed
                                 (ShortRead offset count
                                    (Z.of_nat (available (segments resp))))
                                 (status resp) (reason resp) body))) /\
       (status resp = 206 -> content_length resp = HeaderInt count ->
        (List.length buf <= available (segments resp))%nat ->
          fst r = Returns (firstn (List.length buf)
                             (List.concat (segments resp))))).
Proof.
  intros h buf offset flags w c rest Hp count r.
  assert (Er : r = pread h buf offset flags w) by reflexivity.
  rewrite (pread_unfold h buf offset flags w c rest Hp) in Er.
  fold count in Er. clearbody r.
  set (w2 := set_trace (set_pool w rest)
               (trace w
                  ++ [EvPoolGet c;
                      EvRequest c "GET" (h_path h) (range_header offset count) []]))
    in *.
  split; [|split; [|split]].
  - assert (Q : forall A (m : M A), preserves (quiet any_event) m ->
                  preserves (quiet any_event) (failing (try_finally m (pool_put c)))).
    { intros A m Hm. unfold failing. frames. exact Hm. }
    match type of Er with
    | r = failing (try_finally ?m _) w2 =>
        destruct (Q _ m) with (w := w2) as (more & T & _)
    end.
    + frames. apply pread_loop_preserves; try preorder.
      * intros n. primitive.
      * intros r0 msg. unfold request_failed. frames.
    + rewrite <- Er in T. exists more. rewrite T.
      cbn [trace w2 set_trace set_pool]. now rewrite <- app_assoc.
  - rewrite Er. unfold failing. terminating.
    apply pread_loop_terminates.
  - intros buf' Hr. rewrite Er in Hr.
    match type of Hr with
    | fst (failing ?m ?w2) = _ => destruct (failing m w2) as [o w9] eqn:Hf
    end.
    cbn in Hr. subst o.
    apply failing_returns in Hf.
    apply try_finally_returns in Hf as (w8 & Hf & _).
    apply bind_returns in Hf as (u1 & w3 & H1 & Hf).
    apply bind_returns in Hf as (resp & w4 & H2 & Hf).
    apply bind_returns in Hf as (u2 & w5 & H3 & Hf).
    apply bind_returns in Hf as (n & w6 & H4 & Hf).
    apply bind_returns in Hf as (u3 & w7 & H5 & Hf).
    assert (S1 : responses (network w3) = responses (network w)).
    { assert (P1 := (ltac:(primitive)
                      : preserves (same (fun w => responses (network w)))
                          (sock_send c)) w2).
      rewrite H1 in P1. exact P1. }
    assert (R1 : responses (network w) 0%nat = inl resp).
    { unfold http_getresponse, bind, log, of_result, shd in H2. cbn in H2.
      rewrite S1 in H2.
      destruct (responses (network w) 0%nat); cbn in H2; [|discriminate].
      now injection H2 as -> _. }
    assert (R2 : status resp = 206).
    { destruct (Z.eqb_spec (status resp) 206) as [E|E]; [exact E|].
      cbn in H3. exfalso. eapply request_failed_never_returns. exact H3. }
    assert (R3 : content_length resp = HeaderInt n).
    { destruct (content_length resp); cbn in H4; try discriminate.
      now injection H4 as -> _. }
    assert (R4 : n = count).
    { destruct (Z.eqb_spec n count) as [E|E]; [exact E|].
      cbn in H5. exfalso. eapply request_failed_never_returns. exact H5. }
    subst n.
    destruct (Nat.le_gt_cases (List.length buf) (available (segments resp)))
      as [Hen|Hshort].
    + pose proof (pread_loop_reads c offset (List.length buf) (segments resp)
                    resp buf 0 w7 eq_refl eq_refl ltac:(lia) ltac:(lia)) as Hl.
      rewrite Hf in Hl. cbn in Hl. injection Hl as ->.
      rewrite Nat.sub_0_r.
      exists resp. repeat split; try assumption.
      rewrite length_firstn. apply Nat.min_l.
      clear - Hen. revert Hen. generalize (List.length buf).
      induction (segments resp) as [|seg segs IH]; intros n Hn; [cbn in *; lia|].
      destruct seg as [|b seg]; [cbn in *; lia|].
      rewrite available_cons in Hn. cbn [List.concat].
      rewrite length_app. cbn [List.length].
      destruct (Nat.le_gt_cases n (S (List.length seg))); [lia|].
      specialize (IH (n - S (List.length seg))%nat ltac:(lia)). lia.
    + destruct (pread_loop_short c offset (List.length buf) (segments resp)
                  resp buf 0 w7 eq_refl ltac:(lia)) as (e & He & _).
      rewrite Hf in He. discriminate.
  - intros s resp Hs Hw0 Hresp Hbody.
    rewrite Er, failing_finally_fst. clear Er.
    rewrite (bind_step _ _ _ _ _ _ _ (sock_send_accepted c s w2 Hs Hw0)).
    cbv beta.
    match goal with
    | |- context [bind (http_getresponse c) _ ?w3] =>
        rewrite (bind_step _ _ _ _ w3 _ _
                   (http_getresponse_answer c w3 resp Hresp))
    end.
    cbv beta.
    match goal with
    | |- context [bind _ _ ?w4] => generalize w4
    end.
    intros w4.
    split; [|split; [|split; [|split; [|split]]]].
    + intros Hst.
      destruct (Z.eqb_spec (status resp) 206) as [E|E]; [contradiction|].
      cbn [negb].
      destruct (request_failed_raises unit c resp
                  (CouldNotRead offset count) w4) as (e & He & Hm).
      destruct (Hm Hbody) as (body & ->).
      exists body. now apply bind_raises.
    + intros Hst n Hcl Hn. destruct (Z.eqb_spec (status resp) 206) as [_|E0]; [|contradiction].
      cbn [negb]. rewrite Hcl. cbn [int].
      rewrite !bind_ret.
      destruct (Z.eqb_spec n count) as [E|E]; [contradiction|].
      cbn [negb].
      destruct (request_failed_raises unit c resp
                  (UnexpectedContentLength offset count n) w4) as (e & He & Hm).
      destruct (Hm Hbody) as (body & ->).
      exists body. now apply bind_raises.
    + intros Hst Hcl.
      destruct (Z.eqb_spec (status resp) 206) as [_|E0]; [|contradiction].
      cbn [negb]. rewrite Hcl. reflexivity.
    + intros Hst junk Hcl.
      destruct (Z.eqb_spec (status resp) 206) as [_|E0]; [|contradiction].
      cbn [negb]. rewrite Hcl. reflexivity.
    + intros Hst Hcl Hshort. destruct (Z.eqb_spec (status resp) 206) as [_|E0]; [|contradiction].
      cbn [negb]. rewrite Hcl. cbn [int].
      rewrite !bind_ret, Z.eqb_refl. cbn [negb]. rewrite bind_ret.
      destruct (pread_loop_short c offset (List.length buf) (segments resp)
                  resp buf 0 w4 eq_refl ltac:(lia)) as (e & He & Hm).
      destruct (Hm Hbody) as (body & ->).
      exists body. exact He.
    + intros Hst Hcl Hen. destruct (Z.eqb_spec (status resp) 206) as [_|E0]; [|contradiction].
      cbn [negb]. rewrite Hcl. cbn [int].
      rewrite !bind_ret, Z.eqb_refl. cbn [negb]. rewrite bind_ret.
      rewrite (pread_loop_reads c offset (List.length buf) (segments resp)
                 resp buf 0 w4 eq_refl eq_refl) by lia.
      now rewrite Nat.sub_0_r.
Qed.

Lemma pread_protocol_witness :
  fst (pread (Example.handle true true 1) [x00; x00; x00; x00] 0 0
         Example.serving)
  = Returns [x01; x02; x03; x04].
Proof.
  destruct (pread_protocol (Example.handle true true 1) [x00; x00; x00; x00]
              0 0 Example.serving 0%nat [] eq_refl) as (_ & _ & _ & H).
  destruct (H {| sock_timeout := None |}
              (Example.response 206 [[x01; x02; x03]; [x04]])
              eq_refl eq_refl eq_refl I) as (_ & _ & _ & _ & _ & Hok).
  apply Hok; [reflexivity | reflexivity | cbn; lia].
Defined.

(** ** The [failed] entry of the handle *)

Lemma only_pooled allowed w w' : only allowed w w' -> pooled allowed w w'.
Proof. intros (Q & A & B & C & D & _). repeat split; assumption. Qed.

Lemma pooled_sticky allowed w w' : pooled allowed w w' -> sticky w w'.
Proof. intros (_ & _ & _ & F & _) H. now rewrite F. Qed.

Lemma pooled_quiet (a b : event -> bool) w w' :
  (forall e, a e = true -> b e = true) -> pooled a w w' -> quiet b w w'.
Proof. intros H (Q & _). eapply quiet_weaken; eauto. Qed.

Lemma request_failed_pooled A c r msg :
  preserves (pooled is_pool_or_http) (@request_failed A c r msg).
Proof. unfold request_failed. frames. Qed.

Lemma http_context_pooled A (body : nat -> M A) :
  (forall c, preserves (pooled is_pool_or_http) (body c)) ->
  preserves (pooled is_pool_or_http) (http_context body).
Proof. intros Hb. unfold http_context. frames. apply Hb. Qed.

Lemma iter_http_pool_pooled h (body : nat -> M unit) :
  (forall c, preserves (pooled is_pool_or_http) (body c)) ->
  preserves (pooled is_pool_or_http) (iter_http_pool h body).
Proof.
  intros Hb. unfold iter_http_pool. frames.
  - apply lock_pool_preserves; try preorder. primitive.
  - apply Hb.
Qed.

(** Each decorated function, without its decorator, leaves [h['failed']]
    alone and logs only pool and HTTP calls. *)
Lemma pread_body_pooled h buf offset c :
  preserves (pooled is_pool_or_http)
    (http_request c "GET" (h_path h) (range_header offset (len buf)) [] ;;
     r <- http_getresponse c ;;
     (if negb (status r =? 206)
      then request_failed c r (CouldNotRead offset (len buf))
      else ret tt) ;;
     content_length <- int (content_length r) ;;
     (if negb (content_length =? len buf)
      then request_failed c r
             (UnexpectedContentLength offset (len buf) content_length)
      else ret tt) ;;
     pread_loop c offset (List.length buf) r buf 0).
Proof.
  frames. apply pread_loop_preserves; try preorder.
  - intros n. primitive.
  - intros r0 msg. apply request_failed_pooled.
Qed.

Lemma emulate_zero_pooled h count offset flags :
  preserves (pooled is_pool_or_http) (emulate_zero h count offset flags).
Proof.
  unfold emulate_zero.
  apply preserves_bind; [preorder | primitive | intros fua].
  apply http_context_pooled. intros c. frames.
  apply send_zeroes_preserves; try preorder. intros data. primitive.
Qed.

Lemma pread_pooled h buf offset flags :
  exists m, pread h buf offset flags = failing m /\
            preserves (pooled is_pool_or_http) m.
Proof.
  eexists. split; [reflexivity|]. cbv zeta.
  apply http_context_pooled. intros c. apply pread_body_pooled.
Qed.

Lemma pwrite_pooled h buf offset flags :
  exists m, pwrite h buf offset flags = failing m /\
            preserves (pooled is_pool_or_http) m.
Proof.
  eexists. split; [reflexivity|]. cbv zeta.
  apply preserves_bind; [preorder | primitive | intros fua].
  apply http_context_pooled. intros c. frames.
Qed.

Lemma zero_pooled h count offset flags :
  exists m, zero h count offset flags = failing m /\
            preserves (pooled is_pool_or_http) m.
Proof.
  eexists. split; [reflexivity|].
  destruct (negb (h_can_zero h)); [apply emulate_zero_pooled|].
  apply preserves_bind; [preorder | primitive | intros fua]. cbv zeta.
  apply http_context_pooled. intros c. frames.
Qed.

Lemma flush_pooled h flags :
  exists m, flush h flags = failing m /\
            preserves (pooled is_pool_or_http) m.
Proof.
  eexists. split; [reflexivity|]. cbv zeta.
  apply iter_http_pool_pooled. intros c. frames.
Qed.

(** The decorator, on a function that leaves the flag alone. *)
Lemma failing_decorates A (m : M A) :
  preserves (pooled is_pool_or_http) m ->
  preserves sticky (failing m) /\
  preserves (quiet sets_flag_only) (failing m).
Proof.
  intros Hm. split; intros w; rewrite failing_unfold;
    destruct (Hm w) as (Q & _ & _ & F & _);
    assert (Q' : quiet sets_flag_only w (snd (m w)))
      by (eapply quiet_weaken; [|exact Q]; intros []; cbn; congruence);
    destruct (m w) as [[a|e| |] w1]; cbn [snd] in *.
  all: try (intros H; rewrite F; exact H).
  all: try exact Q'.
  - intros _. reflexivity.
  - eapply quiet_trans; [exact Q'|]. exists [EvFailedWrite true].
    split; reflexivity.
Qed.

Lemma void_unfold A (m : M A) w :
  void m w = (match fst (m w) with
              | Returns _ => Returns tt
              | Raises e => Raises e
              | Blocks => Blocks
              | OutOfFuel => OutOfFuel
              end, snd (m w)).
Proof. unfold void, bind, ret. destruct (m w) as [[a|e| |] w1]; reflexivity. Qed.

(** Every call before [close] is a decorated function. *)
Lemma perform_decorated h q :
  exists A (m : M A),
    preserves (pooled is_pool_or_http) m /\
    forall w, snd (perform h q w) = snd (failing m w) /\
              forall e, fst (perform h q w) = Raises e ->
                        fst (failing m w) = Raises e.
Proof.
  assert (Hvoid : forall A (m : M A) w,
            snd (void (failing m) w) = snd (failing m w) /\
            forall e, fst (void (failing m) w) = Raises e ->
                      fst (failing m w) = Raises e).
  { intros A m w. rewrite void_unfold. cbn [fst snd]. split; [reflexivity|].
    intros e. destruct (fst (failing m w)); congruence. }
  destruct q as [| | | |buf offset flags|buf offset flags|count offset flags|flags];
    cbn [perform].
  - exists bool, (ret false). split; [frames|]. intros w. apply Hvoid.
  - exists bool, (ret (h_can_flush h)). split; [frames|]. intros w. apply Hvoid.
  - exists bool, (ret (h_can_flush h)). split; [frames|]. intros w. apply Hvoid.
  - exists Z, (p <- get_params ;; ret (disk_size p)). split; [frames|].
    intros w. apply Hvoid.
  - destruct (pread_pooled h buf offset flags) as (m & E & Hm).
    exists (list byte), m. split; [exact Hm|]. intros w. rewrite E. apply Hvoid.
  - destruct (pwrite_pooled h buf offset flags) as (m & E & Hm).
    exists unit, m. split; [exact Hm|]. intros w. rewrite E. auto.
  - destruct (zero_pooled h count offset flags) as (m & E & Hm).
    exists unit, m. split; [exact Hm|]. intros w. rewrite E. auto.
  - destruct (flush_pooled h flags) as (m & E & Hm).
    exists unit, m. split; [exact Hm|]. intros w. rewrite E. auto.
Qed.

Lemma open_clears_failed fuel readonly w h w' :
  open fuel readonly w = (Returns h, w') -> failed w' = false.
Proof.
  intros H. unfold open in H.
  apply bind_returns in H as (p & w1 & _ & H).
  apply bind_returns in H as (host & w2 & _ & H).
  apply bind_returns in H as (disk & w3 & _ & H).
  apply bind_returns in H as (transfer & w4 & _ & H).
  apply bind_returns in H as ([url options] & w5 & _ & H).
  apply bind_returns in H as (u & w6 & H6 & H).
  apply bind_returns in H as (n & w7 & H7 & H).
  unfold ret in H. injection H as _ Hw'.
  unfold pool_qsize in H7. injection H7 as _ Hw7.
  injection H6 as Hw6. subst. reflexivity.
Qed.

(** [open] can return: it does in the world [Example.fresh], where the
    flag was true before. *)
Example open_returns_handle :
  match fst (open 5 false Example.fresh) with
  | Returns h => h_connections h = 4%nat
  | _ => False
  end /\
  failed Example.fresh = true /\
  failed (snd (open 5 false Example.fresh)) = false.
Proof. vm_compute. repeat split; reflexivity. Qed.

Lemma perform_all_sticky h qs : forall w,
  (forall q w0, sticky w0 (snd (perform h q w0))) ->
  failed w = true -> failed (perform_all h qs w) = true.
Proof.
  induction qs as [|q qs IH]; intros w Hs Hf; [exact Hf|].
  cbn [perform_all]. apply IH; [exact Hs|]. now apply Hs.
Qed.

Lemma try_except_else_step A B (m m' : M A) handles (handler : exn -> M B)
    orelse w w' :
  m w = m' w' ->
  try_except_else m handles handler orelse w
  = try_except_else m' handles handler orelse w'.
Proof. intros H. unfold try_except_else. now rewrite H. Qed.


(** What [close] does once the flag is read. *)
Lemma close_rest_flag fuel h (flag : bool) :
  let m := if flag then
             try_finally (cancel_transfer (h_transfer h)) connection_close
           else
             try_finally
               (try_except_else
                  (finalize_transfer fuel (h_transfer h) (h_disk_id h))
                  (fun _ => true)
                  (fun e => cancel_transfer (h_transfer h) ;; raise e)
                  (fun _ => p <- get_params ;;
                            write_file (diskid_file p) (h_disk_id h)))
               connection_close in
  preserves (quiet no_flag_event) m /\ preserves (same failed) m.
Proof.
  assert (Hq : forall id start tr disk,
            preserves (quiet no_flag_event)
              (finalize_transfer_wait fuel id start tr disk)).
  { intros. eapply preserves_weaken; [|apply finalize_transfer_wait_only].
    intros w w' (Q & _). eapply quiet_weaken; [|exact Q].
    intros []; cbn; congruence. }
  assert (Hs : forall id start tr disk,
            preserves (same failed)
              (finalize_transfer_wait fuel id start tr disk)).
  { intros. eapply preserves_weaken; [|apply finalize_transfer_wait_only].
    intros w w' (_ & _ & _ & F & _). exact F. }
  destruct flag; cbv zeta; split; unfold finalize_transfer; frames;
    first [apply Hq | apply Hs].
Qed.

(** With the flag clear, [close] calls [finalize] once. *)
Lemma close_rest_finalizes fuel h w :
  let m := try_finally
             (try_except_else
                (finalize_transfer fuel (h_transfer h) (h_disk_id h))
                (fun _ => true)
                (fun e => cancel_transfer (h_transfer h) ;; raise e)
                (fun _ => p <- get_params ;;
                          write_file (diskid_file p) (h_disk_id h)))
             connection_close in
  calls is_finalize (trace (snd (m w))) = S (calls is_finalize (trace w)).
Proof.
  intros m. subst m.
  set (id := transfer_id (h_transfer h)).
  set (w' := set_trace (set_clock w (stl (clock w)))
               (trace w ++ [EvTransferFinalize id])).
  set (rest := ((fun w0 => of_error (transfer_finalize (engine w0)) w0) ;;
                finalize_transfer_wait fuel id (clock w 0%nat) (h_transfer h)
                  (h_disk_id h) ;;
                now <- time_time ;;
                ret tt) : M unit).
  assert (E : finalize_transfer fuel (h_transfer h) (h_disk_id h) w = rest w')
    by reflexivity.
  rewrite (try_finally_step _ _ _ _ _ _
             (try_except_else_step _ _ _ _ _ _ _ _ _ E)).
  match goal with
  | |- calls _ (trace (snd (?m w'))) = _ =>
      assert (Q : preserves (quiet no_finalize) m)
  end.
  { subst rest. frames.
    eapply preserves_weaken; [|apply finalize_transfer_wait_only].
    intros wa wb (Q & _). eapply quiet_weaken; [|exact Q].
    intros []; cbn; congruence. }
  rewrite (quiet_calls no_finalize is_finalize w' _) ; [| |apply Q].
  - subst w'. cbn [trace set_trace set_clock]. rewrite calls_snoc. reflexivity.
  - intros e. unfold no_finalize. now intros ->%negb_true_iff.
Qed.

(** C8. [h['failed']] is sticky.  [open] returns a handle whose flag is
    false.  Each function called on the handle before [close] (they are the
    functions decorated with [failing]) leaves the flag true when it
    raises, never writes false into it, and never reads it, so a flag that
    is true stays true through any sequence of calls.  [close] does not
    write the flag; it reads it once, and then cancels the transfer without
    finalizing it when the flag is true, and finalizes it when the flag is
    false. *)
Theorem failed_flag_is_sticky :
  (forall fuel readonly w h w',
     open fuel readonly w = (Returns h, w') -> failed w' = false) /\
  (forall h q w e,
     fst (perform h q w) = Raises e -> failed (snd (perform h q w)) = true) /\
  (forall h q w,
     (failed w = true -> failed (snd (perform h q w)) = true) /\
     quiet sets_flag_only w (snd (perform h q w))) /\
  (forall h qs w, failed w = true -> failed (perform_all h qs w) = true) /\
  (forall fuel h w,
     (h_connections h <= List.length (pool w))%nat ->
     let r := close fuel h w in
     failed (snd r) = failed w /\
     calls is_failed_read (trace (snd r)) = S (calls is_failed_read (trace w)) /\
     calls is_failed_write (trace (snd r)) = calls is_failed_write (trace w) /\
     (failed w = true ->
        calls is_cancel (trace (snd r)) = S (calls is_cancel (trace w)) /\
        calls is_finalize (trace (snd r)) = calls is_finalize (trace w)) /\
     (failed w = false ->
        calls is_finalize (trace (snd r)) = S (calls is_finalize (trace w)))).
Proof.
  assert (Hperform : forall h q w,
            sticky w (snd (perform h q w)) /\
            quiet sets_flag_only w (snd (perform h q w))).
  { intros h q w.
    destruct (perform_decorated h q) as (A & m & Hm & Hp).
    destruct (Hp w) as (-> & _).
    destruct (failing_decorates A m Hm) as (S1 & S2).
    split; [apply S1 | apply S2]. }
  split; [|split; [|split; [|split]]].
  - apply open_clears_failed.
  - intros h q w e H.
    destruct (perform_decorated h q) as (A & m & Hm & Hp).
    destruct (Hp w) as (-> & Hr). eapply failing_raises. apply Hr, H.
  - intros h q w. destruct (Hperform h q w) as (S1 & S2). split; assumption.
  - intros h qs w. apply perform_all_sticky. intros q w0. apply Hperform.
  - intros fuel h w Hn r.
    assert (Er : r = close fuel h w) by reflexivity.
    rewrite close_after_drain in Er by exact Hn. clearbody r.
    pose proof (close_http_pool_returns h w Hn) as Hret.
    destruct (close_http_pool_pooled h w) as (Q0 & _ & _ & F0 & _).
    assert (E1 : snd ((close_http_pool h ;; read_failed) w)
                 = set_trace (snd (close_http_pool h w))
                     (trace (snd (close_http_pool h w))
                        ++ [EvFailedRead (failed w)])).
    { unfold bind. destruct (close_http_pool h w) as [o w0].
      cbn in Hret, F0 |- *. subst o. unfold read_failed, bind, log, ret. cbn.
      now rewrite F0. }
    rewrite E1 in Er. clear E1.
    set (w0 := snd (close_http_pool h w)) in *.
    set (w1 := set_trace w0 (trace w0 ++ [EvFailedRead (failed w)])) in *.
    assert (K0 : forall kind,
              (forall e, is_pool_close_call e = true -> kind e = false) ->
              calls kind (trace w0) = calls kind (trace w)).
    { intros kind Hk. eapply quiet_calls; [exact Hk | exact Q0]. }
    destruct (close_rest_flag fuel h (failed w)) as (Q & S).
    cbv zeta in Q, S. specialize (Q w1). specialize (S w1).
    rewrite <- Er in Q, S. unfold same in S.
    split; [|split; [|split; [|split]]].
    + rewrite S. exact F0.
    + rewrite (quiet_calls no_flag_event is_failed_read w1 (snd r)); [| |exact Q].
      * subst w1. cbn [trace set_trace]. rewrite calls_snoc. cbn.
        f_equal. apply K0. intros []; cbn; congruence.
      * intros []; cbn; congruence.
    + rewrite (quiet_calls no_flag_event is_failed_write w1 (snd r)); [| |exact Q].
      * subst w1. cbn [trace set_trace]. rewrite calls_snoc. cbn.
        apply K0. intros []; cbn; congruence.
      * intros []; cbn; congruence.
    + intros Hf. rewrite Hf in Er.
      assert (T : trace (snd r)
                  = ((trace w0 ++ [EvFailedRead (failed w)])
                       ++ [EvTransferCancel (transfer_id (h_transfer h))])
                      ++ [EvConnectionClose]).
      { rewrite Er.
        unfold try_finally, cancel_transfer, transfer_service_cancel,
          connection_close, bind, log, of_error, shd. cbn.
        destruct (transfer_cancel (engine w0) 0%nat); reflexivity. }
      rewrite T, !calls_snoc.
      cbn [is_cancel is_finalize Nat.add].
      rewrite !K0 by (intros []; cbn; congruence). split; reflexivity.
    + intros Hf. rewrite Hf in Er. rewrite Er.
      rewrite (close_rest_finalizes fuel h w1).
      subst w1. cbn [trace set_trace]. rewrite calls_snoc. cbn.
      f_equal. apply K0. intros []; cbn; congruence.
Qed.

Lemma failed_flag_is_sticky_witness :
  failed (snd (perform (Example.handle true true 2) (PWrite [x01] 0 2)
                 Example.refusing)) = true.
Proof.
  destruct failed_flag_is_sticky as (_ & H & _).
  eapply (H (Example.handle true true 2) (PWrite [x01] 0 2) Example.refusing).
  vm_compute. reflexivity.
Defined.

(** ** The connection pool *)

Lemma thread_step_conserves n q a q' a' :
  Pool.thread_step n q a q' a' ->
  Permutation (q' ++ Pool.held a') (q ++ Pool.held a).
Proof.
  intros H. destruct H; cbn [Pool.held]; rewrite ?app_nil_r.
  - symmetry. apply Permutation_cons_append.
  - reflexivity.
  - reflexivity.
  - rewrite app_assoc. symmetry.
    apply (Permutation_cons_append (q ++ l) c).
  - reflexivity.
  - reflexivity.
  - reflexivity.
  - rewrite <- app_assoc. reflexivity.
  - reflexivity.
Qed.

Lemma step_conserves n s s' :
  Pool.step n s s' ->
  Permutation (Pool.idle s' ++ Pool.checked_out s')
    (Pool.idle s ++ Pool.checked_out s).
Proof.
  intros H. destruct H as [before a after q q' a' H].
  apply thread_step_conserves in H.
  unfold Pool.checked_out. cbn [Pool.idle Pool.threads].
  rewrite !flat_map_app. cbn [flat_map].
  set (b := flat_map Pool.held before). set (t := flat_map Pool.held after).
  transitivity (b ++ (q' ++ Pool.held a') ++ t).
  { rewrite !app_assoc. apply Permutation_app_tail, Permutation_app_tail.
    apply Permutation_app_comm. }
  transitivity (b ++ (q ++ Pool.held a) ++ t).
  { apply Permutation_app_head, Permutation_app_tail, H. }
  rewrite !app_assoc. apply Permutation_app_tail, Permutation_app_tail.
  apply Permutation_app_comm.
Qed.

Lemma reachable_conserves n s0 s :
  Pool.reachable n s0 s ->
  Permutation (Pool.idle s ++ Pool.checked_out s)
    (Pool.idle s0 ++ Pool.checked_out s0).
Proof.
  induction 1 as [|s s' _ IH Hs]; [reflexivity|].
  etransitivity; [eapply step_conserves; eassumption | exact IH].
Qed.

(** A run of two threads on a pool of two connections: one borrows a
    connection, the other starts to lock the pool and takes the second. *)
Example two_threads :
  Pool.reachable 2
    {| Pool.idle := [0%nat; 1%nat]; Pool.threads := [Pool.Outside; Pool.Outside] |}
    {| Pool.idle := [];
       Pool.threads := [Pool.Borrowing 0; Pool.Locking [1%nat]] |}.
Proof.
  eapply Pool.reach_step; [eapply Pool.reach_step; [eapply Pool.reach_step|]|].
  - apply Pool.reach_start.
  - apply (Pool.step_of 2 [] Pool.Outside [Pool.Outside]), Pool.get_borrow.
  - apply (Pool.step_of 2 [Pool.Borrowing 0] Pool.Outside []), Pool.start_lock.
  - apply (Pool.step_of 2 [Pool.Borrowing 0] (Pool.Locking []) []
             [1%nat] [] (Pool.Locking [1%nat])).
    apply (Pool.get_lock 2 1%nat [] []). cbn. lia.
Qed.

Lemma initial_checked_out n s : Pool.initial n s -> Pool.checked_out s = [].
Proof.
  intros (_ & _ & H). unfold Pool.checked_out.
  induction H as [|a l -> _ IH]; [reflexivity|]. exact IH.
Qed.

(** [http_context] puts the connection back, however its body ends. *)
Lemma http_context_returns_connection A (body : nat -> M A) w c rest :
  pool w = c :: rest ->
  preserves (only is_http_call) (body c) ->
  terminates (body c) ->
  let r := http_context body w in
  finishes (fst r) /\
  pool (snd r) = rest ++ [c] /\
  failed (snd r) = failed w /\
  exists mid,
    trace (snd r) = trace w ++ [EvPoolGet c] ++ mid ++ [EvPoolPut c] /\
    forallb is_http_call mid = true.
Proof.
  intros Hp Hb Ht r. subst r. rewrite (http_context_unfold _ _ w c rest Hp).
  set (w1 := set_trace (set_pool w rest) (trace w ++ [EvPoolGet c])).
  specialize (Hb w1). specialize (Ht w1).
  destruct Hb as ((mid & T & F) & _ & _ & Hf & _ & Hq).
  unfold try_finally, pool_put.
  destruct (body c w1) as [[a|e| |] w2]; cbn [fst snd] in *;
    try contradiction.
  all: split; [exact I|]; split; [now rewrite Hq|]; split; [exact Hf|].
  all: exists mid; split; [|exact F].
  all: cbn [trace set_trace set_pool]; rewrite T; cbn [trace w1 set_trace];
       now rewrite <- !app_assoc.
Qed.

Lemma for_each_pool_put l : forall w,
  for_each l pool_put w
  = (Returns tt,
     set_trace (set_pool w (pool w ++ l)) (trace w ++ map EvPoolPut l)).
Proof.
  induction l as [|c l IH]; intros w.
  - cbn. rewrite !app_nil_r. destruct w; reflexivity.
  - cbn [for_each]. unfold bind at 1. unfold pool_put at 1.
    rewrite IH. cbn. rewrite <- !app_assoc. reflexivity.
Qed.

(** [iter_http_pool] takes [h["connections"]] connections, runs the loop
    on them, and puts them all back, however the loop ends. *)
Lemma iter_http_pool_returns_connections h (body : nat -> M unit) w :
  (h_connections h <= List.length (pool w))%nat ->
  (forall c, preserves (only is_http_call) (body c)) ->
  (forall c, terminates (body c)) ->
  let locked := firstn (h_connections h) (pool w) in
  let r := iter_http_pool h body w in
  finishes (fst r) /\
  pool (snd r) = skipn (h_connections h) (pool w) ++ locked /\
  failed (snd r) = failed w /\
  exists mid,
    trace (snd r)
    = trace w ++ map EvPoolGet locked ++ mid ++ map EvPoolPut locked /\
    forallb is_http_call mid = true.
Proof.
  intros Hn Hb Ht locked r. subst r. unfold iter_http_pool.
  unfold bind. rewrite lock_pool_takes by exact Hn.
  cbn [app]. fold locked.
  set (w1 := set_trace (set_pool w (skipn (h_connections h) (pool w)))
               (trace w ++ map EvPoolGet locked)).
  assert (Hl : preserves (only is_http_call) (for_each locked body))
    by (apply preserves_for_each; [preorder | preorder | exact Hb]).
  assert (Htl : terminates (for_each locked body))
    by (apply terminates_for_each; exact Ht).
  specialize (Hl w1). specialize (Htl w1).
  destruct Hl as ((mid & T & F) & _ & _ & Hf & _ & Hq).
  unfold try_finally.
  destruct (for_each locked body w1) as [[a|e| |] w2]; cbn [fst snd] in *;
    try contradiction; rewrite for_each_pool_put; cbn [fst snd].
  all: split; [exact I|]; split; [now rewrite Hq|]; split; [exact Hf|].
  all: exists mid; split; [|exact F].
  all: cbn [trace set_trace set_pool]; rewrite T; cbn [trace w1 set_trace];
       now rewrite <- !app_assoc.
Qed.

(** With fewer idle connections than [h["connections"]], the iteration
    waits, and its body has not run. *)
Lemma iter_http_pool_waits h (body : nat -> M unit) w :
  (List.length (pool w) < h_connections h)%nat ->
  let r := iter_http_pool h body w in
  fst r = Blocks /\
  calls is_http_call (trace (snd r)) = calls is_http_call (trace w).
Proof.
  intros Hn r. subst r. unfold iter_http_pool, bind.
  pose proof (lock_pool_blocks (h_connections h) [] w Hn) as Hb.
  assert (Q : preserves (quiet is_pool_event) (lock_pool (h_connections h) []))
    by (apply lock_pool_preserves; try preorder; primitive).
  specialize (Q w).
  destruct (lock_pool (h_connections h) [] w) as [o w1]. cbn in Hb. subst o.
  split; [reflexivity|]. cbn [snd] in *.
  eapply quiet_calls; [|exact Q]. intros []; cbn; congruence.
Qed.

(** The bodies given to [http_context] and [iter_http_pool] use the
    connection and leave the pool alone. *)
Lemma request_failed_only A c r msg :
  preserves (only is_http_call) (@request_failed A c r msg).
Proof. unfold request_failed. frames. Qed.

Lemma pread_body_only h buf offset c :
  preserves (only is_http_call)
    (http_request c "GET" (h_path h) (range_header offset (len buf)) [] ;;
     r <- http_getresponse c ;;
     (if negb (status r =? 206)
      then request_failed c r (CouldNotRead offset (len buf))
      else ret tt) ;;
     content_length <- int (content_length r) ;;
     (if negb (content_length =? len buf)
      then request_failed c r
             (UnexpectedContentLength offset (len buf) content_length)
      else ret tt) ;;
     pread_loop c offset (List.length buf) r buf 0) /\
  terminates
    (http_request c "GET" (h_path h) (range_header offset (len buf)) [] ;;
     r <- http_getresponse c ;;
     (if negb (status r =? 206)
      then request_failed c r (CouldNotRead offset (len buf))
      else ret tt) ;;
     content_length <- int (content_length r) ;;
     (if negb (content_length =? len buf)
      then request_failed c r
             (UnexpectedContentLength offset (len buf) content_length)
      else ret tt) ;;
     pread_loop c offset (List.length buf) r buf 0).
Proof.
  split.
  - frames. apply pread_loop_preserves; try preorder.
    + intros n. primitive.
    + intros r0 msg. apply request_failed_only.
  - terminating. apply pread_loop_terminates.
Qed.

(** The decorator changes neither the pool nor the way the call ends. *)
Lemma failing_keeps_pool A (m : M A) w :
  (finishes (fst (failing m w)) <-> finishes (fst (m w))) /\
  (fst (m w) = Blocks -> failing m w = (Blocks, snd (m w))) /\
  pool (snd (failing m w)) = pool (snd (m w)) /\
  exists tail,
    trace (snd (failing m w)) = trace (snd (m w)) ++ tail /\
    forallb no_pool_event tail = true.
Proof.
  rewrite failing_unfold. destruct (m w) as [[a|e| |] w1]; cbn [fst snd].
  all: split; [tauto|]; split; [intros; try discriminate; reflexivity|];
       split; [reflexivity|].
  2: exists [EvFailedWrite true]; split; reflexivity.
  all: exists []; split; [now rewrite app_nil_r | reflexivity].
Qed.

Lemma perform_borrows h q w :
  borrows q = true ->
  exists A (body : nat -> M A),
    (forall c, preserves (only is_http_call) (body c)) /\
    (forall c, terminates (body c)) /\
    snd (perform h q w) = snd (failing (http_context body) w) /\
    (finishes (fst (perform h q w))
     <-> finishes (fst (failing (http_context body) w))).
Proof.
  assert (Hvoid : forall A (m : M A),
            snd (void m w) = snd (m w) /\
            (finishes (fst (void m w)) <-> finishes (fst (m w)))).
  { intros A m. rewrite void_unfold. cbn [fst snd]. split; [reflexivity|].
    destruct (fst (m w)); tauto. }
  assert (Hsame : forall A (m m' : M A),
            m w = m' w ->
            snd (failing m w) = snd (failing m' w) /\
            (finishes (fst (failing m w)) <-> finishes (fst (failing m' w)))).
  { intros A m m' E. rewrite !failing_unfold, E. split; [reflexivity | tauto]. }
  destruct q as [| | | |buf offset flags|buf offset flags|count offset flags|flags];
    try discriminate; intros _; cbn [perform].
  - eexists (list byte), _.
    split; [|split; [|apply (Hvoid _ (pread h buf offset flags))]].
    + intros c. apply pread_body_only.
    + intros c. apply pread_body_only.
  - set (fua := negb (Z.land flags (FLAG_FUA w) =? 0)).
    set (flush := if h_can_flush h && fua then "y" else "n").
    exists unit,
      (fun http =>
         http_putrequest http "PUT" ((h_path h ++ "?flush=") ++ flush)%string ;;
         http_putheader http "Content-Range" (content_range offset (len buf)) ;;
         http_putheader http "Content-Length" (str (len buf)) ;;
         http_endheaders http ;;
         try_except (http_send http buf) is_BrokenPipeError (fun _ => ret tt) ;;
         r <- http_getresponse http ;;
         (if negb (status r =? 200)
          then request_failed http r (CouldNotWrite offset (len buf))
          else ret tt) ;;
         response_read http r ;;
         ret tt).
    split; [|split; [|apply Hsame; reflexivity]].
    + intros c. frames.
    + intros c. terminating.
  - set (fua := negb (Z.land flags (FLAG_FUA w) =? 0)).
    set (flush := if h_can_flush h && fua then "y" else "n").
    unfold zero. destruct (negb (h_can_zero h)).
    + exists unit,
        (fun http =>
           http_putrequest http "PUT" ((h_path h ++ "?flush=") ++ flush)%string ;;
           http_putheader http "Content-Range" (content_range offset count) ;;
           http_putheader http "Content-Length" (str count) ;;
           http_endheaders http ;;
           count <- send_zeroes http count ;;
           r <- http_getresponse http ;;
           (if negb (status r =? 200)
            then request_failed http r (CouldNotWriteZeroes offset count)
            else ret tt) ;;
           response_read http r ;;
           ret tt).
      split; [|split; [|apply Hsame; reflexivity]].
      * intros c. frames.
        apply send_zeroes_preserves; try preorder. intros data. primitive.
      * intros c. terminating. apply send_zeroes_terminates.
    + set (buf := list_byte_of_string
                    (json_zero offset count (h_can_flush h && fua))).
      exists unit,
        (fun http =>
           http_request http "PATCH" (h_path h) (json_headers buf) buf ;;
           r <- http_getresponse http ;;
           (if negb (status r =? 200)
            then request_failed http r (CouldNotZero offset count)
            else ret tt) ;;
           response_read http r ;;
           ret tt).
      split; [|split; [|apply Hsame; reflexivity]].
      * intros c. frames.
      * intros c. terminating.
Qed.

(** C7. The pool conserves its connections.  Under parallel calls, whose
    steps on the queue are those of [http_context], [iter_http_pool] and
    [close_http_pool], the idle connections and the connections taken
    by the threads are at every moment the [n] connections [open] made,
    each of them once.  A read, write or zero takes one connection and puts
    it back, whether the call returns or raises.  A flush takes
    [h["connections"]] connections before it sends anything, and puts them
    all back, whether it returns or raises; with fewer connections idle it
    waits for them and sends nothing. *)
Theorem pool_conserves_connections :
  (forall n s0 s,
     Pool.initial n s0 -> Pool.reachable n s0 s ->
     (List.length (Pool.idle s) + List.length (Pool.checked_out s) = n)%nat /\
     Permutation (Pool.idle s ++ Pool.checked_out s) (Pool.idle s0) /\
     NoDup (Pool.idle s ++ Pool.checked_out s)) /\
  (forall h q w c rest,
     borrows q = true ->
     pool w = c :: rest ->
     let r := perform h q w in
     finishes (fst r) /\
     pool (snd r) = rest ++ [c] /\
     exists mid tail,
       trace (snd r)
       = trace w ++ [EvPoolGet c] ++ mid ++ [EvPoolPut c] ++ tail /\
       forallb is_http_call mid = true /\
       forallb no_pool_event tail = true) /\
  (forall h flags w,
     (h_connections h <= List.length (pool w))%nat ->
     let locked := firstn (h_connections h) (pool w) in
     let r := flush h flags w in
     List.length locked = h_connections h /\
     finishes (fst r) /\
     pool (snd r) = skipn (h_connections h) (pool w) ++ locked /\
     exists mid tail,
       trace (snd r)
       = trace w ++ map EvPoolGet locked ++ mid ++ map EvPoolPut locked ++ tail /\
       forallb is_http_call mid = true /\
       forallb no_pool_event tail = true) /\
  (forall h flags w,
     (List.length (pool w) < h_connections h)%nat ->
     let r := flush h flags w in
     fst r = Blocks /\
     calls is_http_call (trace (snd r)) = calls is_http_call (trace w)).
Proof.
  split; [|split; [|split]].
  - intros n s0 s Hi Hr.
    pose proof (reachable_conserves n s0 s Hr) as P.
    rewrite (initial_checked_out n s0 Hi), app_nil_r in P.
    destruct Hi as (Hl & Hd & _).
    split; [|split].
    + rewrite <- length_app, (Permutation_length P). exact Hl.
    + exact P.
    + eapply Permutation_NoDup; [symmetry; exact P | exact Hd].
  - intros h q w c rest Hq Hp r. subst r.
    destruct (perform_borrows h q w Hq) as (A & body & Hb & Ht & -> & Hfin).
    destruct (http_context_returns_connection A body w c rest Hp (Hb c) (Ht c))
      as (F & P & _ & mid & T & Fm).
    destruct (failing_keeps_pool A (http_context body) w)
      as (F' & _ & P' & tail & T' & Ft).
    split; [apply Hfin, F', F|]. split; [now rewrite P'|].
    exists mid, tail. split; [|split; assumption].
    rewrite T', T, <- !app_assoc. reflexivity.
  - intros h flags w Hn locked r. subst r.
    set (buf := list_byte_of_string json_flush).
    set (body := fun http =>
                   http_request http "PATCH" (h_path h) (json_headers buf) buf ;;
                   r <- http_getresponse http ;;
                   (if negb (status r =? 200)
                    then request_failed http r CouldNotFlush
                    else ret tt) ;;
                   response_read http r ;;
                   ret tt).
    change (flush h flags) with (failing (iter_http_pool h body)).
    destruct (iter_http_pool_returns_connections h body w Hn)
      as (F & P & _ & mid & T & Fm).
    { intros c. subst body. frames. }
    { intros c. subst body. terminating. }
    destruct (failing_keeps_pool unit (iter_http_pool h body) w)
      as (F' & _ & P' & tail & T' & Ft).
    split; [subst locked; apply firstn_length_le; exact Hn|].
    split; [apply F', F|]. split; [now rewrite P'|].
    exists mid, tail. split; [|split; assumption].
    rewrite T', T, <- !app_assoc. reflexivity.
  - intros h flags w Hn r. subst r.
    set (buf := list_byte_of_string json_flush).
    set (body := fun http =>
                   http_request http "PATCH" (h_path h) (json_headers buf) buf ;;
                   r <- http_getresponse http ;;
                   (if negb (status r =? 200)
                    then request_failed http r CouldNotFlush
                    else ret tt) ;;
                   response_read http r ;;
                   ret tt).
    change (flush h flags) with (failing (iter_http_pool h body)).
    destruct (iter_http_pool_waits h body w Hn) as (B & K).
    destruct (failing_keeps_pool unit (iter_http_pool h body) w)
      as (_ & E & _).
    rewrite (E B). split; [reflexivity | exact K].
Qed.

Lemma pool_conserves_connections_witness :
  pool (snd (perform (Example.handle true true 2) (PWrite [x01] 0 2)
               Example.refusing)) = [1%nat; 0%nat].
Proof.
  destruct pool_conserves_connections as (_ & H & _).
  destruct (H (Example.handle true true 2) (PWrite [x01] 0 2) Example.refusing
              0%nat [1%nat] eq_refl eq_refl) as (_ & P & _).
  exact P.
Defined.

(** * Further properties of the session setup and of the block operations *)

(** ** Disk creation *)

Lemma polled_disk_S n id :
  polled_disk (S n) id = [EvSleep 1; EvDiskGet id] ++ polled_disk n id.
Proof. reflexivity. Qed.

Lemma polled_disk_snoc n id :
  polled_disk (S n) id = polled_disk n id ++ [EvSleep 1; EvDiskGet id].
Proof.
  unfold polled_disk. replace (S n) with (n + 1)%nat by lia.
  rewrite repeat_app, concat_app. cbn. reflexivity.
Qed.

(** One round of the loop of [create_disk]. *)
Lemma create_disk_wait_step fuel id endt w :
  let w1 := set_engine (set_trace w (trace w ++ [EvSleep 1; EvDiskGet id]))
              (set_disk_get (engine w) (stl (disk_get (engine w)))) in
  create_disk_wait (S fuel) id endt w
  = match disk_get (engine w) 0%nat with
    | inl d =>
        if status_eqb (disk_status d) DiskStatus.OK then (Returns d, w1)
        else if clock w 0%nat >? endt
             then (Raises (RuntimeError (DiskTimedOut (disk_id d))),
                   set_clock w1 (stl (clock w)))
             else create_disk_wait fuel id endt (set_clock w1 (stl (clock w)))
    | inr e => (Raises e, w1)
    end.
Proof.
  cbn [create_disk_wait].
  unfold bind at 1. unfold time_sleep, log.
  unfold bind at 1.
  unfold disk_service_get, bind, log, of_result, shd. cbn.
  destruct (disk_get (engine w) 0%nat) as [d|e]; cbn.
  - destruct (status_eqb (disk_status d) DiskStatus.OK); cbn.
    + rewrite <- app_assoc. reflexivity.
    + unfold time_time, shd. cbn.
      destruct (clock w 0%nat >? endt); cbn; rewrite <- app_assoc; reflexivity.
  - rewrite <- app_assoc. reflexivity.
Qed.

Lemma create_disk_wait_skip k : forall fuel id endt w,
  (forall i, (i < k)%nat ->
     exists d, disk_get (engine w) i = inl d /\
               disk_status d <> DiskStatus.OK /\ clock w i <= endt) ->
  exists w',
    create_disk_wait (k + fuel) id endt w = create_disk_wait fuel id endt w' /\
    trace w' = trace w ++ polled_disk k id /\
    (forall n, disk_get (engine w') n = disk_get (engine w) (n + k)%nat) /\
    (forall n, clock w' n = clock w (n + k)%nat).
Proof.
  induction k as [|k IH]; intros fuel id endt w H.
  - exists w. cbn. rewrite app_nil_r.
    repeat split; intros; now rewrite ?Nat.add_0_r.
  - destruct (H 0%nat ltac:(lia)) as (d & Hg & Hs & Hc).
    cbn [Nat.add]. rewrite create_disk_wait_step. cbv zeta. rewrite Hg.
    destruct (status_eqb (disk_status d) DiskStatus.OK) eqn:Hok.
    { apply status_eqb_OK in Hok. contradiction. }
    destruct (Z.gtb_spec (clock w 0%nat) endt); [lia|].
    match goal with
    | |- context [create_disk_wait (k + fuel) id endt ?w1] =>
        destruct (IH fuel id endt w1) as (w' & E & T & G & C)
    end.
    { intros i Hi. destruct (H (S i) ltac:(lia)) as (di & ? & ? & ?).
      exists di. cbn. unfold stl. auto. }
    exists w'. split; [exact E|]. split; [|split].
    + rewrite T, polled_disk_S. cbn [trace set_clock set_engine set_trace].
      rewrite <- app_assoc. reflexivity.
    + intros n. rewrite G. cbn. unfold stl. now rewrite Nat.add_succ_r.
    + intros n. rewrite C. cbn. unfold stl. now rewrite Nat.add_succ_r.
Qed.

(** X1. [create_disk] adds the disk and then polls it once a second.  After
    any number [k] of polls that found it not [OK] in time, the next answer
    decides: a disk whose status is [OK] is returned, also when the deadline
    has passed; another status after the deadline raises the time-out error
    naming the disk; an error of the poll is raised as it is.  In each case
    the poll that decided is the last call made. *)
Theorem create_disk_polls_until_ok :
  forall (fuel k : nat) (w : World) (d0 : Disk),
    (k < fuel)%nat ->
    disk_add (engine w) = inl d0 ->
    disk_not_ready k w ->
    let r := create_disk fuel w in
    let seen := trace w ++ [EvDiskAdd (disk_id d0)]
                  ++ polled_disk (S k) (disk_id d0) in
    match disk_get (engine w) k with
    | inl d =>
        (disk_status d = DiskStatus.OK ->
           fst r = Returns d /\ trace (snd r) = seen) /\
        (disk_status d <> DiskStatus.OK ->
         clock w (S k) > clock w 0%nat + timeout ->
           fst r = Raises (RuntimeError (DiskTimedOut (disk_id d))) /\
           trace (snd r) = seen)
    | inr e => fst r = Raises e /\ trace (snd r) = seen
    end.
Proof.
  intros fuel k w d0 Hk Ha Hn r seen.
  set (id := disk_id d0) in *.
  set (w0 := set_clock (set_trace w (trace w ++ [EvDiskAdd id])) (stl (clock w))).
  assert (E0 : r = create_disk_wait fuel id (clock w 0%nat + timeout) w0).
  { subst r. unfold create_disk, bind, disks_service_add, bind, log, ret,
      time_time, shd. rewrite Ha. reflexivity. }
  destruct (create_disk_wait_skip k (fuel - k) id (clock w 0%nat + timeout) w0)
    as (w' & E & T & G & C).
  { intros i Hi. destruct (Hn i Hi) as (d & ? & ? & ?). exists d. auto. }
  replace (k + (fuel - k))%nat with fuel in E by lia.
  destruct (fuel - k)%nat as [|fuel'] eqn:Hf; [lia|].
  rewrite create_disk_wait_step in E. cbv zeta in E.
  rewrite G, C in E. cbn [Nat.add] in E.
  change (disk_get (engine w0)) with (disk_get (engine w)) in E.
  change (clock w0 k) with (clock w (S k)) in E.
  assert (Ts : trace w' ++ [EvSleep 1; EvDiskGet id] = seen).
  { subst seen. rewrite T, polled_disk_snoc. cbn. now rewrite <- !app_assoc. }
  clearbody r seen. subst r. rewrite E. clear E.
  destruct (disk_get (engine w) k) as [d|e].
  - destruct (status_eqb (disk_status d) DiskStatus.OK) eqn:Hok.
    + split; [intros _; split; [reflexivity | exact Ts]|].
      apply status_eqb_OK in Hok. contradiction.
    + split.
      * intros Hs. apply status_eqb_OK in Hs. congruence.
      * intros _ Hc.
        destruct (Z.gtb_spec (clock w (S k)) (clock w 0%nat + timeout)); [|lia].
        split; [reflexivity | exact Ts].
  - split; [reflexivity | exact Ts].
Qed.

Lemma create_disk_polls_until_ok_witness :
  fst (create_disk 1 Example.fresh) = Returns (Example.disk DiskStatus.OK) /\
  trace (snd (create_disk 1 Example.fresh))
  = [EvDiskAdd "d-1"; EvSleep 1; EvDiskGet "d-1"].
Proof.
  pose proof (create_disk_polls_until_ok 1 0 Example.fresh
                (Example.disk DiskStatus.LOCKED)) as H.
  cbv zeta in H.
  apply H; [lia | reflexivity | intros i Hi; lia | reflexivity].
Defined.

Lemma create_disk_wait_returns fuel : forall id endt w d w',
  create_disk_wait fuel id endt w = (Returns d, w') ->
  disk_status d = DiskStatus.OK /\
  exists n, disk_get (engine w) n = inl d /\
            trace w' = trace w ++ polled_disk (S n) id.
Proof.
  induction fuel as [|fuel IH]; intros id endt w d w' H; [discriminate|].
  rewrite create_disk_wait_step in H. cbv zeta in H.
  destruct (disk_get (engine w) 0%nat) as [d1|e] eqn:Hg; [|discriminate].
  destruct (status_eqb (disk_status d1) DiskStatus.OK) eqn:Hok.
  - injection H as <- <-. split; [now apply status_eqb_OK|].
    exists 0%nat. split; [exact Hg|]. cbn. reflexivity.
  - destruct (clock w 0%nat >? endt); [discriminate|].
    apply IH in H as (Hs & n & Hn & Ht). split; [exact Hs|].
    exists (S n). split; [exact Hn|].
    rewrite Ht, (polled_disk_S (S n)). cbn [trace set_clock set_engine set_trace].
    now rewrite <- app_assoc.
Qed.

(** X2. Whatever the engine answers, a disk that [create_disk] returns has
    status [OK]: it is the answer of the last poll, the polls are made for
    the identifier of the disk that was added, and at least one poll is
    made. *)
Theorem create_disk_returns_ok_disk :
  forall (fuel : nat) (w w' : World) (d : Disk),
    create_disk fuel w = (Returns d, w') ->
    disk_status d = DiskStatus.OK /\
    exists d0 n,
      disk_add (engine w) = inl d0 /\
      disk_get (engine w) n = inl d /\
      trace w' = trace w ++ [EvDiskAdd (disk_id d0)]
                   ++ polled_disk (S n) (disk_id d0).
Proof.
  intros fuel w w' d H.
  unfold create_disk, bind, disks_service_add, bind, log, ret, time_time, shd
    in H.
  destruct (disk_add (engine w)) as [d0|e] eqn:Ha; [|discriminate].
  cbn in H. apply create_disk_wait_returns in H as (Hs & n & Hn & Ht).
  split; [exact Hs|]. exists d0, n. split; [reflexivity|].
  split; [exact Hn|]. rewrite Ht. cbn [trace set_clock set_engine set_trace].
  now rewrite <- app_assoc.
Qed.

Lemma create_disk_returns_ok_disk_witness :
  disk_status (Example.disk DiskStatus.OK) = DiskStatus.OK /\
  exists d0 n,
    disk_add (engine Example.fresh) = inl d0 /\
    disk_get (engine Example.fresh) n = inl (Example.disk DiskStatus.OK) /\
    trace (snd (create_disk 1 Example.fresh))
    = trace Example.fresh ++ [EvDiskAdd (disk_id d0)]
        ++ polled_disk (S n) (disk_id d0).
Proof.
  apply (create_disk_returns_ok_disk 1 Example.fresh
           (snd (create_disk 1 Example.fresh))).
  vm_compute. reflexivity.
Defined.

(** ** Transfer creation *)

Lemma cancel_and_raise_never_returns A id e w (a : A) w' :
  (transfer_service_cancel id ;; raise e) w <> (Returns a, w').
Proof.
  unfold transfer_service_cancel, bind, log, of_error, raise, ret. cbn.
  destruct (shd (transfer_cancel (engine w))); discriminate.
Qed.

(** One round of the loop of [create_transfer]. *)
Lemma create_transfer_wait_step fuel id endt tr w :
  let w1 := set_engine (set_trace w (trace w ++ [EvSleep 1; EvTransferGet id]))
              (set_transfer_get (engine w) (stl (transfer_get (engine w)))) in
  create_transfer_wait (S fuel) id endt tr w
  = match transfer_get (engine w) 0%nat with
    | inr e => (Raises (poll_error e tr), w1)
    | inl t =>
        if phase_eqb (phase t) FINISHED_FAILURE then
          (Raises (RuntimeError (TransferFailed (transfer_id t))), w1)
        else if phase_eqb (phase t) PAUSED_SYSTEM then
          (transfer_service_cancel id ;;
           raise (RuntimeError (TransferPaused (transfer_id t)))) w1
        else if phase_eqb (phase t) TRANSFERRING then (Returns t, w1)
        else if negb (phase_eqb (phase t) INITIALIZING) then
          (transfer_service_cancel id ;;
           raise (RuntimeError (UnexpectedPhase (transfer_id t) (phase t)))) w1
        else if clock w 0%nat >? endt then
          (transfer_service_cancel id ;;
           raise (RuntimeError (TransferTimedOut (transfer_id t))))
            (set_clock w1 (stl (clock w)))
        else create_transfer_wait fuel id endt t (set_clock w1 (stl (clock w)))
    end.
Proof.
  cbn [create_transfer_wait].
  unfold bind at 1. unfold time_sleep, log.
  unfold bind at 1.
  unfold try_except, transfer_service_get, bind at 1 2, log, of_result, shd.
  cbn [fst snd trace engine set_trace set_engine].
  rewrite <- app_assoc. cbn [app].
  destruct (transfer_get (engine w) 0%nat) as [t|e]; cbn [ret raise].
  - destruct (phase_eqb (phase t) FINISHED_FAILURE); [reflexivity|].
    destruct (phase_eqb (phase t) PAUSED_SYSTEM); [reflexivity|].
    destruct (phase_eqb (phase t) TRANSFERRING); [reflexivity|].
    destruct (negb (phase_eqb (phase t) INITIALIZING)); [reflexivity|].
    unfold bind at 1, time_time, shd. cbn [clock set_engine set_trace].
    destruct (clock w 0%nat >? endt); reflexivity.
  - unfold poll_error. destruct (is_NotFoundError e); reflexivity.
Qed.

Lemma create_transfer_wait_skip_last k : forall fuel id endt tr w,
  (forall i, (i < k)%nat ->
     exists t, transfer_get (engine w) i = inl t /\
               phase t = INITIALIZING /\ clock w i <= endt) ->
  exists w',
    create_transfer_wait (k + fuel) id endt tr w
    = create_transfer_wait fuel id endt (last_seen k tr w) w' /\
    trace w' = trace w ++ polled k id /\
    (forall n, transfer_get (engine w') n = transfer_get (engine w) (n + k)%nat).
Proof.
  induction k as [|k IH]; intros fuel id endt tr w H.
  - exists w. cbn. rewrite app_nil_r.
    repeat split; intros; now rewrite ?Nat.add_0_r.
  - destruct (H 0%nat ltac:(lia)) as (t & Hg & Hp & Hc).
    destruct (create_transfer_wait_again (k + fuel) id endt tr t w Hg Hp Hc)
      as (w1 & E1 & T1 & G1 & C1 & _).
    destruct (IH fuel id endt t w1) as (w' & E & T & G).
    { intros i Hi. destruct (H (S i) ltac:(lia)) as (ti & ? & ? & ?).
      exists ti. rewrite G1, C1. auto. }
    exists w'. split; [|split].
    + cbn [Nat.add]. rewrite E1, E. f_equal.
      destruct k as [|j]; cbn [last_seen].
      * now rewrite Hg.
      * rewrite G1. destruct (H (S j) ltac:(lia)) as (tj & -> & _). reflexivity.
    + rewrite T, T1, polled_S, <- app_assoc. reflexivity.
    + intros n. now rewrite G, G1, Nat.add_succ_r.
Qed.

(** X3. When a poll of [create_transfer] raises, after any number [k] of
    polls that saw [INITIALIZING] in time, the transfer is not cancelled and
    the failed poll is the last call made.  [NotFoundError] becomes the
    error that the transfer was removed, naming the transfer as last seen;
    any other error is raised as it is. *)
Theorem create_transfer_poll_raises :
  forall (fuel k : nat) (disk : Disk) (host : option Host) (w : World)
         (t0 : Transfer) (e : exn),
    (k < fuel)%nat ->
    transfer_add (engine w) = inl t0 ->
    initializing k w ->
    transfer_get (engine w) k = inr e ->
    let r := create_transfer fuel disk host w in
    let fmt := if supports_format (engine w) then Some DiskFormat.RAW else None in
    fst r = Raises (poll_error e (last_seen k t0 w)) /\
    trace (snd r)
    = trace w ++ [EvTransferAdd (disk_id disk) host fmt]
        ++ polled (S k) (transfer_id t0) /\
    calls is_cancel (trace (snd r)) = calls is_cancel (trace w).
Proof.
  intros fuel k disk host w t0 e Hk Ha Hi Hg r fmt.
  set (id := transfer_id t0).
  set (w0 := set_clock (set_trace w (trace w ++ [EvTransferAdd (disk_id disk) host fmt]))
               (stl (clock w))).
  assert (E0 : r = create_transfer_wait fuel id (clock w 0%nat + timeout) t0 w0).
  { subst r. unfold create_transfer, bind, transfer_supports_format,
      transfers_service_add, bind, log, of_result, time_time, shd. cbn.
    rewrite Ha. reflexivity. }
  destruct (create_transfer_wait_skip_last k (fuel - k) id
              (clock w 0%nat + timeout) t0 w0) as (w' & E & T & G).
  { intros i Hlt. destruct (Hi i Hlt) as (ti & ? & ? & ?). exists ti. auto. }
  replace (k + (fuel - k))%nat with fuel in E by lia.
  destruct (fuel - k)%nat as [|fuel'] eqn:Hf; [lia|].
  rewrite create_transfer_wait_step in E. cbv zeta in E.
  rewrite G in E. cbn [Nat.add] in E.
  change (transfer_get (engine w0)) with (transfer_get (engine w)) in E.
  rewrite Hg in E.
  change (last_seen k t0 w0) with (last_seen k t0 w) in E.
  clearbody r. subst r. rewrite E. cbn [fst snd].
  assert (Ts : trace w' ++ [EvSleep 1; EvTransferGet id]
               = trace w ++ [EvTransferAdd (disk_id disk) host fmt]
                   ++ polled (S k) id).
  { rewrite T. cbn [trace w0 set_clock set_trace].
    replace (S k) with (k + 1)%nat by lia.
    unfold polled. rewrite repeat_app, concat_app. cbn.
    now rewrite <- !app_assoc. }
  split; [reflexivity|]. cbn [trace set_engine set_trace].
  split; [exact Ts|].
  rewrite Ts, !calls_app, calls_polled by reflexivity.
  unfold calls. cbn. lia.
Qed.

Lemma create_transfer_poll_raises_witness :
  fst (create_transfer 3 (Example.disk DiskStatus.OK) None
         (Example.world (scons (inl (Example.transfer INITIALIZING))
                           (const (inr NotFoundError)))
            (const (inr (OSError "unused"))) 0))
  = Raises (RuntimeError (TransferRemoved "t-1")).
Proof.
  apply (create_transfer_poll_raises 3 1 (Example.disk DiskStatus.OK) None
           (Example.world (scons (inl (Example.transfer INITIALIZING))
                             (const (inr NotFoundError)))
              (const (inr (OSError "unused"))) 0)
           (Example.transfer INITIALIZING) NotFoundError).
  - lia.
  - reflexivity.
  - intros i Hi. exists (Example.transfer INITIALIZING).
    assert (i = 0)%nat as -> by lia.
    split; [reflexivity|]. split; [reflexivity|]. vm_compute. discriminate.
  - reflexivity.
Defined.

Lemma create_transfer_wait_returns fuel : forall id endt tr w t w',
  create_transfer_wait fuel id endt tr w = (Returns t, w') ->
  phase t = TRANSFERRING /\
  exists n, transfer_get (engine w) n = inl t /\
            trace w' = trace w ++ polled (S n) id.
Proof.
  induction fuel as [|fuel IH]; intros id endt tr w t w' H; [discriminate|].
  rewrite create_transfer_wait_step in H. cbv zeta in H.
  destruct (transfer_get (engine w) 0%nat) as [t1|e] eqn:Hg; [|discriminate].
  destruct (phase_eqb (phase t1) FINISHED_FAILURE); [discriminate|].
  destruct (phase_eqb (phase t1) PAUSED_SYSTEM);
    [now apply cancel_and_raise_never_returns in H|].
  destruct (phase_eqb (phase t1) TRANSFERRING) eqn:Hp.
  - injection H as <- <-. split.
    + destruct (phase t1); try discriminate; reflexivity.
    + exists 0%nat. split; [exact Hg | reflexivity].
  - destruct (negb (phase_eqb (phase t1) INITIALIZING));
      [now apply cancel_and_raise_never_returns in H|].
    destruct (clock w 0%nat >? endt);
      [now apply cancel_and_raise_never_returns in H|].
    apply IH in H as (Hs & n & Hn & Ht). split; [exact Hs|].
    exists (S n). split; [exact Hn|].
    rewrite Ht, (polled_S (S n)). cbn [trace set_clock set_engine set_trace].
    now rewrite <- app_assoc.
Qed.

(** X4. Whatever the engine answers, a transfer that [create_transfer]
    returns is in phase [TRANSFERRING]: it is the answer of the last poll,
    the polls are made for the identifier of the transfer that was added
    for the disk, and no cancel call was made. *)
Theorem create_transfer_returns_transferring :
  forall (fuel : nat) (disk : Disk) (host : option Host) (w w' : World)
         (t : Transfer),
    create_transfer fuel disk host w = (Returns t, w') ->
    phase t = TRANSFERRING /\
    calls is_cancel (trace w') = calls is_cancel (trace w) /\
    exists t0 n,
      transfer_add (engine w) = inl t0 /\
      transfer_get (engine w) n = inl t /\
      trace w'
      = trace w
          ++ [EvTransferAdd (disk_id disk) host
                (if supports_format (engine w) then Some DiskFormat.RAW
                 else None)]
          ++ polled (S n) (transfer_id t0).
Proof.
  intros fuel disk host w w' t H.
  unfold create_transfer, bind, transfer_supports_format,
    transfers_service_add, bind, log, of_result, time_time, shd in H.
  cbn in H.
  destruct (transfer_add (engine w)) as [t0|e] eqn:Ha; [|discriminate].
  cbn in H. apply create_transfer_wait_returns in H as (Hs & n & Hn & Ht).
  cbn [trace engine set_clock set_engine set_trace] in Hn, Ht.
  rewrite <- app_assoc in Ht.
  split; [exact Hs|]. split.
  - rewrite Ht, !calls_app, calls_polled by reflexivity.
    unfold calls. cbn. lia.
  - exists t0, n. repeat split; assumption.
Qed.

Lemma create_transfer_returns_transferring_witness :
  phase (Example.transfer TRANSFERRING) = TRANSFERRING /\
  calls is_cancel
    (trace (snd (create_transfer 1 (Example.disk DiskStatus.OK) None
                   Example.fresh)))
  = calls is_cancel (trace Example.fresh).
Proof.
  destruct (create_transfer_returns_transferring 1 (Example.disk DiskStatus.OK)
              None Example.fresh
              (snd (create_transfer 1 (Example.disk DiskStatus.OK) None
                      Example.fresh))
              (Example.transfer TRANSFERRING)) as (H1 & H2 & _).
  - vm_compute. reflexivity.
  - split; [exact H1 | exact H2].
Defined.

(** ** Finalization: the transfer is still there *)

(** The round of the loop of [finalize_transfer] that finds the transfer. *)
Lemma finalize_transfer_wait_found fuel id start tr disk t w :
  transfer_get (engine w) 0%nat = inl t ->
  let w1 := set_engine (set_trace w (trace w ++ [EvSleep 1; EvTransferGet id]))
              (set_transfer_get (engine w) (stl (transfer_get (engine w)))) in
  finalize_transfer_wait (S fuel) id start tr disk w
  = if phase_eqb (phase t) FINISHED_SUCCESS then (Returns tt, w1)
    else if phase_eqb (phase t) FINISHED_FAILURE then
      (Raises (RuntimeError (TransferFailed (transfer_id t))), w1)
    else if phase_eqb (phase t) PAUSED_SYSTEM then
      (Raises (RuntimeError (TransferPaused (transfer_id t))), w1)
    else if clock w 0%nat >? start + timeout then
      (Raises (RuntimeError (FinalizeTimedOut (transfer_id t) (phase t))),
       set_clock w1 (stl (clock w)))
    else finalize_transfer_wait fuel id start t disk
           (set_clock w1 (stl (clock w))).
Proof.
  intros Hg w1. subst w1.
  cbn [finalize_transfer_wait].
  unfold bind at 1. unfold time_sleep, log.
  unfold try_except_else, transfer_service_get, bind at 1, log, of_result, shd.
  cbn [fst snd trace engine set_trace set_engine].
  rewrite <- app_assoc. cbn [app]. rewrite Hg. cbn [ret].
  destruct (phase_eqb (phase t) FINISHED_SUCCESS); [reflexivity|].
  destruct (phase_eqb (phase t) FINISHED_FAILURE); [reflexivity|].
  destruct (phase_eqb (phase t) PAUSED_SYSTEM); [reflexivity|].
  unfold bind at 1, time_time, shd. cbn [clock set_engine set_trace].
  destruct (clock w 0%nat >? start + timeout); reflexivity.
Qed.

(** X5. While [finalize_transfer] finds the transfer, after any number [k]
    of polls that saw it unfinished in time, the phase seen next decides:
    [FINISHED_SUCCESS] returns; [FINISHED_FAILURE] and [PAUSED_SYSTEM] raise
    their errors; any other phase after the deadline raises the time-out
    error that carries this phase.  In each case the poll is the last call
    made: the disk is not looked at and the transfer is not cancelled. *)
Theorem finalize_transfer_phase_rules :
  forall (fuel k : nat) (transfer : Transfer) (disk : string) (w : World)
         (t : Transfer),
    (k < fuel)%nat ->
    transfer_finalize (engine w) = None ->
    finalizing k w ->
    transfer_get (engine w) k = inl t ->
    let id := transfer_id transfer in
    let r := finalize_transfer fuel transfer disk w in
    let seen := trace w ++ [EvTransferFinalize id] ++ polled (S k) id in
    calls is_cancel seen = calls is_cancel (trace w) /\
    calls is_disk_get seen = calls is_disk_get (trace w) /\
    (phase t = FINISHED_SUCCESS ->
       fst r = Returns tt /\ trace (snd r) = seen) /\
    (phase t = FINISHED_FAILURE ->
       fst r = Raises (RuntimeError (TransferFailed (transfer_id t))) /\
       trace (snd r) = seen) /\
    (phase t = PAUSED_SYSTEM ->
       fst r = Raises (RuntimeError (TransferPaused (transfer_id t))) /\
       trace (snd r) = seen) /\
    (phase t <> FINISHED_SUCCESS -> phase t <> FINISHED_FAILURE ->
     phase t <> PAUSED_SYSTEM ->
     clock w (S k) > clock w 0%nat + timeout ->
       fst r = Raises (RuntimeError
                         (FinalizeTimedOut (transfer_id t) (phase t))) /\
       trace (snd r) = seen).
Proof.
  intros fuel k transfer disk w t Hk Hf Hi Hg id r seen.
  assert (Hc1 : calls is_cancel seen = calls is_cancel (trace w)).
  { subst seen. rewrite !calls_app, calls_polled by reflexivity.
    unfold calls. cbn. lia. }
  assert (Hc2 : calls is_disk_get seen = calls is_disk_get (trace w)).
  { subst seen. rewrite !calls_app, calls_polled by reflexivity.
    unfold calls. cbn. lia. }
  split; [exact Hc1|]. split; [exact Hc2|]. clear Hc1 Hc2.
  set (w0 := set_trace (set_clock w (stl (clock w)))
               (trace w ++ [EvTransferFinalize id])).
  set (start := clock w 0%nat).
  assert (E0 : r = (finalize_transfer_wait fuel id start transfer disk ;;
                    now <- time_time ;; ret tt) w0).
  { subst r. unfold finalize_transfer. unfold bind at 1.
    unfold time_time at 1. cbn [shd]. unfold bind at 1.
    unfold transfer_service_finalize, bind, log, of_error. cbn.
    rewrite Hf. reflexivity. }
  destruct (finalize_transfer_wait_skip k (fuel - k) id start transfer disk w0)
    as (tr' & w' & E & T & G & C & _).
  { intros i Hlt. destruct (Hi i Hlt) as (ti & ? & ? & ? & ? & ?).
    exists ti. auto. }
  replace (k + (fuel - k))%nat with fuel in E by lia.
  destruct (fuel - k)%nat as [|fuel'] eqn:Hfuel; [lia|].
  assert (Hg' : transfer_get (engine w') 0%nat = inl t)
    by (rewrite G; exact Hg).
  rewrite (finalize_transfer_wait_found fuel' id start tr' disk t w' Hg') in E.
  cbv zeta in E. rewrite C in E. cbn [Nat.add] in E.
  change (clock w0 k) with (clock w (S k)) in E. fold start in E.
  assert (Ts : trace w' ++ [EvSleep 1; EvTransferGet id] = seen).
  { subst seen. rewrite T. cbn [trace w0 set_clock set_trace].
    replace (S k) with (k + 1)%nat by lia.
    unfold polled. rewrite repeat_app, concat_app. cbn.
    now rewrite <- !app_assoc. }
  clearbody r seen. subst r. unfold bind. rewrite E. clear E.
  assert (Hb : forall p, phase_eqb (phase t) p = true -> phase t = p).
  { intros p. destruct (phase t), p; cbn; try discriminate; try reflexivity.
    intros Hs. apply String.eqb_eq in Hs. now subst. }
  assert (Hr : forall p, phase_eqb p p = true).
  { intros []; cbn; try reflexivity. apply String.eqb_refl. }
  split; [|split; [|split]].
  - intros Hp. rewrite Hp. cbn. split; [reflexivity | exact Ts].
  - intros Hp. rewrite Hp. cbn. split; [reflexivity | exact Ts].
  - intros Hp. rewrite Hp. cbn. split; [reflexivity | exact Ts].
  - intros H1 H2 H3 Hc.
    destruct (phase_eqb (phase t) FINISHED_SUCCESS) eqn:B1;
      [apply Hb in B1; contradiction|].
    destruct (phase_eqb (phase t) FINISHED_FAILURE) eqn:B2;
      [apply Hb in B2; contradiction|].
    destruct (phase_eqb (phase t) PAUSED_SYSTEM) eqn:B3;
      [apply Hb in B3; contradiction|].
    destruct (Z.gtb_spec (clock w (S k)) (start + timeout)); [|lia].
    cbn. split; [reflexivity | exact Ts].
Qed.

Lemma finalize_transfer_phase_rules_witness :
  fst (finalize_transfer 5 (Example.transfer TRANSFERRING) "d-1"
         Example.finished) = Returns tt.
Proof.
  destruct (finalize_transfer_phase_rules 5 0 (Example.transfer TRANSFERRING)
              "d-1" Example.finished (Example.transfer FINISHED_SUCCESS))
    as (_ & _ & H & _).
  - lia.
  - reflexivity.
  - intros i Hi. lia.
  - reflexivity.
  - apply H. reflexivity.
Defined.

(** ** The transport factory without a local socket *)



(** ** Building the pool *)

Lemma create_http_with_socket url unix_socket path w :
  truthy unix_socket = Some path ->
  create_http url unix_socket w
  = match unix_init (network w) 0%nat with
    | None =>
        (Returns (next_conn w),
         snd (new_conn (UnixHTTPConnection path GLOBAL_DEFAULT_TIMEOUT)
                (unix_init_done w)))
    | Some _ => create_http url None (unix_init_done w)
    end.
Proof.
  intros Hp. unfold create_http. rewrite Hp.
  unfold bind at 1. unfold try_except, bind, UnixHTTPConnection_init, shd.
  fold (unix_init_done w).
  destruct (unix_init (network w) 0%nat); reflexivity.
Qed.

Lemma create_http_without_socket url unix_socket w :
  truthy unix_socket = None ->
  create_http url unix_socket w = create_http url None w.
Proof. intros Hu. unfold create_http. rewrite Hu. reflexivity. Qed.

(** For an http or https URL [create_http] always makes a connection
    object, with or without a local socket. *)
Lemma create_http_makes url unix_socket w :
  scheme url = "https" \/ scheme url = "http" ->
  exists t w',
    create_http url unix_socket w = (Returns (next_conn w), w') /\
    next_conn w' = S (next_conn w) /\
    (forall i, heap w' i
               = if Nat.eqb i (next_conn w) then unconnected t else heap w i) /\
    trace w' = trace w /\
    pool w' = pool w /\
    (truthy unix_socket = None -> is_network_transport t = true).
Proof.
  intros Hs.
  assert (Hn : forall v, exists t w',
             create_http url None v = (Returns (next_conn v), w') /\
             next_conn w' = S (next_conn v) /\
             (forall i, heap w' i
                        = if Nat.eqb i (next_conn v) then unconnected t
                          else heap v i) /\
             trace w' = trace v /\ pool w' = pool v /\
             is_network_transport t = true).
  { intros v.
    unfold create_http, truthy, bind, ret, get_params, new_conn, unconnected.
    destruct Hs as [-> | ->]; cbn; eexists; eexists;
      repeat split; reflexivity. }
  destruct (truthy unix_socket) as [path|] eqn:Hu.
  - rewrite (create_http_with_socket url unix_socket path w Hu).
    destruct (unix_init (network w) 0%nat) as [e|].
    + destruct (Hn (unix_init_done w)) as (t & w' & E & N & Hh & T & P & _).
      exists t, w'. repeat split; try assumption. discriminate.
    + exists (UnixHTTPConnection path GLOBAL_DEFAULT_TIMEOUT). eexists.
      split; [reflexivity|]. unfold unconnected. cbn.
      repeat split; try reflexivity. discriminate.
  - rewrite (create_http_without_socket url unix_socket w Hu).
    destruct (Hn w) as (t & w' & E & N & Hh & T & P & Nt).
    exists t, w'. repeat split; auto.
Qed.

Lemma fill_pool_fills url unix_socket :
  scheme url = "https" \/ scheme url = "http" ->
  forall count w,
  exists w',
    fill_pool count url unix_socket w = (Returns tt, w') /\
    pool w' = pool w ++ seq (next_conn w) count /\
    trace w' = trace w ++ map EvPoolPut (seq (next_conn w) count) /\
    (forall i, (i < next_conn w)%nat -> heap w' i = heap w i) /\
    (forall i, (next_conn w <= i < next_conn w + count)%nat ->
       sock (heap w' i) = None /\
       (truthy unix_socket = None ->
        is_network_transport (transport (heap w' i)) = true)).
Proof.
  intros Hs. induction count as [|count IH]; intros w.
  - exists w. cbn. rewrite !app_nil_r. repeat split; try reflexivity; lia.
  - destruct (create_http_makes url unix_socket w Hs)
      as (t & w1 & E & N & Hh & T & P & Nt).
    cbn [fill_pool]. unfold bind at 1. rewrite E.
    unfold bind at 1. unfold pool_put at 1.
    match goal with
    | |- context [fill_pool count url unix_socket ?v] =>
        destruct (IH v) as (w' & E' & P' & T' & Old & New); set (w2 := v) in *
    end.
    assert (N2 : next_conn w2 = S (next_conn w)) by exact N.
    assert (H2 : forall i, heap w2 i = heap w1 i) by reflexivity.
    exists w'. split; [exact E'|]. rewrite N2 in *.
    split; [|split; [|split]].
    + rewrite P'. subst w2. cbn [pool set_trace set_pool]. rewrite P.
      cbn [seq]. now rewrite <- app_assoc.
    + rewrite T'. subst w2. cbn [trace set_trace set_pool]. rewrite T.
      cbn [seq map]. now rewrite <- app_assoc.
    + intros i Hi. rewrite Old by lia. rewrite H2, Hh.
      destruct (Nat.eqb_spec i (next_conn w)); [lia | reflexivity].
    + intros i Hi.
      destruct (Nat.eq_dec i (next_conn w)) as [-> | Hne].
      * rewrite Old by lia. rewrite H2, Hh, Nat.eqb_refl.
        split; [reflexivity | exact Nt].
      * apply New. lia.
Qed.



(** ** The OPTIONS request *)




(** ** Opening the session *)

Lemma create_disk_wait_local fuel : forall id endt,
  preserves (same local_state) (create_disk_wait fuel id endt).
Proof.
  induction fuel as [|fuel IH]; intros id endt; cbn [create_disk_wait]; frames.
  apply IH.
Qed.

Lemma create_disk_local fuel : preserves (same local_state) (create_disk fuel).
Proof. unfold create_disk. frames. apply create_disk_wait_local. Qed.

Lemma create_transfer_wait_local fuel : forall id endt tr,
  preserves (same local_state) (create_transfer_wait fuel id endt tr).
Proof.
  induction fuel as [|fuel IH]; intros id endt tr;
    cbn [create_transfer_wait]; frames.
  apply IH.
Qed.

Lemma create_transfer_local fuel disk host :
  preserves (same local_state) (create_transfer fuel disk host).
Proof. unfold create_transfer. frames. apply create_transfer_wait_local. Qed.

Lemma create_disk_wait_no_cancel fuel : forall id endt,
  preserves (quiet not_cancel) (create_disk_wait fuel id endt).
Proof.
  induction fuel as [|fuel IH]; intros id endt; cbn [create_disk_wait]; frames.
  apply IH.
Qed.

Lemma create_disk_no_cancel fuel : preserves (quiet not_cancel) (create_disk fuel).
Proof. unfold create_disk. frames. apply create_disk_wait_no_cancel. Qed.

Lemma find_host_pure w : snd (find_host w) = w.
Proof.
  unfold find_host, bind, of_result, ret, raise.
  destruct (vdsm_id (engine w)); [|reflexivity].
  destruct (data_centers (engine w)) as [[|dc l]|e]; try reflexivity.
  destruct (hosts (engine w)) as [[|hst l']|e]; reflexivity.
Qed.

Lemma open_unfold fuel readonly :
  open fuel readonly
  = (p <- get_params ;;
     host <- (if rhv_direct p then find_host else ret None) ;;
     disk <- create_disk fuel ;;
     transfer <- create_transfer fuel disk host ;;
     made <- try_except (open_setup transfer host) (fun _ => true)
               (fun e => cancel_transfer transfer ;; raise e) ;;
     let (destination_url, options) := made in
     (fun w => (Returns tt, set_failed w false)) ;;
     connections <- pool_qsize ;;
     ret {| h_can_flush := o_can_flush options;
            h_can_zero := o_can_zero options;
            h_disk_id := disk_id disk;
            h_transfer := transfer;
            h_connections := connections;
            h_path := url_path destination_url |}).
Proof. reflexivity. Qed.

Lemma create_http_returns_scheme url w c w' :
  create_http url None w = (Returns c, w') ->
  scheme url = "https" \/ scheme url = "http".
Proof.
  unfold create_http, truthy, bind, ret, get_params, raise.
  destruct (String.eqb_spec (scheme url) "https") as [H|_]; [auto|].
  destruct (String.eqb_spec (scheme url) "http") as [H|_]; [auto|].
  discriminate.
Qed.

Lemma get_options_same_next_conn http url :
  preserves (same (fun w => (next_conn w, pool w))) (get_options http url).
Proof. unfold get_options. frames. Qed.

(** What the [try] block of [open] leaves when it returns. *)
Lemma open_setup_returns transfer host w url options w' :
  open_setup transfer host w = (Returns (url, options), w') ->
  let first := next_conn w in
  pool w' = seq (S first) (pool_count options) /\
  (forall c, In c (pool w') -> sock (heap w' c) = None) /\
  sock (heap w' first) = None /\
  exists before,
    trace w' = before ++ [EvHttpClose first] ++ map EvPoolPut (pool w').
Proof.
  intros H first. unfold open_setup in H.
  apply bind_returns in H as (url0 & wa & Ha & H).
  assert (wa = w) as ->.
  { unfold parse_transfer_url, bind, get_params, ret, raise in Ha.
    destruct (rhv_direct (params w));
      [destruct (transfer_url transfer)|]; congruence. }
  apply bind_returns in H as (http & wb & Hb & H).
  pose proof (create_http_returns_scheme _ _ _ _ Hb) as Hs.
  destruct (create_http_makes url0 None w Hs) as (t & wb' & Eb & Nb & _).
  rewrite Eb in Hb. injection Hb as <- <-.
  apply bind_returns in H as (opts & wc & Hc & H).
  pose proof (get_options_same_next_conn (next_conn w) url0 wb') as Sc.
  rewrite Hc in Sc. unfold same in Sc. cbn [snd] in Sc.
  injection Sc as Nc Pc.
  apply bind_returns in H as ([] & wd & Hd & H).
  unfold http_close, bind, log, set_sock in Hd. injection Hd as <-.
  apply bind_returns in H as ([] & we & He & H).
  injection H as <- <- <-.
  match type of He with
  | create_http_pool _ _ _ ?v = _ => set (wd := v) in *
  end.
  set (unix_socket := match host with
                      | Some _ => o_unix_socket opts
                      | None => None
                      end).
  destruct (fill_pool_fills url0 unix_socket Hs (pool_count opts) (set_pool wd []))
    as (wf & E & P & T & Old & New).
  assert (Ee : create_http_pool url0 host opts wd = (Returns tt, wf)).
  { unfold create_http_pool. unfold bind at 1. exact E. }
  rewrite Ee in He. injection He as <-.
  assert (Nd : next_conn wd = S (next_conn w)).
  { subst wd. cbn [next_conn set_heap set_trace]. congruence. }
  cbn [pool next_conn trace heap set_pool app] in P, T, Old, New.
  rewrite Nd in *. fold first in P, New, Old |- *.
  split; [exact P|]. split; [|split].
  - intros c Hin. rewrite P in Hin. apply in_seq in Hin. now apply New.
  - rewrite Old by lia. subst wd. cbn. now rewrite Nat.eqb_refl.
  - exists (trace wc). rewrite T, P. subst wd. cbn [trace set_heap set_trace].
    now rewrite <- app_assoc.
Qed.

Lemma fill_pool_preserves R count url unix_socket :
  (forall w, R w w) -> (forall a b c, R a b -> R b c -> R a c) ->
  preserves R (create_http url unix_socket) ->
  (forall c, preserves R (pool_put c)) ->
  preserves R (fill_pool count url unix_socket).
Proof.
  intros Hr Ht Hc Hp. induction count as [|count IH]; cbn [fill_pool].
  - apply preserves_ret, Hr.
  - apply preserves_bind; [exact Ht | exact Hc | intros c].
    apply preserves_bind; [exact Ht | apply Hp | intros _; exact IH].
Qed.

Lemma fill_pool_terminates count url unix_socket :
  terminates (fill_pool count url unix_socket).
Proof.
  induction count as [|count IH]; cbn [fill_pool].
  - apply terminates_ret.
  - apply terminates_bind; [unfold create_http; terminating | intros c].
    apply terminates_bind; [comes_back | intros _; exact IH].
Qed.

Lemma open_setup_no_cancel transfer host :
  preserves (quiet not_cancel) (open_setup transfer host).
Proof.
  unfold open_setup, parse_transfer_url, get_options, create_http_pool.
  frames.
  apply fill_pool_preserves; try preorder.
  - unfold create_http. frames.
  - intros c. primitive.
Qed.

Lemma open_setup_terminates transfer host :
  terminates (open_setup transfer host).
Proof.
  unfold open_setup, parse_transfer_url, get_options, create_http_pool.
  terminating.
  apply fill_pool_terminates.
Qed.

Lemma polled_no_cancel n id : forallb not_cancel (polled n id) = true.
Proof. induction n as [|n IH]; [reflexivity|]. rewrite polled_S. cbn. exact IH. Qed.

(** X11. A handle that [open] returns describes a session that is ready:
    its transfer is in phase [TRANSFERRING] and was never cancelled, the
    [failed] flag is clear, and the pool holds exactly [h['connections']]
    connection objects, at most [MAX_CONNECTIONS], all made after the
    connection that carried the OPTIONS request and none with a socket yet.
    That first connection is closed and is not in the pool: closing it and
    filling the pool are the last calls [open] makes. *)
Theorem open_returns_ready_session :
  forall (fuel : nat) (readonly : bool) (w w' : World) (h : Handle),
    open fuel readonly w = (Returns h, w') ->
    let first := next_conn w in
    failed w' = false /\
    phase (h_transfer h) = TRANSFERRING /\
    calls is_cancel (trace w') = calls is_cancel (trace w) /\
    pool w' = seq (S first) (h_connections h) /\
    (h_connections h <= 4)%nat /\
    (forall c, In c (pool w') -> sock (heap w' c) = None) /\
    sock (heap w' first) = None /\
    ~ In first (pool w') /\
    exists before,
      trace w' = before ++ [EvHttpClose first] ++ map EvPoolPut (pool w').
Proof.
  intros fuel readonly w w' h H first.
  rewrite open_unfold in H.
  apply bind_returns in H as (p & w0 & H0 & H). injection H0 as <- <-.
  apply bind_returns in H as (host & wh & Hh & H).
  assert (wh = w) as ->.
  { destruct (rhv_direct (params w)).
    - pose proof (find_host_pure w) as Hp. rewrite Hh in Hp. exact Hp.
    - now injection Hh. }
  apply bind_returns in H as (disk & w1 & H1 & H).
  pose proof (create_disk_local fuel w) as L1.
  pose proof (create_disk_no_cancel fuel w) as Q1.
  rewrite H1 in L1, Q1. cbn [snd] in L1, Q1.
  apply bind_returns in H as (transfer & w2 & H2 & H).
  pose proof (create_transfer_local fuel disk host w1) as L2.
  rewrite H2 in L2. cbn [snd] in L2.
  assert (N2 : next_conn w2 = next_conn w).
  { unfold same, local_state in L1, L2. congruence. }
  assert (Q2 : phase transfer = TRANSFERRING /\ quiet not_cancel w1 w2).
  { unfold create_transfer, bind, transfer_supports_format,
      transfers_service_add, bind, log, of_result, time_time, shd in H2.
    cbn in H2.
    destruct (transfer_add (engine w1)) as [t0|e]; [|discriminate].
    cbn in H2. apply create_transfer_wait_returns in H2 as (Hs & n & _ & Ht).
    split; [exact Hs|]. cbn [trace set_clock set_trace] in Ht.
    rewrite <- app_assoc in Ht. eexists. split; [exact Ht|].
    cbn. apply polled_no_cancel. }
  destruct Q2 as (Hphase & Q2).
  apply bind_returns in H as ([url options] & w3 & H3 & H).
  apply try_except_returns in H3 as [H3 | (e & wx & _ & _ & Hx)];
    [|now apply cancel_and_raise_never_returns in Hx].
  pose proof (open_setup_no_cancel transfer host w2) as Q3.
  rewrite H3 in Q3. cbn [snd] in Q3.
  apply open_setup_returns in H3 as (P & S3 & F3 & before & T).
  unfold bind, pool_qsize, ret in H. injection H as <- <-.
  cbn [failed pool heap trace set_failed h_transfer h_connections].
  rewrite N2 in *. fold first in P, F3, T |- *.
  assert (Hn : List.length (pool w3) = pool_count options)
    by (rewrite P; apply length_seq).
  split; [reflexivity|]. split; [exact Hphase|].
  split.
  { assert (Hq : forall e, not_cancel e = true -> is_cancel e = false)
      by (intros e; unfold not_cancel; destruct (is_cancel e); auto).
    rewrite (quiet_calls _ _ _ _ Hq Q3), (quiet_calls _ _ _ _ Hq Q2).
    apply (quiet_calls _ _ _ _ Hq Q1). }
  split; [rewrite Hn; exact P|].
  split; [rewrite Hn; unfold pool_count, MAX_CONNECTIONS; lia|].
  split; [exact S3|]. split; [exact F3|].
  split; [rewrite P; intros Hin; apply in_seq in Hin; lia|].
  exists before. exact T.
Qed.

Lemma open_returns_ready_session_witness :
  pool (snd (open 5 false Example.fresh)) = [1; 2; 3; 4]%nat /\
  sock (heap (snd (open 5 false Example.fresh)) 0%nat) = None.
Proof.
  destruct (open_returns_ready_session 5 false Example.fresh
              (snd (open 5 false Example.fresh))
              {| h_can_flush := true; h_can_zero := true; h_disk_id := "d-1";
                 h_transfer := Example.transfer TRANSFERRING;
                 h_connections := 4; h_path := "/images/ticket" |})
    as (_ & _ & _ & HP & _ & _ & HS & _).
  - vm_compute. reflexivity.
  - split; [exact HP | exact HS].
Defined.

(** X10. Once [open] has created the transfer, it either returns a handle
    for this transfer and this disk, having made no cancel call, or it
    raises after exactly one cancel call for this transfer, which is the
    last call it makes: whatever fails between the creation of the transfer
    and the construction of the handle, the transfer is cancelled.  In
    that part [open] never waits. *)
Theorem open_cancels_when_setup_fails :
  forall (fuel : nat) (readonly : bool) (w w1 w2 : World)
         (host : option Host) (d : Disk) (t : Transfer),
    fst ((if rhv_direct (params w) then find_host else ret None) w)
    = Returns host ->
    create_disk fuel w = (Returns d, w1) ->
    create_transfer fuel d host w1 = (Returns t, w2) ->
    let r := open fuel readonly w in
    match fst r with
    | Returns h =>
        h_transfer h = t /\ h_disk_id h = disk_id d /\
        calls is_cancel (trace (snd r)) = calls is_cancel (trace w2)
    | Raises e =>
        (exists before,
           trace (snd r) = before ++ [EvTransferCancel (transfer_id t)]) /\
        calls is_cancel (trace (snd r)) = S (calls is_cancel (trace w2))
    | Blocks | OutOfFuel => False
    end.
Proof.
  intros fuel readonly w w1 w2 host d t Hh H1 H2 r.
  assert (Hh' : (if rhv_direct (params w) then find_host else ret None) w
                = (Returns host, w)).
  { destruct (rhv_direct (params w)).
    - pose proof (find_host_pure w) as Hp.
      destruct (find_host w) as [o wx]. cbn in Hh, Hp. congruence.
    - cbn in Hh |- *. unfold ret in *. cbn in Hh. congruence. }
  assert (Er : r = (made <- try_except (open_setup t host) (fun _ => true)
                              (fun e => cancel_transfer t ;; raise e) ;;
                    let (destination_url, options) := made in
                    (fun w => (Returns tt, set_failed w false)) ;;
                    connections <- pool_qsize ;;
                    ret {| h_can_flush := o_can_flush options;
                           h_can_zero := o_can_zero options;
                           h_disk_id := disk_id d;
                           h_transfer := t;
                           h_connections := connections;
                           h_path := url_path destination_url |}) w2).
  { subst r. rewrite open_unfold.
    unfold bind at 1. unfold get_params at 1.
    unfold bind at 1. rewrite Hh'.
    unfold bind at 1. rewrite H1.
    unfold bind at 1. rewrite H2. reflexivity. }
  clearbody r.
  pose proof (open_setup_no_cancel t host w2) as Q.
  pose proof (open_setup_terminates t host w2) as F.
  assert (Hq : forall e, not_cancel e = true -> is_cancel e = false)
    by (intros e; unfold not_cancel; destruct (is_cancel e); auto).
  apply (quiet_calls _ _ _ _ Hq) in Q.
  unfold bind at 1 in Er. unfold try_except in Er.
  destruct (open_setup t host w2) as [[[url options]|e| |] w3];
    cbn [fst snd] in Q, F; try contradiction.
  - subst r. cbn. repeat split. exact Q.
  - unfold cancel_transfer, transfer_service_cancel, bind, log, of_error,
      raise, ret, shd in Er. cbn in Er.
    destruct (transfer_cancel (engine w3) 0%nat); subst r;
      cbn [fst snd trace set_trace set_engine];
      (split; [eexists; reflexivity|]);
      rewrite calls_snoc; cbn [is_cancel Nat.add]; now rewrite Q.
Qed.

Lemma open_cancels_when_setup_fails_witness :
  exists before,
    trace (snd (open 5 false (set_network Example.fresh
                                (Example.a_network (const (inr (OSError "reset")))))))
    = before ++ [EvTransferCancel "t-1"].
Proof.
  pose proof (open_cancels_when_setup_fails 5 false
                (set_network Example.fresh
                   (Example.a_network (const (inr (OSError "reset")))))
                (snd (create_disk 5
                        (set_network Example.fresh
                           (Example.a_network (const (inr (OSError "reset")))))))
                (snd (create_transfer 5 (Example.disk DiskStatus.OK) None
                        (snd (create_disk 5
                                (set_network Example.fresh
                                   (Example.a_network
                                      (const (inr (OSError "reset")))))))))
                None (Example.disk DiskStatus.OK)
                (Example.transfer TRANSFERRING)) as H.
  cbv zeta in H.
  assert (E : fst (open 5 false
                     (set_network Example.fresh
                        (Example.a_network (const (inr (OSError "reset"))))))
              = Raises (OSError "reset")) by (vm_compute; reflexivity).
  rewrite E in H.
  apply H; vm_compute; reflexivity.
Defined.

(** ** Errors of the imageio server *)

Lemma length_substring_0 n : forall s,
  (String.length (String.substring 0 n s) <= n)%nat.
Proof.
  induction n as [|n IH]; intros s.
  - destruct s; cbn; lia.
  - destruct s as [|a s]; cbn; [lia|]. specialize (IH s). lia.
Qed.

(** X12. [request_failed] never returns.  It reads the body of the response
    once and raises a [RuntimeError] that carries the message, the status,
    the reason and at most the first 200 bytes of the body; when reading
    the body raises an [EnvironmentError], the error carries a text saying
    so in place of the body, cut to 200 characters; any other error of the
    read is raised in place of the [RuntimeError]. *)
Theorem request_failed_short_error :
  forall (A : Type) (c : nat) (r : Response) (msg : io_message) (w : World),
    let res := @request_failed A c r msg w in
    trace (snd res) = trace w ++ [EvRead c] /\
    fst res
    = match read_error r with
      | None =>
          Raises (RuntimeError
                    (RequestFailed msg (status r) (reason r)
                       (inl (firstn 200 (List.concat (segments r))))))
      | Some e =>
          if is_EnvironmentError e then
            Raises (RuntimeError
                      (RequestFailed msg (status r) (reason r)
                         (inr (String.substring 0 200 (unreadable_body e)))))
          else Raises e
      end /\
    (body_readable r ->
     exists body,
       fst res = Raises (RuntimeError
                           (RequestFailed msg (status r) (reason r) body)) /\
       (body_length body <= 200)%nat).
Proof.
  intros A c r msg w res.
  assert (E : fst res
              = match read_error r with
                | None =>
                    Raises (RuntimeError
                              (RequestFailed msg (status r) (reason r)
                                 (truncated (inl (List.concat (segments r))))))
                | Some e =>
                    if is_EnvironmentError e then
                      Raises (RuntimeError
                                (RequestFailed msg (status r) (reason r)
                                   (truncated (inr (unreadable_body e)))))
                    else Raises e
                end).
  { subst res.
    unfold request_failed, try_except, response_read, bind, log, raise, ret.
    cbn [fst snd]. destruct (read_error r) as [e|]; [|reflexivity].
    cbn [fst snd]. destruct (is_EnvironmentError e); reflexivity. }
  assert (Hshort : forall b, (body_length (truncated b) <= 200)%nat).
  { intros [b|t]; unfold truncated, body_length.
    - rewrite length_firstn. lia.
    - apply length_substring_0. }
  split; [|split].
  - subst res.
    unfold request_failed, try_except, response_read, bind, log, raise, ret.
    cbn [fst snd]. destruct (read_error r) as [e|]; [|reflexivity].
    cbn [fst snd]. destruct (is_EnvironmentError e); reflexivity.
  - rewrite E. destruct (read_error r) as [e|]; [|reflexivity].
    destruct (is_EnvironmentError e); reflexivity.
  - rewrite E. clear E. unfold body_readable. intros Hr.
    destruct (read_error r) as [e|].
    + rewrite Hr. eexists. split; [reflexivity | apply Hshort].
    + eexists. split; [reflexivity | apply Hshort].
Qed.

Lemma request_failed_short_error_witness :
  exists body,
    fst (@request_failed unit 0 (Example.response 403 [[x01; x02]])
           CouldNotFlush Example.refusing)
    = Raises (RuntimeError (RequestFailed CouldNotFlush 403 "reason" body)) /\
    (body_length body <= 200)%nat.
Proof.
  apply (request_failed_short_error unit 0 (Example.response 403 [[x01; x02]])
           CouldNotFlush Example.refusing).
  exact I.
Defined.

(** ** Errors while sending *)






